(** * AgenticOne: conversation store, sign-in and the handlers of the chat component

    A shallow embedding of
    - [src/public/conversation-storage.js] (class [ConversationStorage]),
    - [src/auth-oauth2.ts] (class [OAuth2GoogleAuth]: the code exchange,
      guest sign-in, sign-out, the listeners, the PKCE helpers),
    - the [App] component and its login screen: [handleGuestSignIn],
      [handleSendMessage], [handleFileChange], [handleGenerateReport], the
      data-source toggles and the effects that load and save the logs,
    together with the properties the specification states about them and
    further properties read off the code. *)

From Stdlib Require Import ZArith Ascii String List Lia Bool.
From stdpp Require Import base option list gmap strings pretty.

Set Warnings "-register-all".

Local Open Scope string_scope.
Local Open Scope Z_scope.
Local Open Scope list_scope.

(** ** JavaScript strings *)

Module JsString.

(** The double quote character, code 34. *)
Definition dquote : ascii := ascii_of_nat 34.

(** [s.startsWith(p)]. *)
Definition startsWith (s p : string) : bool := String.prefix p s.

(** [s.split(c)] for a one-character separator [c]; never the empty array. *)
Fixpoint split (c : ascii) (s : string) : list string :=
  match s with
  | EmptyString => [EmptyString]
  | String a s' =>
      if Ascii.eqb a c then EmptyString :: split c s'
      else match split c s' with
           | seg :: rest => String a seg :: rest
           | [] => [String a EmptyString]
           end
  end.

(** [arr.pop()]: the last element, [undefined] on the empty array. *)
Definition pop (l : list string) : option string := last l.

(** A property key made from a possibly undefined string. *)
Definition propertyKey (o : option string) : string :=
  match o with Some s => s | None => "undefined" end.

(** Strings are held as the bytes of their UTF-8 text. The code points
    that [String.prototype.trim] strips are the white space and the line
    terminators of ECMAScript: U+0009 to U+000D and U+0020 on one byte,
    U+00A0 on two bytes, and on three bytes U+1680, U+2000 to U+200A,
    U+2028, U+2029, U+202F, U+205F, U+3000 and U+FEFF. *)
Definition isWhiteSpace (a : ascii) : bool :=
  match nat_of_ascii a with
  | 9%nat | 10%nat | 11%nat | 12%nat | 13%nat | 32%nat => true
  | _ => false
  end.

Definition isWhiteSpace2 (a b : ascii) : bool :=
  (nat_of_ascii a =? 194)%nat && (nat_of_ascii b =? 160)%nat.

Definition isWhiteSpace3 (a b c : ascii) : bool :=
  let x := nat_of_ascii a in
  let y := nat_of_ascii b in
  let z := nat_of_ascii c in
  ((x =? 225) && (y =? 154) && (z =? 128)
   || (x =? 226) && (y =? 128) && ((128 <=? z) && (z <=? 138))
   || (x =? 226) && (y =? 128) && ((z =? 168) || (z =? 169) || (z =? 175))
   || (x =? 226) && (y =? 129) && (z =? 159)
   || (x =? 227) && (y =? 128) && (z =? 128)
   || (x =? 239) && (y =? 187) && (z =? 191))%nat.

(** White space is stripped from the front code point by code point;
    [w2] and [w3] recognise the code points of two and of three bytes. *)
Fixpoint stripWhiteSpace (w2 : ascii -> ascii -> bool)
         (w3 : ascii -> ascii -> ascii -> bool) (s : string) : string :=
  match s with
  | EmptyString => EmptyString
  | String a s1 =>
      if isWhiteSpace a then stripWhiteSpace w2 w3 s1
      else match s1 with
           | EmptyString => s
           | String b s2 =>
               if w2 a b then stripWhiteSpace w2 w3 s2
               else match s2 with
                    | EmptyString => s
                    | String c s3 =>
                        if w3 a b c then stripWhiteSpace w2 w3 s3 else s
                    end
           end
  end.

Definition trimStart (s : string) : string :=
  stripWhiteSpace isWhiteSpace2 isWhiteSpace3 s.

(** The same from the end, on the bytes in reverse. *)
Definition trimEnd (s : string) : string :=
  String.rev (stripWhiteSpace (fun b a => isWhiteSpace2 a b)
                              (fun c b a => isWhiteSpace3 a b c) (String.rev s)).

(** [s.trim()]. *)
Definition trim (s : string) : string := trimEnd (trimStart s).

(** Truthiness of a string: only the empty string is falsy. *)
Definition truthy (s : string) : bool := negb (String.eqb s EmptyString).

(** [s.indexOf(c)], [None] for -1. *)
Fixpoint indexOf (c : ascii) (s : string) : option nat :=
  match s with
  | EmptyString => None
  | String a s' => if Ascii.eqb a c then Some 0%nat else S <$> indexOf c s'
  end.

(** [s.substring(n)]. *)
Fixpoint substring_from (n : nat) (s : string) : string :=
  match n, s with
  | O, _ => s
  | S n', String _ s' => substring_from n' s'
  | S _, EmptyString => EmptyString
  end.

End JsString.

(** ** JSON values *)

Inductive JSON : Type :=
| JNull
| JBool (b : bool)
| JNum (n : Z)
| JStr (s : string)
| JArr (items : list JSON)
| JObj (fields : list (string * JSON)).

Module Json.

(** Property read [o.name] on an object literal: the last binding wins. *)
Fixpoint field (name : string) (fields : list (string * JSON)) : option JSON :=
  match fields with
  | [] => None
  | (k, v) :: rest =>
      match field name rest with
      | Some w => Some w
      | None => if String.eqb k name then Some v else None
      end
  end.

(** JavaScript truthiness. *)
Definition truthy (v : JSON) : bool :=
  match v with
  | JNull => false
  | JBool b => b
  | JNum n => negb (n =? 0)
  | JStr s => JsString.truthy s
  | JArr _ | JObj _ => true
  end.

(** [v.messages || []]; [None] is the [TypeError] raised when [v] is [null]. *)
Definition messages_or_empty (v : JSON) : option JSON :=
  match v with
  | JNull => None
  | JObj fields =>
      match field "messages" fields with
      | Some m => Some (if truthy m then m else JArr [])
      | None => Some (JArr [])
      end
  | _ => Some (JArr [])
  end.

End Json.

(** ** Messages (the [Message] type of the application) *)

Inductive Role : Type := user | assistant.

Record Message : Type := mkMessage {
  role : Role;
  content : string;
  agentId : option string
}.

Definition role_name (r : Role) : string :=
  match r with user => "user" | assistant => "assistant" end.

(** A message as the JSON object [JSON.stringify] sees: an undefined
    [agentId] is no property at all. *)
Definition Message_json (m : Message) : JSON :=
  JObj ([("role", JStr (role_name (role m))); ("content", JStr (content m))]
        ++ match agentId m with
           | Some a => [("agentId", JStr a)]
           | None => []
           end).

(** ** window.localStorage *)

Module LocalStorage.

(** The entries in the order [key(0)], [key(1)], ...; keys are unique. *)
Abbreviation t := (list (string * string)).

Definition length (ls : t) : nat := List.length ls.

Definition key (ls : t) (i : nat) : option string := fst <$> ls !! i.

Fixpoint getItem (ls : t) (k : string) : option string :=
  match ls with
  | [] => None
  | (k', v) :: rest => if String.eqb k' k then Some v else getItem rest k
  end.

Fixpoint setItem (ls : t) (k v : string) : t :=
  match ls with
  | [] => [(k, v)]
  | (k', v') :: rest =>
      if String.eqb k' k then (k, v) :: rest else (k', v') :: setItem rest k v
  end.

Fixpoint removeItem (ls : t) (k : string) : t :=
  match ls with
  | [] => []
  | (k', v') :: rest =>
      if String.eqb k' k then removeItem rest k else (k', v') :: removeItem rest k
  end.

Definition keys (ls : t) : list string := map fst ls.

(** Well-formed storage: no key occurs twice. *)
Definition wf (ls : t) : Prop := NoDup (keys ls).

End LocalStorage.

(** ** Control flow: a counting [for] loop whose body may throw *)

(** The outcome of a block inside [try]: the state it reached, and whether
    it reached it normally or by a throw. *)
Inductive Completion (A : Type) : Type :=
| Normal (a : A)
| Thrown (a : A).
Arguments Normal {A} a.
Arguments Thrown {A} a.

Definition state_of {A} (c : Completion A) : A :=
  match c with Normal a | Thrown a => a end.

(** [for (let i = start; i < start + n; i++) body(i)]. *)
Fixpoint for_loop {A} (n : nat) (i : nat) (body : nat -> A -> Completion A) (acc : A)
  : Completion A :=
  match n with
  | O => Normal acc
  | S n' =>
      match body i acc with
      | Normal acc' => for_loop n' (S i) body acc'
      | Thrown acc' => Thrown acc'
      end
  end.

(** ** class ConversationStorage *)

Section ConversationStorage.

(** [JSON.parse] ([None]: it throws a [SyntaxError]) and [JSON.stringify]
    are the platform's. *)
Variable JSON_parse : string -> option JSON.
Variable JSON_stringify : JSON -> string.

Definition storageKeyPrefix : string := "agenticone_conversation_".
Definition userKeyPrefix : string := "agenticone_user_".

(** [`${this.storageKeyPrefix}${userEmail}_${agentRole}`] *)
Definition conversationKey (userEmail agentRole : string) : string :=
  storageKeyPrefix +:+ userEmail +:+ "_" +:+ agentRole.

(** [`${this.storageKeyPrefix}${userEmail}_`] *)
Definition conversationKeyPrefix (userEmail : string) : string :=
  storageKeyPrefix +:+ userEmail +:+ "_".

(** [`${this.userKeyPrefix}${userEmail}`] *)
Definition sessionKey (userEmail : string) : string :=
  userKeyPrefix +:+ userEmail.

Definition conversationData (userEmail agentRole : string)
           (messages : list Message) (now : string) : JSON :=
  JObj [("user_email", JStr userEmail);
        ("agent_role", JStr agentRole);
        ("messages", JArr (map Message_json messages));
        ("last_updated", JStr now);
        ("message_count", JNum (Z.of_nat (List.length messages)))].

(** [window.localStorage] is [None] where there is no window or no storage.
    [now] is [new Date().toISOString()]. *)
Definition saveConversationToLocal (userEmail agentRole : string)
           (messages : list Message) (now : string)
           (w : option LocalStorage.t) : option LocalStorage.t :=
  let storageKey := conversationKey userEmail agentRole in
  let data := conversationData userEmail agentRole messages now in
  match w with
  | Some ls => Some (LocalStorage.setItem ls storageKey (JSON_stringify data))
  | None => None
  end.

(** [Some v]: the value returned; a caught exception falls through to
    [return null], which is [None] here like a missing record. *)
Definition loadConversationFromLocal (userEmail agentRole : string)
           (w : option LocalStorage.t) : option JSON :=
  let storageKey := conversationKey userEmail agentRole in
  match w with
  | Some ls =>
      match LocalStorage.getItem ls storageKey with
      | Some storedData =>
          if JsString.truthy storedData then
            match JSON_parse storedData with
            | Some data => Json.messages_or_empty data
            | None => None
            end
          else None
      | None => None
      end
  | None => None
  end.

Definition sessionData (userEmail userName : string)
           (selectedAgent ragSources uploadedFiles : JSON) (now : string) : JSON :=
  JObj [("user_email", JStr userEmail);
        ("user_name", JStr userName);
        ("selected_agent", selectedAgent);
        ("rag_sources", ragSources);
        ("uploaded_files", uploadedFiles);
        ("last_session", JStr now)].

Definition saveUserSession (userEmail userName : string)
           (selectedAgent ragSources uploadedFiles : JSON) (now : string)
           (w : option LocalStorage.t) : option LocalStorage.t :=
  let data := sessionData userEmail userName selectedAgent ragSources uploadedFiles now in
  match w with
  | Some ls => Some (LocalStorage.setItem ls (sessionKey userEmail) (JSON_stringify data))
  | None => None
  end.

Definition loadUserSession (userEmail : string)
           (w : option LocalStorage.t) : option JSON :=
  match w with
  | Some ls =>
      match LocalStorage.getItem ls (sessionKey userEmail) with
      | Some storedData =>
          if JsString.truthy storedData then JSON_parse storedData else None
      | None => None
      end
  | None => None
  end.

(** The test of the first loop of [clearUserData]. *)
Definition isUserKey (userEmail : string) (key : option string) : bool :=
  match key with
  | Some k =>
      JsString.truthy k
      && (JsString.startsWith k (conversationKeyPrefix userEmail)
          || String.eqb k (sessionKey userEmail))
  | None => false
  end.

Definition clearUserData_collect (userEmail : string) (ls : LocalStorage.t)
           (i : nat) (keysToRemove : list string) : Completion (list string) :=
  let key := LocalStorage.key ls i in
  if isUserKey userEmail key
  then Normal (keysToRemove ++ [JsString.propertyKey key])%list
  else Normal keysToRemove.

Definition clearUserData (userEmail : string)
           (w : option LocalStorage.t) : option LocalStorage.t :=
  match w with
  | Some ls =>
      let keysToRemove :=
        state_of (for_loop (LocalStorage.length ls) 0
                           (clearUserData_collect userEmail ls) []) in
      Some (fold_left LocalStorage.removeItem keysToRemove ls)
  | None => None
  end.

(** The body of the loop of [getAllUserConversations]; [conversations] is
    the object under construction, which a throw leaves as it is. *)
Definition getAll_body (userEmail : string) (ls : LocalStorage.t)
           (i : nat) (conversations : gmap string JSON)
  : Completion (gmap string JSON) :=
  match LocalStorage.key ls i with
  | Some key =>
      if JsString.truthy key
         && JsString.startsWith key (conversationKeyPrefix userEmail)
      then
        let agentRole :=
          JsString.propertyKey (JsString.pop (JsString.split "_" key)) in
        match LocalStorage.getItem ls key with
        | Some storedData =>
            if JsString.truthy storedData then
              match JSON_parse storedData with
              | Some data =>
                  match Json.messages_or_empty data with
                  | Some msgs => Normal (<[agentRole := msgs]> conversations)
                  | None => Thrown conversations
                  end
              | None => Thrown conversations
              end
            else Normal conversations
        | None => Normal conversations
        end
      else Normal conversations
  | None => Normal conversations
  end.

(** The [try] block of [getAllUserConversations]. *)
Definition getAll_try (userEmail : string) (w : option LocalStorage.t)
  : Completion (gmap string JSON) :=
  match w with
  | Some ls => for_loop (LocalStorage.length ls) 0 (getAll_body userEmail ls) ∅
  | None => Normal ∅
  end.

(** The [catch] only logs; [conversations] is returned in both cases. *)
Definition getAllUserConversations (userEmail : string)
           (w : option LocalStorage.t) : gmap string JSON :=
  state_of (getAll_try userEmail w).

End ConversationStorage.

(** ** A JSON printer and parser

    An implementation of [JSON.stringify] and [JSON.parse] for integers,
    strings, arrays and objects, used to run the store on concrete
    records. *)

Module MiniJSON.
Import JsString.

Definition backslash : ascii := ascii_of_nat 92.

Definition escape_char (a : ascii) : string :=
  if Ascii.eqb a dquote then String backslash (String dquote EmptyString)
  else if Ascii.eqb a backslash then String backslash (String backslash EmptyString)
  else if Ascii.eqb a (ascii_of_nat 10) then String backslash "n"
  else if Ascii.eqb a (ascii_of_nat 13) then String backslash "r"
  else if Ascii.eqb a (ascii_of_nat 9) then String backslash "t"
  else String a EmptyString.

Fixpoint escape (s : string) : string :=
  match s with
  | EmptyString => EmptyString
  | String a s' => escape_char a +:+ escape s'
  end.

Definition quote (s : string) : string :=
  String dquote (escape s +:+ String dquote EmptyString).

Fixpoint stringify (v : JSON) : string :=
  match v with
  | JNull => "null"
  | JBool true => "true"
  | JBool false => "false"
  | JNum n => pretty n
  | JStr s => quote s
  | JArr items => "[" +:+ String.concat "," (map stringify items) +:+ "]"
  | JObj fields =>
      "{" +:+ String.concat ","
                (map (fun kv => quote (fst kv) +:+ ":" +:+ stringify (snd kv)) fields)
          +:+ "}"
  end.

Definition is_ws (a : ascii) : bool :=
  match nat_of_ascii a with
  | 9%nat | 10%nat | 13%nat | 32%nat => true
  | _ => false
  end.

Fixpoint skip_ws (s : string) : string :=
  match s with
  | EmptyString => EmptyString
  | String a s' => if is_ws a then skip_ws s' else s
  end.

Definition unescape (e : ascii) : option ascii :=
  if Ascii.eqb e dquote then Some dquote
  else if Ascii.eqb e backslash then Some backslash
  else if Ascii.eqb e "/" then Some "/"%char
  else if Ascii.eqb e "n" then Some (ascii_of_nat 10)
  else if Ascii.eqb e "r" then Some (ascii_of_nat 13)
  else if Ascii.eqb e "t" then Some (ascii_of_nat 9)
  else None.

(** The rest of a string literal after its opening quote. *)
Fixpoint parse_string_body (s : string) : option (string * string) :=
  match s with
  | EmptyString => None
  | String a r =>
      if Ascii.eqb a dquote then Some (EmptyString, r)
      else if Ascii.eqb a backslash then
        match r with
        | String e r' =>
            match unescape e, parse_string_body r' with
            | Some c, Some (t, rest) => Some (String c t, rest)
            | _, _ => None
            end
        | EmptyString => None
        end
      else
        match parse_string_body r with
        | Some (t, rest) => Some (String a t, rest)
        | None => None
        end
  end.

Definition digit (a : ascii) : option Z :=
  let n := nat_of_ascii a in
  if (48 <=? n)%nat && (n <=? 57)%nat then Some (Z.of_nat (n - 48)) else None.

Fixpoint parse_digits (acc : Z) (s : string) : Z * string :=
  match s with
  | EmptyString => (acc, EmptyString)
  | String a r =>
      match digit a with
      | Some d => parse_digits (acc * 10 + d) r
      | None => (acc, s)
      end
  end.

Definition parse_nat (s : string) : option (Z * string) :=
  match s with
  | String a r =>
      match digit a with
      | Some d => Some (parse_digits d r)
      | None => None
      end
  | EmptyString => None
  end.

Definition strip (p s : string) : option string :=
  if String.prefix p s
  then Some (JsString.substring_from (String.length p) s)
  else None.

(** Elements of an array after the first, up to the closing bracket. *)
Fixpoint parse_elems (pv : string -> option (JSON * string)) (n : nat) (s : string)
  : option (list JSON * string) :=
  match n with
  | O => None
  | S n' =>
      match pv (skip_ws s) with
      | Some (v, r) =>
          match skip_ws r with
          | String "," r' =>
              match parse_elems pv n' r' with
              | Some (vs, rest) => Some (v :: vs, rest)
              | None => None
              end
          | String "]" rest => Some ([v], rest)
          | _ => None
          end
      | None => None
      end
  end.

(** Members of an object, up to the closing brace. *)
Fixpoint parse_members (pv : string -> option (JSON * string)) (n : nat) (s : string)
  : option (list (string * JSON) * string) :=
  match n with
  | O => None
  | S n' =>
      match skip_ws s with
      | String q r =>
          if Ascii.eqb q dquote then
            match parse_string_body r with
            | Some (k, r1) =>
                match skip_ws r1 with
                | String ":" r2 =>
                    match pv (skip_ws r2) with
                    | Some (v, r3) =>
                        match skip_ws r3 with
                        | String "," r4 =>
                            match parse_members pv n' r4 with
                            | Some (kvs, rest) => Some ((k, v) :: kvs, rest)
                            | None => None
                            end
                        | String "}" rest => Some ([(k, v)], rest)
                        | _ => None
                        end
                    | None => None
                    end
                | _ => None
                end
            | None => None
            end
          else None
      | EmptyString => None
      end
  end.

Fixpoint parse_value (fuel : nat) (s : string) : option (JSON * string) :=
  match fuel with
  | O => None
  | S fuel' =>
      match s with
      | String "[" r =>
          match skip_ws r with
          | String "]" rest => Some (JArr [], rest)
          | _ =>
              match parse_elems (parse_value fuel') (String.length r) r with
              | Some (vs, rest) => Some (JArr vs, rest)
              | None => None
              end
          end
      | String "{" r =>
          match skip_ws r with
          | String "}" rest => Some (JObj [], rest)
          | _ =>
              match parse_members (parse_value fuel') (String.length r) r with
              | Some (kvs, rest) => Some (JObj kvs, rest)
              | None => None
              end
          end
      | String "-" r =>
          match parse_nat r with
          | Some (n, rest) => Some (JNum (- n), rest)
          | None => None
          end
      | String a r =>
          if Ascii.eqb a dquote then
            match parse_string_body r with
            | Some (t, rest) => Some (JStr t, rest)
            | None => None
            end
          else
            match strip "null" s, strip "true" s, strip "false" s with
            | Some rest, _, _ => Some (JNull, rest)
            | _, Some rest, _ => Some (JBool true, rest)
            | _, _, Some rest => Some (JBool false, rest)
            | _, _, _ =>
                match parse_nat s with
                | Some (n, rest) => Some (JNum n, rest)
                | None => None
                end
            end
      | EmptyString => None
      end
  end.

Definition parse (s : string) : option JSON :=
  match parse_value (S (String.length s)) (skip_ws s) with
  | Some (v, rest) =>
      match skip_ws rest with
      | EmptyString => Some v
      | _ => None
      end
  | None => None
  end.

End MiniJSON.

(** ** Guest sign-in (class OAuth2GoogleAuth) *)

Record GoogleUser : Type := mkGoogleUser {
  id : string;
  email : string;
  name : string;
  picture : string;
  access_token : string
}.

Section Auth.

(** [String.prototype.toUpperCase] is the platform's. *)
Variable toUpperCase : string -> string.

(** [s.charAt(0)] *)
Definition charAt0 (s : string) : string :=
  match s with
  | EmptyString => EmptyString
  | String a _ => String a EmptyString
  end.

(** [customName || 'Guest User']: an absent or empty name is replaced. *)
Definition guestNameOf (customName : option string) : string :=
  match customName with
  | Some n => if JsString.truthy n then n else "Guest User"
  | None => "Guest User"
  end.

(** The user [signInAsGuest] stores in [this.user] and hands to every
    listener; [now1] and [now2] are its two readings of [Date.now()]. *)
Definition signInAsGuest (customName : option string) (now1 now2 : Z) : GoogleUser :=
  let guestName := guestNameOf customName in
  {| id := "guest-" +:+ pretty now1;
     email := "guest@agenticone.com";
     name := guestName;
     picture := "https://via.placeholder.com/150/4F46E5/FFFFFF?text="
                +:+ toUpperCase (charAt0 guestName);
     access_token := "guest-token-" +:+ pretty now2 |}.

End Auth.

(** ** The App component: state *)

Inductive UploadStatus : Type := uploading | processing | ready.

Record UploadedFile : Type := mkUploadedFile {
  file_name : string;
  mimeType : string;
  data : string
}.

Record UploadedFileState : Type := mkUploadedFileState {
  file : UploadedFile;
  status : UploadStatus;
  progress : Z
}.

Record QueryEntry : Type := mkQueryEntry {
  entry_id : string;
  query : string;
  agent : string;
  timestamp : Z
}.

(** The React state of [App] that the handlers read and write.
    [ragSources] lists the entries of the object in property order. *)
Record AppState : Type := mkAppState {
  selectedAgent : string;
  ragSources : list (string * bool);
  chatHistories : gmap string (list Message);
  input : string;
  isLoading : bool;
  isStreaming : bool;
  uploadedFiles : list UploadedFileState;
  fileError : option string;
  tokenCount : Z;
  queryHistory : list QueryEntry
}.

Definition set_input (v : string) (st : AppState) : AppState :=
  mkAppState (selectedAgent st) (ragSources st) (chatHistories st) v
             (isLoading st) (isStreaming st) (uploadedFiles st) (fileError st)
             (tokenCount st) (queryHistory st).

Definition set_selectedAgent (v : string) (st : AppState) : AppState :=
  mkAppState v (ragSources st) (chatHistories st) (input st)
             (isLoading st) (isStreaming st) (uploadedFiles st) (fileError st)
             (tokenCount st) (queryHistory st).

Definition set_chatHistories (v : gmap string (list Message)) (st : AppState) : AppState :=
  mkAppState (selectedAgent st) (ragSources st) v (input st)
             (isLoading st) (isStreaming st) (uploadedFiles st) (fileError st)
             (tokenCount st) (queryHistory st).

Definition set_isLoading (v : bool) (st : AppState) : AppState :=
  mkAppState (selectedAgent st) (ragSources st) (chatHistories st) (input st)
             v (isStreaming st) (uploadedFiles st) (fileError st)
             (tokenCount st) (queryHistory st).

Definition set_isStreaming (v : bool) (st : AppState) : AppState :=
  mkAppState (selectedAgent st) (ragSources st) (chatHistories st) (input st)
             (isLoading st) v (uploadedFiles st) (fileError st)
             (tokenCount st) (queryHistory st).

Definition set_uploadedFiles (v : list UploadedFileState) (st : AppState) : AppState :=
  mkAppState (selectedAgent st) (ragSources st) (chatHistories st) (input st)
             (isLoading st) (isStreaming st) v (fileError st)
             (tokenCount st) (queryHistory st).

Definition set_fileError (v : option string) (st : AppState) : AppState :=
  mkAppState (selectedAgent st) (ragSources st) (chatHistories st) (input st)
             (isLoading st) (isStreaming st) (uploadedFiles st) v
             (tokenCount st) (queryHistory st).

Definition set_tokenCount (v : Z) (st : AppState) : AppState :=
  mkAppState (selectedAgent st) (ragSources st) (chatHistories st) (input st)
             (isLoading st) (isStreaming st) (uploadedFiles st) (fileError st)
             v (queryHistory st).

Definition set_queryHistory (v : list QueryEntry) (st : AppState) : AppState :=
  mkAppState (selectedAgent st) (ragSources st) (chatHistories st) (input st)
             (isLoading st) (isStreaming st) (uploadedFiles st) (fileError st)
             (tokenCount st) v.

(** [useState] initial values. *)
Definition initialState : AppState :=
  {| selectedAgent := "METHODS_SPECIALIST";
     ragSources := [("standards", true); ("internal", true);
                    ("sensors", false); ("workorders", false)];
     chatHistories := ∅;
     input := EmptyString;
     isLoading := false;
     isStreaming := false;
     uploadedFiles := [];
     fileError := None;
     tokenCount := 0;
     queryHistory := [] |}.

(** [prev[agent] || []] *)
Definition historyOf (h : gmap string (list Message)) (agent : string) : list Message :=
  default [] (h !! agent).

(** ** The completion client: requests and replies *)

Inductive Part : Type :=
| TextPart (text : string)
| InlineData (mime payload : string).

Record Content : Type := mkContent {
  content_role : string;
  parts : list Part
}.

Inductive Request : Type :=
| CountTokens (contents : list Content)
| GenerateContentStream (contents : list Content) (systemInstruction : string).

(** What the client hands back at an [await] of [handleSendMessage]. *)
Inductive Reply : Type :=
| TokensCounted (totalTokens : Z)   (* a [countTokens] promise resolves *)
| StreamOpened                      (* [generateContentStream] resolves *)
| Chunk (text : option string)      (* the stream yields; [chunk.text] may be undefined *)
| StreamDone                        (* the stream is exhausted *)
| Rejected.                         (* the awaited promise rejects, or the stream throws *)

(** Where a running [handleSendMessage] is suspended. *)
Inductive Phase : Type :=
| AwaitInputTokens
| AwaitStream
| Streaming
| AwaitOutputTokens
| Finished.

(** A call of [handleSendMessage] past its guard: the values its closure
    captured and its local variables. *)
Record Send : Type := mkSend {
  send_agent : string;             (* the captured [selectedAgent] *)
  inputContents : list Content;
  systemPrompt : string;
  phase : Phase;
  firstChunk : bool;
  fullResponse : string
}.

Definition set_phase (p : Phase) (s : Send) : Send :=
  mkSend (send_agent s) (inputContents s) (systemPrompt s) p (firstChunk s) (fullResponse s).

Record Agent : Type := mkAgent {
  agent_name : string;
  agent_systemPrompt : string
}.

(** ** handleSendMessage *)

Section App.

(** The table of specialists comes from the application's constants. *)
Variable AGENT_ROLES : string -> Agent.

Definition apology : string := "Sorry, I encountered an error. Please try again.".

Definition errorMessage (agentRole : string) : Message :=
  {| role := assistant; content := apology; agentId := Some agentRole |}.

(** [!input.trim() || isLoading]: the handler returns at once. *)
Definition submitRejected (st : AppState) : bool :=
  negb (JsString.truthy (JsString.trim (input st))) || isLoading st.

Definition selectedSources (rag : list (string * bool)) : string :=
  String.concat ", " (map fst (List.filter snd rag)).

Definition newline : string := String (ascii_of_nat 10) EmptyString.

Definition promptWithContext (rag : list (string * bool)) (currentInput : string) : string :=
  "Using data from: [" +:+ selectedSources rag +:+ "]." +:+ newline +:+ newline
  +:+ currentInput.

Definition historyForAPI (h : list Message) : list Content :=
  map (fun msg =>
         {| content_role := match role msg with
                            | assistant => "model"
                            | user => "user"
                            end;
            parts := [TextPart (content msg)] |}) h.

Definition isReady (f : UploadedFileState) : bool :=
  match status f with ready => true | _ => false end.

Definition fileParts (files : list UploadedFileState) : list Part :=
  map (fun f => InlineData (mimeType f) (data f)) (map file (List.filter isReady files)).

Definition buildContents (st : AppState) (currentAgentHistory : list Message)
           (currentInput : string) : list Content :=
  (historyForAPI currentAgentHistory
   ++ [ {| content_role := "user";
           parts := fileParts (uploadedFiles st)
                    ++ [TextPart (promptWithContext (ragSources st) currentInput)] |} ])%list.

(** The handler from its entry to the first [await]: [None] when the guard
    returns, otherwise the state after the batched updates, the suspended
    call and the token-count request it has issued. *)
Definition handleSendMessage_start (now : Z) (st : AppState)
  : option (AppState * Send * Request) :=
  if submitRejected st then None
  else
    let userMessage := {| role := user; content := input st; agentId := None |} in
    let currentInput := input st in
    let historyEntry :=
      {| entry_id := pretty now;
         query := JsString.trim (input st);
         agent := agent_name (AGENT_ROLES (selectedAgent st));
         timestamp := now |} in
    let currentAgentHistory := historyOf (chatHistories st) (selectedAgent st) in
    let st1 := set_input EmptyString st in
    let st2 := set_queryHistory (historyEntry :: take 49 (queryHistory st1)) st1 in
    let st3 := set_chatHistories
                 (<[selectedAgent st := (currentAgentHistory ++ [userMessage])%list]>
                    (chatHistories st2)) st2 in
    let st4 := set_isLoading true st3 in
    let contents := buildContents st currentAgentHistory currentInput in
    Some (st4,
          {| send_agent := selectedAgent st;
             inputContents := contents;
             systemPrompt := agent_systemPrompt (AGENT_ROLES (selectedAgent st));
             phase := AwaitInputTokens;
             firstChunk := true;
             fullResponse := EmptyString |},
          CountTokens contents).

(** The updater of the first non-empty chunk. *)
Definition appendAssistant (agentRole chunkText : string)
           (prev : gmap string (list Message)) : gmap string (list Message) :=
  <[agentRole := (historyOf prev agentRole
                  ++ [ {| role := assistant; content := chunkText;
                          agentId := Some agentRole |} ])%list]> prev.

(** The updater of every later chunk; [None] is the [TypeError] of reading
    [content] of the last message of an empty log. *)
Definition extendLast (agentRole chunkText : string)
           (prev : gmap string (list Message)) : option (gmap string (list Message)) :=
  let agentHistory := historyOf prev agentRole in
  match last agentHistory with
  | Some lastMessage =>
      let updatedMessage :=
        {| role := role lastMessage;
           content := content lastMessage +:+ chunkText;
           agentId := agentId lastMessage |} in
      Some (<[agentRole := (take (List.length agentHistory - 1) agentHistory
                            ++ [updatedMessage])%list]> prev)
  | None => None
  end.

(** The body of the [for await] loop for one chunk. *)
Definition onChunk (chunk : option string) (s : Send) (st : AppState)
  : option (Send * AppState) :=
  match chunk with
  | Some chunkText =>
      if JsString.truthy chunkText then
        let s' := mkSend (send_agent s) (inputContents s) (systemPrompt s) (phase s)
                         false (fullResponse s +:+ chunkText) in
        if firstChunk s then
          Some (s', set_chatHistories
                      (appendAssistant (send_agent s) chunkText (chatHistories st)) st)
        else
          match extendLast (send_agent s) chunkText (chatHistories st) with
          | Some h => Some (s', set_chatHistories h st)
          | None => None
          end
      else Some (s, st)
  | None => Some (s, st)
  end.

(** The [catch] block. *)
Definition onError (s : Send) (st : AppState) : AppState :=
  set_chatHistories
    (<[send_agent s := (historyOf (chatHistories st) (send_agent s)
                        ++ [errorMessage (send_agent s)])%list]> (chatHistories st)) st.

(** The [finally] block. *)
Definition onFinally (st : AppState) : AppState :=
  set_isStreaming false (set_isLoading false st).

(** A suspended call resumed with the client's reply: the call and the
    state at its next suspension, and the requests issued on the way.
    [None]: the reply is not one the call awaits, or an updater raised. *)
Definition resume (r : Reply) (s : Send) (st : AppState)
  : option (Send * AppState * list Request) :=
  match phase s, r with
  | Finished, _ => None
  | _, Rejected => Some (set_phase Finished s, onFinally (onError s st), [])
  | AwaitInputTokens, TokensCounted inputTokens =>
      Some (set_phase AwaitStream s,
            set_tokenCount (tokenCount st + inputTokens) st,
            [GenerateContentStream (inputContents s) (systemPrompt s)])
  | AwaitStream, StreamOpened =>
      Some (set_phase Streaming s, set_isStreaming true (set_isLoading false st), [])
  | Streaming, Chunk chunk =>
      match onChunk chunk s st with
      | Some (s', st') => Some (s', st', [])
      | None => None
      end
  | Streaming, StreamDone =>
      Some (set_phase AwaitOutputTokens s,
            set_isStreaming false st,
            [CountTokens [ {| content_role := "model";
                              parts := [TextPart (fullResponse s)] |} ]])
  | AwaitOutputTokens, TokensCounted outputTokens =>
      Some (set_phase Finished s,
            onFinally (set_tokenCount (tokenCount st + outputTokens) st), [])
  | _, _ => None
  end.

(** *** The event loop *)

(** The component with the calls of [handleSendMessage] that have been
    started ([sends], in the order they started, finished ones included)
    and every request made to the completion client. *)
Record World : Type := mkWorld {
  app : AppState;
  sends : list Send;
  requests : list Request
}.

Inductive Event : Type :=
| Submit (now : Z)                 (* the form is submitted *)
| SelectAgent (agentRole : string) (* [setSelectedAgent] *)
| TypeInput (text : string)        (* [setInput] *)
| Deliver (i : nat) (r : Reply).   (* the client answers the i-th call *)

Definition step (w : World) (e : Event) : option World :=
  match e with
  | Submit now =>
      match handleSendMessage_start now (app w) with
      | Some (st', s, req) =>
          Some {| app := st'; sends := (sends w ++ [s])%list;
                  requests := (requests w ++ [req])%list |}
      | None => Some w
      end
  | SelectAgent a =>
      Some {| app := set_selectedAgent a (app w); sends := sends w;
              requests := requests w |}
  | TypeInput text =>
      Some {| app := set_input text (app w); sends := sends w;
              requests := requests w |}
  | Deliver i r =>
      match sends w !! i with
      | Some s =>
          match resume r s (app w) with
          | Some (s', st', reqs) =>
              Some {| app := st'; sends := <[i := s']> (sends w);
                      requests := (requests w ++ reqs)%list |}
          | None => None
          end
      | None => None
      end
  end.

Fixpoint run (w : World) (events : list Event) : option World :=
  match events with
  | [] => Some w
  | e :: rest =>
      match step w e with
      | Some w' => run w' rest
      | None => None
      end
  end.

(** ** handleFileChange *)

Definition MAX_FILES : Z := 5.
Definition MAX_FILE_SIZE_MB : Z := 10.
Definition MAX_FILE_SIZE_BYTES : Z := MAX_FILE_SIZE_MB * 1024 * 1024.

(** A selected file with the outcome of [readAsDataURL]: the data URL on
    [onload], [None] on [onerror]. *)
Record File : Type := mkFile {
  f_name : string;
  f_type : string;
  f_size : Z;
  f_result : option string
}.

Definition tooManyFiles : string :=
  "You can upload a maximum of " +:+ pretty MAX_FILES +:+ " files.".

Definition tooLarge (f : File) : string :=
  "File " +:+ String JsString.dquote (f_name f) +:+ String JsString.dquote " exceeds the "
  +:+ pretty MAX_FILE_SIZE_MB +:+ "MB size limit.".

Definition unreadable (f : File) : string :=
  "Error reading file " +:+ String JsString.dquote (f_name f)
  +:+ String JsString.dquote ".".

(** [result.substring(result.indexOf(',') + 1)] *)
Definition base64Of (result : string) : string :=
  match JsString.indexOf "," result with
  | Some i => JsString.substring_from (S i) result
  | None => result
  end.

(** What the promise of [processFile] resolves to. *)
Definition processFile (f : File) : option UploadedFileState :=
  if f_size f >? MAX_FILE_SIZE_BYTES then None
  else match f_result f with
       | Some result =>
           Some {| file := {| file_name := f_name f;
                              mimeType := if JsString.truthy (f_type f) then f_type f
                                          else "application/octet-stream";
                              data := base64Of result |};
                   status := uploading;
                   progress := 0 |}
       | None => None
       end.

(** The error messages [processFile] sets: those of the size test while
    the files are mapped, those of the readers afterwards. *)
Definition sizeErrors (files : list File) : list string :=
  map tooLarge (List.filter (fun f => f_size f >? MAX_FILE_SIZE_BYTES) files).

Definition readErrors (files : list File) : list string :=
  map unreadable
      (List.filter (fun f => negb (f_size f >? MAX_FILE_SIZE_BYTES)
                             && match f_result f with None => true | Some _ => false end)
                   files).

(** [handleFileChange] from its entry to the [await] on the file readers;
    [files] is [e.target.files]. The count test reads the [uploadedFiles]
    the handler was rendered with. The result is the state after the
    synchronous updates and, when the handler goes on, the batch whose
    readers it awaits. *)
Definition handleFileChange_start (files : option (list File)) (st : AppState)
  : AppState * option (list File) :=
  match files with
  | None => (st, None)
  | Some filesToUpload =>
      let st1 := set_fileError None st in
      if Z.of_nat (List.length (uploadedFiles st)) + Z.of_nat (List.length filesToUpload)
         >? MAX_FILES
      then (set_fileError (Some tooManyFiles) st1, None)
      else
        (match last (sizeErrors filesToUpload) with
         | Some e => set_fileError (Some e) st1
         | None => st1
         end,
         Some filesToUpload)
  end.

(** What follows the [await], up to the start of the progress timers: the
    readers that failed have set their errors, and the updater
    [prev => [...prev, ...newFiles]] appends the files that were read to
    the list as it stands by then. *)
Definition handleFileChange_resume (filesToUpload : list File) (st : AppState) : AppState :=
  let st1 := match last (readErrors filesToUpload) with
             | Some e => set_fileError (Some e) st
             | None => st
             end in
  set_uploadedFiles (uploadedFiles st1 ++ omap processFile filesToUpload)%list st1.

(** A call of [handleFileChange] during whose [await] nothing else updates
    the state. *)
Definition handleFileChange (files : option (list File)) (st : AppState) : AppState :=
  match handleFileChange_start files st with
  | (st1, Some filesToUpload) => handleFileChange_resume filesToUpload st1
  | (st1, None) => st1
  end.

End App.

(** ** Definitions used to state the properties *)

Definition sample_good_record : string :=
  MiniJSON.stringify
    (conversationData "ada@example.com" "METHODS_SPECIALIST"
                      [mkMessage user "hello" None] "2025-01-01T00:00:00.000Z").

Definition keysToRemove (u : string) (ls : LocalStorage.t) : list string :=
  List.filter (fun k => isUserKey u (Some k)) (LocalStorage.keys ls).

(** [getItem] on a window that may lack its storage. *)
Definition getItemOf (w : option LocalStorage.t) (k : string) : option string :=
  match w with Some ls => LocalStorage.getItem ls k | None => None end.

(** A table of specialists to run the handlers on: each specialist is
    named by its identifier. *)
Definition roles_by_id (agentRole : string) : Agent :=
  {| agent_name := agentRole; agent_systemPrompt := "You are " +:+ agentRole |}.

Definition world_hello : World :=
  {| app := set_input "hello" initialState; sends := []; requests := [] |}.

(** The world a list of events leads to from [world_hello]. *)
Definition world_after (events : list Event) : World :=
  default world_hello (run roles_by_id world_hello events).

(** Events of one send and of the specialist roster: replies to the call
    at index [idx], selections of a specialist, typing. *)
Definition concerns (idx : nat) (e : Event) : Prop :=
  match e with
  | Deliver i _ => i = idx
  | SelectAgent _ | TypeInput _ => True
  | Submit _ => False
  end.

(** The text of an increment; an undefined text adds nothing. *)
Definition textOf (chunk : option string) : string := default EmptyString chunk.

(** The increments of a stream joined in order. *)
Fixpoint concatTexts (texts : list (option string)) : string :=
  match texts with
  | [] => EmptyString
  | t :: rest => textOf t +:+ concatTexts rest
  end.

(** The [for await] loop over a whole list of chunks. *)
Fixpoint onChunks (texts : list (option string)) (s : Send) (st : AppState)
  : option (Send * AppState) :=
  match texts with
  | [] => Some (s, st)
  | t :: rest =>
      match onChunk t s st with
      | Some (s', st') => onChunks rest s' st'
      | None => None
      end
  end.

Definition chunkEvents (idx : nat) (texts : list (option string)) : list Event :=
  map (fun t => Deliver idx (Chunk t)) texts.

Definition extendContent (m : Message) (t : string) : Message :=
  {| role := role m; content := content m +:+ t; agentId := agentId m |}.

Definition withResponse (s : Send) (response : string) : Send :=
  mkSend (send_agent s) (inputContents s) (systemPrompt s) (phase s) false response.

(** The texts of the increments a list of events delivers to the call at
    index [idx], in their order. *)
Fixpoint chunksOf (idx : nat) (events : list Event) : list (option string) :=
  match events with
  | [] => []
  | Deliver i (Chunk t) :: rest =>
      if Nat.eqb i idx then t :: chunksOf idx rest else chunksOf idx rest
  | _ :: rest => chunksOf idx rest
  end.

(** An event that leaves the log of [A] to the call at index [idx] while
    that call consumes its stream: an increment of that call, a selection,
    typing, a submit that is refused or made while another specialist is
    selected, a reply to a call of another specialist. *)
Definition leaves_log_to (A : string) (idx : nat) (w : World) (e : Event) : Prop :=
  match e with
  | Submit _ => submitRejected (app w) = true \/ selectedAgent (app w) <> A
  | SelectAgent _ | TypeInput _ => True
  | Deliver i r =>
      if Nat.eqb i idx then exists t, r = Chunk t
      else send_agent <$> sends w !! i <> Some A
  end.

(** A run in which every event leaves the log of [A] to the call at
    [idx], and every event other than an increment of that call is one
    the component handles. *)
Fixpoint undisturbed (roles : string -> Agent) (A : string) (idx : nat) (w : World)
         (events : list Event) : Prop :=
  match events with
  | [] => True
  | e :: rest =>
      leaves_log_to A idx w e
      /\ match step roles w e with
         | Some w' => undisturbed roles A idx w' rest
         | None => exists t, e = Deliver idx (Chunk t)
         end
  end.

(** The call [s] at index [idx] is consuming its stream into the log of
    [A], which held [base] when the stream opened: before the first
    non-empty increment the log is [base]; after it, [base] followed by
    the assistant message that holds what the call has assembled. *)
Definition streams_into (A : string) (idx : nat) (base : list Message) (w : World)
           (s : Send) : Prop :=
  sends w !! idx = Some s
  /\ phase s = Streaming
  /\ send_agent s = A
  /\ if firstChunk s
     then fullResponse s = EmptyString
          /\ historyOf (chatHistories (app w)) A = base
     else historyOf (chatHistories (app w)) A
          = base ++ [ {| role := assistant; content := fullResponse s;
                         agentId := Some A |} ].

(** Some increment of the list is a non-empty text. *)
Definition someText (texts : list (option string)) : Prop :=
  exists t, In (Some t) texts /\ t <> EmptyString.

Definition sample_attachment (n : string) : UploadedFileState :=
  {| file := {| file_name := n; mimeType := "text/plain"; data := "QUJD" |};
     status := ready; progress := 100 |}.

Definition four_attached : AppState :=
  set_uploadedFiles [sample_attachment "a.txt"; sample_attachment "b.txt";
                     sample_attachment "c.txt"; sample_attachment "d.txt"] initialState.

(** [s] holds the character [c]. *)
Fixpoint contains (c : ascii) (s : string) : bool :=
  match s with
  | EmptyString => false
  | String a s' => Ascii.eqb a c || contains c s'
  end.

(** ** Further definitions: the store *)

(** An identifier with an [@] and no underscore after its first [@]. *)
Fixpoint emailShaped (s : string) : bool :=
  match s with
  | EmptyString => false
  | String a s' => if Ascii.eqb a "@" then negb (contains "_" s') else emailShaped s'
  end.

(** One call of [saveConversationToLocal] by a user: the specialist, the
    messages and the time of the call. *)
Record SaveCall : Type := mkSaveCall {
  save_role : string;
  save_messages : list Message;
  save_time : string
}.

(** The calls made one after the other. *)
Definition apply_saves (stringify : JSON -> string) (u : string) (calls : list SaveCall)
           (w : option LocalStorage.t) : option LocalStorage.t :=
  fold_left (fun w' c =>
               saveConversationToLocal stringify u (save_role c) (save_messages c)
                                       (save_time c) w')
            calls w.

(** The messages of the last call for a specialist, if any. *)
Fixpoint last_saved (r : string) (calls : list SaveCall) : option (list Message) :=
  match calls with
  | [] => None
  | c :: rest =>
      match last_saved r rest with
      | Some m => Some m
      | None => if String.eqb (save_role c) r then Some (save_messages c) else None
      end
  end.

(** The body of the loop of [getAllUserConversations] on an entry, and the
    loop over a list of entries. *)
Definition getAll_entry (parse : string -> option JSON) (u : string)
           (entry : string * string) (conversations : gmap string JSON)
  : Completion (gmap string JSON) :=
  if JsString.truthy (fst entry)
     && JsString.startsWith (fst entry) (conversationKeyPrefix u)
  then
    if JsString.truthy (snd entry) then
      match parse (snd entry) with
      | Some d =>
          match Json.messages_or_empty d with
          | Some msgs =>
              Normal (<[JsString.propertyKey
                          (JsString.pop (JsString.split "_" (fst entry))) := msgs]>
                        conversations)
          | None => Thrown conversations
          end
      | None => Thrown conversations
      end
    else Normal conversations
  else Normal conversations.

Fixpoint getAll_entries (parse : string -> option JSON) (u : string)
         (entries : list (string * string)) (conversations : gmap string JSON)
  : Completion (gmap string JSON) :=
  match entries with
  | [] => Normal conversations
  | e :: rest =>
      match getAll_entry parse u e conversations with
      | Normal c => getAll_entries parse u rest c
      | Thrown c => Thrown c
      end
  end.

(** An entry that, if it is under the conversation prefix of [u], was
    written by a save of [u] for a specialist without underscore and
    reads back. *)
Definition loadable (parse : string -> option JSON) (u : string)
           (entry : string * string) : Prop :=
  JsString.startsWith (fst entry) (conversationKeyPrefix u) = true ->
  exists r d msgs,
    fst entry = conversationKey u r
    /\ contains "_" r = false
    /\ JsString.truthy (snd entry) = true
    /\ parse (snd entry) = Some d
    /\ Json.messages_or_empty d = Some msgs.

(** No entry of the storage is under the conversation prefix of [u]. *)
Definition fresh_for (u : string) (ls : LocalStorage.t) : Prop :=
  Forall (fun k => JsString.startsWith k (conversationKeyPrefix u) = false)
         (LocalStorage.keys ls).

(** The record of every call reads back as it was written. *)
Definition codec_ok (parse : string -> option JSON) (stringify : JSON -> string)
           (u : string) (calls : list SaveCall) : Prop :=
  Forall (fun c =>
            let d := conversationData u (save_role c) (save_messages c) (save_time c) in
            stringify d <> EmptyString /\ parse (stringify d) = Some d)
         calls.

(** Three saves of one user, the third replacing the first. *)
Definition sample_calls : list SaveCall :=
  [ {| save_role := "METHODS_SPECIALIST";
       save_messages := [mkMessage user "hello" None];
       save_time := "2025-01-01T00:00:00.000Z" |};
    {| save_role := "DISCIPLINE_HEAD";
       save_messages := [mkMessage user "plan" None];
       save_time := "2025-01-01T00:00:01.000Z" |};
    {| save_role := "METHODS_SPECIALIST";
       save_messages := [mkMessage user "hello" None;
                         mkMessage assistant "Hi there" (Some "METHODS_SPECIALIST")];
       save_time := "2025-01-01T00:00:02.000Z" |} ].

(** Saves for specialists whose identifiers hold no underscore. *)
Definition plain_calls : list SaveCall :=
  [ {| save_role := "planner";
       save_messages := [mkMessage user "hello" None];
       save_time := "2025-01-01T00:00:00.000Z" |};
    {| save_role := "auditor";
       save_messages := [mkMessage user "plan" None];
       save_time := "2025-01-01T00:00:01.000Z" |};
    {| save_role := "planner";
       save_messages := [mkMessage user "hello" None;
                         mkMessage assistant "Hi there" (Some "planner")];
       save_time := "2025-01-01T00:00:02.000Z" |} ].

(** The data-source flags as the session snapshot stores them. *)
Definition sample_rag : JSON :=
  JObj [("standards", JBool true); ("internal", JBool true);
        ("sensors", JBool false); ("workorders", JBool false)].

(** A storage with a conversation record and a session snapshot of each of
    two users. *)
Definition two_users_store : LocalStorage.t :=
  [(conversationKey "bob@corp.com" "planner", sample_good_record);
   (sessionKey "bob@corp.com", "{}");
   (conversationKey "bob_k@corp.com" "planner", sample_good_record);
   (sessionKey "bob_k@corp.com", "{}")].

(** ** The authentication provider (class OAuth2GoogleAuth) *)

(** The user the provider holds: the fields every user has and the
    optional [refresh_token]. *)
Record AuthUser : Type := mkAuthUser {
  profile : GoogleUser;
  refresh_token : option string
}.

(** The requests the provider makes with [fetch]. *)
Inductive FetchRequest : Type :=
| TokenExchange (url code redirect_uri client_id code_verifier : string)
| UserInfoRequest (authorization : string)
| RevokeRequest (body : string).

(** What a [fetch] comes back with: a rejection, a response that is not
    [ok], or the body of an [ok] response. *)
Inductive Response (A : Type) : Type :=
| Unreachable
| NotOk (statusText : string)
| Ok (body : A).
Arguments Unreachable {A}.
Arguments NotOk {A} statusText.
Arguments Ok {A} body.

(** The fields read from the token response and from the user info. *)
Record TokenData : Type := mkTokenData {
  td_access_token : string;
  td_refresh_token : option string
}.

Record UserInfo : Type := mkUserInfo {
  ui_id : string;
  ui_email : string;
  ui_name : string;
  ui_picture : string
}.

(** The provider with what it acts on: its user, its listeners (each
    callback stands as a number), [sessionStorage], and the record of the
    listener calls, alerts and requests it has made, oldest first. *)
Record Auth : Type := mkAuth {
  auth_user : option AuthUser;
  listeners : list nat;
  sessionStorage : LocalStorage.t;
  listener_calls : list (nat * option AuthUser);
  alerts : list string;
  fetches : list FetchRequest
}.

Definition authFailed : string :=
  "Authentication failed. Please try again or use guest mode.".

(** [this.showError(message)] *)
Definition showError (message : string) (a : Auth) : Auth :=
  mkAuth (auth_user a) (listeners a) (sessionStorage a) (listener_calls a)
         (alerts a ++ [message]) (fetches a).

(** [fetch(...)] *)
Definition fetch (req : FetchRequest) (a : Auth) : Auth :=
  mkAuth (auth_user a) (listeners a) (sessionStorage a) (listener_calls a)
         (alerts a) (fetches a ++ [req]).

(** [this.listeners.forEach(listener => listener(this.user))] *)
Definition notifyListeners (a : Auth) : Auth :=
  mkAuth (auth_user a) (listeners a) (sessionStorage a)
         (listener_calls a ++ map (fun l => (l, auth_user a)) (listeners a))
         (alerts a) (fetches a).

Definition set_auth_user (u : option AuthUser) (a : Auth) : Auth :=
  mkAuth u (listeners a) (sessionStorage a) (listener_calls a) (alerts a) (fetches a).

Definition set_sessionStorage (ss : LocalStorage.t) (a : Auth) : Auth :=
  mkAuth (auth_user a) (listeners a) ss (listener_calls a) (alerts a) (fetches a).

Definition set_listeners (l : list nat) (a : Auth) : Auth :=
  mkAuth (auth_user a) l (sessionStorage a) (listener_calls a) (alerts a) (fetches a).

(** [arr.splice(arr.indexOf(x), 1)] when [x] occurs: its first occurrence
    is removed. *)
Fixpoint remove_first (x : nat) (l : list nat) : list nat :=
  match l with
  | [] => []
  | y :: rest => if Nat.eqb y x then rest else y :: remove_first x rest
  end.

(** [onAuthStateChanged(callback)] and the function it returns. *)
Definition onAuthStateChanged (callback : nat) (a : Auth) : Auth :=
  set_listeners (listeners a ++ [callback]) a.

Definition unsubscribe (callback : nat) (a : Auth) : Auth :=
  set_listeners (remove_first callback (listeners a)) a.

Definition getCurrentUser (a : Auth) : option AuthUser := auth_user a.

Definition getAuthHeader (a : Auth) : option string :=
  (fun u => "Bearer " +:+ access_token (profile u)) <$> auth_user a.

Definition isAuthenticated (a : Auth) : bool :=
  match auth_user a with Some _ => true | None => false end.

(** The characters [generateRandomString] draws from. *)
Definition charset : string :=
  "ABCDEFGHIJKLMNOPQRSTUVWXYZabcdefghijklmnopqrstuvwxyz0123456789-._~".

(** [s.charAt(i)] *)
Definition charAt (i : nat) (s : string) : string :=
  match String.get i s with
  | Some c => String c EmptyString
  | None => EmptyString
  end.

(** [generateRandomString(length)]; [draw i] is the value of
    [Math.floor(Math.random() * charset.length)] at the round [i]. *)
Fixpoint randomLoop (draw : nat -> nat) (n i : nat) (result : string) : string :=
  match n with
  | O => result
  | S n' => randomLoop draw n' (S i) (result +:+ charAt (draw i) charset)
  end.

Definition generateRandomString (draw : nat -> nat) (length : nat) : string :=
  randomLoop draw length 0 EmptyString.

(** [s.replace(/c/g, d)] for a character [c] and a string [d]. *)
Fixpoint replaceAll (c : ascii) (d : string) (s : string) : string :=
  match s with
  | EmptyString => EmptyString
  | String a s' => (if Ascii.eqb a c then d else String a EmptyString) +:+ replaceAll c d s'
  end.

(** What [generatePKCEChallenge] makes of the [btoa] text of the hash. *)
Definition base64url (b64 : string) : string :=
  replaceAll "=" EmptyString (replaceAll "/" "_" (replaceAll "+" "-" b64)).

Definition set_listener_calls (calls : list (nat * option AuthUser)) (a : Auth) : Auth :=
  mkAuth (auth_user a) (listeners a) (sessionStorage a) calls (alerts a) (fetches a).

(** Which of the platform calls made after the user is set throw:
    [sessionStorage.setItem] for a key, [history.replaceState], and each
    listener when it is called. *)
Record Faults : Type := mkFaults {
  setItem_throws : string -> bool;
  replaceState_throws : bool;
  listener_throws : nat -> bool
}.

(** No platform call throws. *)
Definition noFaults : Faults :=
  {| setItem_throws := fun _ => false;
     replaceState_throws := false;
     listener_throws := fun _ => false |}.

(** [this.listeners.forEach(listener => listener(user))] where a listener
    may throw: the calls made, the throwing one included. *)
Fixpoint callListeners (throws : nat -> bool) (u : option AuthUser) (ls : list nat)
         (calls : list (nat * option AuthUser))
  : Completion (list (nat * option AuthUser)) :=
  match ls with
  | [] => Normal calls
  | l :: rest =>
      if throws l then Thrown (calls ++ [(l, u)])
      else callListeners throws u rest (calls ++ [(l, u)])
  end.

(** The two [sessionStorage.setItem] calls that store the tokens. *)
Definition storeTokens (p : Faults) (tokenData : TokenData) (ss : LocalStorage.t)
  : Completion LocalStorage.t :=
  if setItem_throws p "access_token" then Thrown ss
  else
    let ss1 := LocalStorage.setItem ss "access_token" (td_access_token tokenData) in
    match td_refresh_token tokenData with
    | Some rt =>
        if JsString.truthy rt then
          if setItem_throws p "refresh_token" then Thrown ss1
          else Normal (LocalStorage.setItem ss1 "refresh_token" rt)
        else Normal ss1
    | None => Normal ss1
    end.

Section AuthProvider.

(** The configuration the constructor reads, and the platform's upper-casing. *)
Variable clientId : string.
Variable redirectUri : string.
Variable apiBaseUrl : string.
Variable toUpperCase : string -> string.

(** [signInAsGuest(customName)] on the provider. *)
Definition signInAsGuest_on (customName : option string) (now1 now2 : Z) (a : Auth) : Auth :=
  notifyListeners
    (set_auth_user
       (Some {| profile := signInAsGuest toUpperCase customName now1 now2;
                refresh_token := None |}) a).

(** [exchangeCodeForTokens(code, state)], given what the two requests come
    back with and which platform calls throw. Everything runs inside one
    [try]: a throw before the user is set, and a throw after it (while the
    tokens are stored, the URL is cleaned or the listeners are called),
    both reach the [catch], which shows the alert. *)
Definition exchangeCodeForTokens (p : Faults) (code state : string)
           (tokenResponse : Response TokenData)
           (userInfoResponse : Response UserInfo) (a : Auth) : Auth :=
  match LocalStorage.getItem (sessionStorage a) "oauth_state" with
  | Some storedState =>
      if String.eqb state storedState then
        match LocalStorage.getItem (sessionStorage a) "code_verifier" with
        | Some codeVerifier =>
            if JsString.truthy codeVerifier then
              let a1 := fetch (TokenExchange (apiBaseUrl +:+ "/api/auth/token") code
                                             redirectUri clientId codeVerifier) a in
              match tokenResponse with
              | Ok tokenData =>
                  let a2 := fetch (UserInfoRequest
                                     ("Bearer " +:+ td_access_token tokenData)) a1 in
                  match userInfoResponse with
                  | Ok userInfo =>
                      let a3 :=
                        set_auth_user
                          (Some {| profile :=
                                     {| id := ui_id userInfo;
                                        email := ui_email userInfo;
                                        name := ui_name userInfo;
                                        picture := ui_picture userInfo;
                                        access_token := td_access_token tokenData |};
                                   refresh_token := td_refresh_token tokenData |}) a2 in
                      match storeTokens p tokenData (sessionStorage a3) with
                      | Thrown ss => showError authFailed (set_sessionStorage ss a3)
                      | Normal ss =>
                          let a4 := set_sessionStorage ss a3 in
                          if replaceState_throws p then showError authFailed a4
                          else
                            match callListeners (listener_throws p) (auth_user a4)
                                                (listeners a4) (listener_calls a4) with
                            | Normal calls => set_listener_calls calls a4
                            | Thrown calls =>
                                showError authFailed (set_listener_calls calls a4)
                            end
                      end
                  | _ => showError authFailed a2
                  end
              | _ => showError authFailed a1
              end
            else showError authFailed a
        | None => showError authFailed a
        end
      else showError authFailed a
  | None => showError authFailed a
  end.

(** [handleOAuthCallback()], given the three parameters of the URL. *)
Definition handleOAuthCallback (p : Faults) (code state error : option string)
           (tokenResponse : Response TokenData) (userInfoResponse : Response UserInfo)
           (a : Auth) : Auth :=
  match error with
  | Some e =>
      if JsString.truthy e then showError authFailed a
      else match code, state with
           | Some c, Some s =>
               if JsString.truthy c && JsString.truthy s
               then exchangeCodeForTokens p c s tokenResponse userInfoResponse a
               else a
           | _, _ => a
           end
  | None =>
      match code, state with
      | Some c, Some s =>
          if JsString.truthy c && JsString.truthy s
          then exchangeCodeForTokens p c s tokenResponse userInfoResponse a
          else a
      | _, _ => a
      end
  end.

(** [signOut()]: the revocation request is made when an access token is
    stored, and its failure is caught. *)
Definition signOut (a : Auth) : Auth :=
  let a1 := match LocalStorage.getItem (sessionStorage a) "access_token" with
            | Some accessToken =>
                if JsString.truthy accessToken
                then fetch (RevokeRequest ("token=" +:+ accessToken)) a
                else a
            | None => a
            end in
  let ss := fold_left LocalStorage.removeItem
                      ["access_token"; "refresh_token"; "code_verifier"; "oauth_state"]
                      (sessionStorage a1) in
  notifyListeners (set_auth_user None (set_sessionStorage ss a1)).

End AuthProvider.

(** ** The login screen: handleGuestSignIn *)

Record LoginState : Type := mkLoginState {
  login_isLoading : bool;
  login_error : option string;
  showGuestForm : bool;
  guestName : string
}.

(** How a call ends: it returns, or it throws a value whose [message]
    property is a text or is undefined. *)
Inductive CallOutcome : Type :=
| Returned
| Threw (message : option string).

(** [`Guest sign-in failed: ${err.message}`] *)
Definition guestSignInFailed (message : option string) : string :=
  "Guest sign-in failed: " +:+ default "undefined" message.

(** The state after the handler and, when it calls [auth.signInAsGuest],
    the name it passes; [signIn] tells how that call ends. *)
Definition handleGuestSignIn (signIn : string -> CallOutcome) (st : LoginState)
  : LoginState * option string :=
  if negb (showGuestForm st) then
    (mkLoginState (login_isLoading st) (login_error st) true (guestName st), None)
  else if negb (JsString.truthy (JsString.trim (guestName st))) then
    (mkLoginState (login_isLoading st) (Some "Please enter your name")
                  (showGuestForm st) (guestName st), None)
  else
    let st1 := mkLoginState true None (showGuestForm st) (guestName st) in
    match signIn (JsString.trim (guestName st)) with
    | Returned =>
        (mkLoginState false (login_error st1) (showGuestForm st1) (guestName st1),
         Some (JsString.trim (guestName st)))
    | Threw message =>
        (mkLoginState false (Some (guestSignInFailed message))
                      (showGuestForm st1) (guestName st1),
         Some (JsString.trim (guestName st)))
    end.

(** The keys [signOut] removes from [sessionStorage]. *)
Definition isTokenKey (k : string) : bool :=
  existsb (fun k' => String.eqb k' k)
          ["access_token"; "refresh_token"; "code_verifier"; "oauth_state"].


(** The first listener throws; nothing else does. *)
Definition first_listener_throws : Faults :=
  {| setItem_throws := fun _ => false;
     replaceState_throws := false;
     listener_throws := fun l => Nat.eqb l 1 |}.

(** A provider about to receive the callback of a sign-in it started. *)
Definition auth_awaiting_callback : Auth :=
  {| auth_user := None;
     listeners := [1%nat; 2%nat];
     sessionStorage := [("code_verifier", "verifier-abc"); ("oauth_state", "state-xyz");
                        ("theme", "dark")];
     listener_calls := [];
     alerts := [];
     fetches := [] |}.

Definition sample_tokens : TokenData :=
  {| td_access_token := "ya29.token"; td_refresh_token := Some "1//refresh" |}.

Definition sample_userinfo : UserInfo :=
  {| ui_id := "1001"; ui_email := "ada@example.com"; ui_name := "Ada";
     ui_picture := "https://example.com/ada.png" |}.

(** Every character of [s] is one of [cs]. *)
Fixpoint all_from (cs s : string) : bool :=
  match s with
  | EmptyString => true
  | String a s' => contains a cs && all_from cs s'
  end.

(** A draw that walks through the character set. *)
Definition walking_draw (i : nat) : nat := Nat.modulo (7 * i) 66.

(** The name form filled in, with a no-break space (U+00A0) and blanks
    around the name. *)
Definition login_with_name : LoginState :=
  {| login_isLoading := false; login_error := Some "Please enter your name";
     showGuestForm := true;
     guestName := String (ascii_of_nat 194) (String (ascii_of_nat 160) " Ada Lovelace ") |}.

(** A name of white space only: a no-break space and a blank. *)
Definition login_with_blank_name : LoginState :=
  {| login_isLoading := false; login_error := None; showGuestForm := true;
     guestName := String (ascii_of_nat 194) (String (ascii_of_nat 160) " ") |}.

(** ** Further definitions: the send state machine *)

(** A log that keeps every message at its place, with its role and
    specialist; the content of a message may only be extended. *)
Definition grows (h h' : list Message) : Prop :=
  forall i m,
    h !! i = Some m ->
    exists m', h' !! i = Some m'
               /\ role m' = role m
               /\ agentId m' = agentId m
               /\ String.prefix (content m) (content m') = true.

(** An event that does not deliver a negative token estimate. *)
Definition estimate_nonneg (e : Event) : Prop :=
  match e with
  | Deliver _ (TokensCounted n) => 0 <= n
  | _ => True
  end.

(** The flags of the component are backed by running sends. *)
Definition flags_backed (w : World) : Prop :=
  (isLoading (app w) = true ->
   exists i s, sends w !! i = Some s
               /\ (phase s = AwaitInputTokens \/ phase s = AwaitStream))
  /\ (isStreaming (app w) = true ->
      exists i s, sends w !! i = Some s /\ phase s = Streaming).

(** A run with two sends for one specialist, the second submitted while the
    first is streaming, in two parts. *)
Definition busy_events_1 : list Event :=
  [Submit 1; Deliver 0%nat (TokensCounted 3); Deliver 0%nat StreamOpened;
   Deliver 0%nat (Chunk (Some "Hi"))].

Definition busy_events_2 : list Event :=
  [Deliver 0%nat (Chunk (Some " there")); TypeInput "again"; Submit 2;
   SelectAgent "CORROSION_ENGINEER"; Deliver 0%nat StreamDone;
   Deliver 1%nat (TokensCounted 5); Deliver 0%nat (TokensCounted 4);
   Deliver 1%nat Rejected].

(** ** Further definitions: the attachment list *)

(** The updaters the component applies to [uploadedFiles]: the append at the
    end of [handleFileChange], the three timer callbacks of a file index,
    and the removal of the file at an index. *)
Definition appendFiles (batch : list File) (prev : list UploadedFileState)
  : list UploadedFileState :=
  prev ++ omap processFile batch.

Definition tickProgress (fileIndex : nat) (prev : list UploadedFileState)
  : list UploadedFileState :=
  imap (fun i f =>
          if Nat.eqb i fileIndex && (progress f <? 100)
          then {| file := file f; status := status f; progress := progress f + 10 |}
          else f) prev.

Definition markProcessing (fileIndex : nat) (prev : list UploadedFileState)
  : list UploadedFileState :=
  imap (fun i f =>
          if Nat.eqb i fileIndex
          then {| file := file f; status := processing; progress := 100 |}
          else f) prev.

Definition markReady (fileIndex : nat) (prev : list UploadedFileState)
  : list UploadedFileState :=
  imap (fun i f =>
          if Nat.eqb i fileIndex
          then {| file := file f; status := ready; progress := progress f |}
          else f) prev.

(** [files.filter((_, i) => i !== index)], counting from [i]. *)
Fixpoint removeAt_from (index i : nat) (files : list UploadedFileState)
  : list UploadedFileState :=
  match files with
  | [] => []
  | f :: rest =>
      if Nat.eqb i index then removeAt_from index (S i) rest
      else f :: removeAt_from index (S i) rest
  end.

Definition removeFile (index : nat) (prev : list UploadedFileState)
  : list UploadedFileState :=
  removeAt_from index 0 prev.

Inductive FileUpdate : Type :=
| AppendFiles (batch : list File)
| Tick (fileIndex : nat)
| Processing (fileIndex : nat)
| Ready (fileIndex : nat)
| Remove (index : nat).

Definition applyFileUpdate (prev : list UploadedFileState) (u : FileUpdate)
  : list UploadedFileState :=
  match u with
  | AppendFiles batch => appendFiles batch prev
  | Tick i => tickProgress i prev
  | Processing i => markProcessing i prev
  | Ready i => markReady i prev
  | Remove i => removeFile i prev
  end.

(** Progress is a multiple of ten between nought and a hundred. *)
Definition progress_ok (f : UploadedFileState) : Prop :=
  0 <= progress f <= 100 /\ progress f mod 10 = 0.

(** A file of a batch that [processFile] accepts. *)
Definition acceptable (f : File) : Prop :=
  f_size f <= MAX_FILE_SIZE_BYTES /\ is_Some (f_result f).

Definition small_file (n : string) : File :=
  {| f_name := n; f_type := "text/plain"; f_size := 3;
     f_result := Some "data:text/plain;base64,QUJD" |}.

Definition huge_file (n : string) : File :=
  {| f_name := n; f_type := "application/pdf"; f_size := 20 * 1024 * 1024;
     f_result := Some "data:application/pdf;base64,QUJD" |}.

(** An event that is no reply to the send at index [idx]. *)
Definition not_reply_to (idx : nat) (e : Event) : Prop :=
  match e with
  | Deliver i _ => i <> idx
  | _ => True
  end.

(** ** Further definitions: the data-source toggles *)

(** [prev => ({ ...prev, [sourceKey]: !prev[sourceKey] })] on the entries of
    the object: an entry is negated in place, a missing one is added as
    [true]. *)
Fixpoint toggleSource (sourceKey : string) (prev : list (string * bool))
  : list (string * bool) :=
  match prev with
  | [] => [(sourceKey, true)]
  | (k, v) :: rest =>
      if String.eqb k sourceKey then (k, negb v) :: rest
      else (k, v) :: toggleSource sourceKey rest
  end.

(** ** Further definitions: hydration and persistence of the logs *)

(** What the sign-in callback puts into the log of a specialist: the value
    found in the storage, or one welcome message. *)
Inductive Hydrated : Type :=
| FromStorage (v : JSON)
| Seeded (m : Message).

(** The updates the callback of [onAuthStateChanged] asks for: the user,
    the logs (when it sets them), the three values restored from the
    session snapshot (when it sets them), and [isAuthLoading]. *)
Record HydrateResult : Type := mkHydrateResult {
  h_user : option GoogleUser;
  h_histories : option (list (string * Hydrated));
  h_selectedAgent : option JSON;
  h_ragSources : option JSON;
  h_uploadedFiles : option JSON;
  h_isAuthLoading : bool
}.

(** A property of a parsed value, when it is there and truthy. *)
Definition truthyField (fieldName : string) (v : JSON) : option JSON :=
  match v with
  | JObj fields =>
      match Json.field fieldName fields with
      | Some x => if Json.truthy x then Some x else None
      | None => None
      end
  | _ => None
  end.

Section Hydration.

Variable JSON_parse : string -> option JSON.

(** The keys of [AGENT_ROLES] in their order, the welcome text of a
    specialist for a name, and the platform's [x > 0] on the [length]
    property of an object. *)
Variable ROLE_KEYS : list string.
Variable getWelcomeMessage : string -> string -> string.
Variable lengthOfObjectPositive : list (string * JSON) -> bool.

(** [v.length > 0] *)
Definition lengthPositive (v : JSON) : bool :=
  match v with
  | JArr items => (0 <? List.length items)%nat
  | JStr s => (0 <? String.length s)%nat
  | JObj fields => lengthOfObjectPositive fields
  | _ => false
  end.

(** [currentUser.name || 'there'] *)
Definition nameOrThere (u : GoogleUser) : string :=
  if JsString.truthy (name u) then name u else "there".

Definition welcome (u : GoogleUser) (key : string) : Message :=
  {| role := assistant;
     content := getWelcomeMessage key (nameOrThere u);
     agentId := Some key |}.

(** The log chosen for one specialist. The keys are those of
    [AGENT_ROLES], of type [AgentRole]; none of them names a property that
    every object inherits, so [savedConversations[key]] is a lookup among
    the properties the storage class has set. *)
Definition initialHistory (u : GoogleUser) (savedConversations : gmap string JSON)
           (key : string) : Hydrated :=
  match savedConversations !! key with
  | Some v => if Json.truthy v && lengthPositive v then FromStorage v
              else Seeded (welcome u key)
  | None => Seeded (welcome u key)
  end.

(** The callback given to [auth.onAuthStateChanged]; [historiesEmpty] is
    [Object.keys(chatHistories).length === 0]. *)
Definition onAuthChange (currentUser : option GoogleUser) (historiesEmpty : bool)
           (w : option LocalStorage.t) : HydrateResult :=
  match currentUser with
  | Some u =>
      if historiesEmpty then
        let savedConversations := getAllUserConversations JSON_parse (email u) w in
        let initialHistories :=
          map (fun key => (key, initialHistory u savedConversations key)) ROLE_KEYS in
        match loadUserSession JSON_parse (email u) w with
        | Some sessionData =>
            if Json.truthy sessionData then
              {| h_user := currentUser;
                 h_histories := Some initialHistories;
                 h_selectedAgent := truthyField "selected_agent" sessionData;
                 h_ragSources := truthyField "rag_sources" sessionData;
                 h_uploadedFiles := truthyField "uploaded_files" sessionData;
                 h_isAuthLoading := false |}
            else
              {| h_user := currentUser; h_histories := Some initialHistories;
                 h_selectedAgent := None; h_ragSources := None; h_uploadedFiles := None;
                 h_isAuthLoading := false |}
        | None =>
            {| h_user := currentUser; h_histories := Some initialHistories;
               h_selectedAgent := None; h_ragSources := None; h_uploadedFiles := None;
               h_isAuthLoading := false |}
        end
      else
        {| h_user := currentUser; h_histories := None;
           h_selectedAgent := None; h_ragSources := None; h_uploadedFiles := None;
           h_isAuthLoading := false |}
  | None =>
      {| h_user := None; h_histories := None;
         h_selectedAgent := None; h_ragSources := None; h_uploadedFiles := None;
         h_isAuthLoading := false |}
  end.

End Hydration.

(** The effect that saves the logs: for every entry of [chatHistories]
    with a non-empty log, one [saveConversationToLocal]; [calls] are the
    entries in the order of [Object.entries], each with the time of its
    save. *)
Definition persistEffect (stringify : JSON -> string) (currentUser : option GoogleUser)
           (calls : list SaveCall) (w : option LocalStorage.t) : option LocalStorage.t :=
  match currentUser with
  | Some u =>
      apply_saves stringify (email u)
                  (List.filter (fun c => (0 <? List.length (save_messages c))%nat) calls) w
  | None => w
  end.

(** The four specialists of the application. *)
Definition app_role_keys : list string :=
  ["CORROSION_ENGINEER"; "SUBSEA_ENGINEER"; "METHODS_SPECIALIST"; "DISCIPLINE_HEAD"].

Definition ada : GoogleUser :=
  {| id := "1001"; email := "ada@example.com"; name := "Ada";
     picture := "https://example.com/ada.png"; access_token := "ya29.token" |}.

(** The entries of a [chatHistories] with one empty log. *)
Definition persisted_entries : list SaveCall :=
  [ {| save_role := "METHODS_SPECIALIST";
       save_messages := [mkMessage user "hello" None;
                         mkMessage assistant "Hi there" (Some "METHODS_SPECIALIST")];
       save_time := "2025-01-01T00:00:02.000Z" |};
    {| save_role := "DISCIPLINE_HEAD";
       save_messages := [];
       save_time := "2025-01-01T00:00:03.000Z" |} ].

(** ** Further definitions: handleGenerateReport *)

(** The texts of the two messages of [handleGenerateReport], as the source
    file holds them, around the link and around the error text. *)
Definition reportSuccessHead : string :=
  "üìÑ **Report Generated Successfully!**" +:+ newline +:+ newline +:+ "Your professional report has been generated and is ready for download. The report includes:" +:+ newline +:+ newline +:+ "‚Ä¢ Executive Summary" +:+ newline +:+ "‚Ä¢ Detailed Analysis" +:+ newline +:+ "‚Ä¢ Risk Assessment" +:+ newline +:+ "‚Ä¢ Recommendations" +:+ newline +:+ "‚Ä¢ Technical Specifications" +:+ newline +:+ newline +:+ "[View Report](".

Definition reportSuccessTail : string := ")".

Definition reportFailedHead : string :=
  "‚ùå **Report Generation Failed**" +:+ newline +:+ newline +:+ "Sorry, I couldn't generate the report. Error: ".

Definition reportFailedTail : string :=
  newline +:+ newline +:+ "Please try again or contact support if the issue persists.".

Record ReportUi : Type := mkReportUi {
  isGeneratingReport : bool;
  reportModalOpen : bool;
  reportRequest : string
}.

(** The form fields of the request; [specialist_type] is [None] when the
    map has no entry for the specialist. *)
Record ReportRequest : Type := mkReportRequest {
  specialist_type : option string;
  customer_request : string;
  user_email : string;
  analysis_data : string
}.

(** How the request ends: something is thrown by [fetch] or by
    [response.json()] (an [Error] with its message, or something else),
    the response is not [ok], or a body is parsed. *)
Inductive ReportOutcome : Type :=
| ReportThrown (message : option string)
| ReportNotOk (statusText : string)
| ReportAnswered (result : JSON).

(** What the handler makes of the outcome: a report to open, or an error
    with its message. *)
Inductive ReportVerdict : Type :=
| ReportOpened (url : string)
| ReportFailed (message : string).

Record ReportWorld : Type := mkReportWorld {
  r_app : AppState;
  r_ui : ReportUi;
  r_user : option GoogleUser;
  r_requests : list ReportRequest;
  r_opened : list string
}.

Definition specialistTypeMap (agentRole : string) : option string :=
  if String.eqb agentRole "CORROSION_ENGINEER" then Some "corrosion_engineer"
  else if String.eqb agentRole "SUBSEA_ENGINEER" then Some "subsea_engineer"
  else if String.eqb agentRole "METHODS_SPECIALIST" then Some "methods_specialist"
  else if String.eqb agentRole "DISCIPLINE_HEAD" then Some "discipline_head"
  else None.

Definition isAssistant (r : Role) : bool :=
  match r with assistant => true | user => false end.

(** [findings]: the contents of the assistant messages, cut by
    [slice(0, 5)]. *)
Definition findings (history : list Message) (now : string) : list string :=
  let conversationData := map (fun msg => (role msg, content msg, now)) history in
  take 5 (map (fun x => snd (fst x))
              (List.filter (fun x => isAssistant (fst (fst x))) conversationData)).

Definition analysisData (history : list Message) (files : list UploadedFileState)
           (agentName today now : string) : JSON :=
  JObj [("findings", JArr (map JStr (findings history now)));
        ("recommendations", JArr []);
        ("technical_details",
         JStr ("Conversation with " +:+ agentName +:+ " on " +:+ today));
        ("uploaded_files",
         JArr (map (fun f => JObj [("filename", JStr (file_name f));
                                   ("size", JNum (Z.of_nat (String.length (data f))));
                                   ("type", JStr (mimeType f))])
                   (map file (List.filter isReady files))))].

Section Report.

(** The table of specialists, [JSON.stringify], the text the platform
    gives an array or an object, and the message of the [TypeError] it
    raises when the named property of [null] or [undefined] is read. *)
Variable AGENT_ROLES : string -> Agent.
Variable JSON_stringify : JSON -> string.
Variable objectText : JSON -> string.
Variable typeErrorMessage : string -> string.

(** A value inside a template string or as the message of an [Error]. *)
Definition textOfValue (v : JSON) : string :=
  match v with
  | JStr s => s
  | JNum n => pretty n
  | JBool true => "true"
  | JBool false => "false"
  | JNull => "null"
  | _ => objectText v
  end.

Definition previewUrl (report_id : string) : string :=
  "http://localhost:8000/api/reports/preview/" +:+ report_id +:+ ".html".

Definition verdict (outcome : ReportOutcome) : ReportVerdict :=
  match outcome with
  | ReportThrown (Some m) => ReportFailed m
  | ReportThrown None => ReportFailed "Unknown error"
  | ReportNotOk statusText => ReportFailed ("Report generation failed: " +:+ statusText)
  | ReportAnswered JNull => ReportFailed (typeErrorMessage "status")
  | ReportAnswered (JObj fields) =>
      let failed :=
        ReportFailed
          match Json.field "message" fields with
          | Some m => if Json.truthy m then textOfValue m else "Report generation failed"
          | None => "Report generation failed"
          end in
      match Json.field "status" fields with
      | Some (JStr status) =>
          if String.eqb status "success" then
            match Json.field "report" fields with
            | Some (JObj reportFields) =>
                ReportOpened
                  (previewUrl match Json.field "report_id" reportFields with
                              | Some v => textOfValue v
                              | None => "undefined"
                              end)
            | Some JNull | None => ReportFailed (typeErrorMessage "report_id")
            | Some _ => ReportOpened (previewUrl "undefined")
            end
          else failed
      | _ => failed
      end
  | ReportAnswered _ => ReportFailed "Report generation failed"
  end.

(** The handler from its entry to the [await] of the request: [None] when
    it returns at a guard, otherwise the specialist its closure holds and
    the state with the request made. *)
Definition report_start (today now : string) (w : ReportWorld)
  : option (string * ReportWorld) :=
  match r_user w with
  | None => None
  | Some u =>
      let agentRole := selectedAgent (r_app w) in
      let currentChatHistory := historyOf (chatHistories (r_app w)) agentRole in
      match currentChatHistory with
      | [] => None
      | _ =>
          let agentName := agent_name (AGENT_ROLES agentRole) in
          let req :=
            {| specialist_type := specialistTypeMap agentRole;
               customer_request :=
                 if JsString.truthy (reportRequest (r_ui w)) then reportRequest (r_ui w)
                 else "Generate a comprehensive report based on my conversation with "
                      +:+ agentName;
               user_email := if JsString.truthy (email u) then email u
                             else "user@example.com";
               analysis_data :=
                 JSON_stringify (analysisData currentChatHistory
                                              (uploadedFiles (r_app w))
                                              agentName today now) |} in
          Some (agentRole,
                {| r_app := r_app w;
                   r_ui := mkReportUi true (reportModalOpen (r_ui w))
                                      (reportRequest (r_ui w));
                   r_user := r_user w;
                   r_requests := r_requests w ++ [req];
                   r_opened := r_opened w |})
      end
  end.

Definition reportMessage (agentRole : string) (v : ReportVerdict) : Message :=
  {| role := assistant;
     content := match v with
                | ReportOpened url => reportSuccessHead +:+ url +:+ reportSuccessTail
                | ReportFailed e => reportFailedHead +:+ e +:+ reportFailedTail
                end;
     agentId := Some agentRole |}.

(** The handler from the outcome of the request to its end. *)
Definition report_finish (agentRole : string) (outcome : ReportOutcome) (w : ReportWorld)
  : ReportWorld :=
  let v := verdict outcome in
  {| r_app :=
       set_chatHistories
         (<[agentRole := historyOf (chatHistories (r_app w)) agentRole
                         ++ [reportMessage agentRole v]]> (chatHistories (r_app w)))
         (r_app w);
     r_ui := mkReportUi false false EmptyString;
     r_user := r_user w;
     r_requests := r_requests w;
     r_opened := match v with
                 | ReportOpened url => r_opened w ++ [url]
                 | ReportFailed _ => r_opened w
                 end |}.

End Report.

(** A signed-in component in the middle of a report request. *)
Definition report_world : ReportWorld :=
  {| r_app := app (world_after (busy_events_1 ++ busy_events_2));
     r_ui := {| isGeneratingReport := true; reportModalOpen := true;
                reportRequest := "Summarise the inspection" |};
     r_user := Some ada;
     r_requests := [];
     r_opened := [] |}.

(** A signed-in component whose selected specialist has a log, before a
    report is requested. *)
Definition report_ready_world : ReportWorld :=
  {| r_app := app (world_after busy_events_1);
     r_ui := {| isGeneratingReport := false; reportModalOpen := true;
                reportRequest := EmptyString |};
     r_user := Some ada;
     r_requests := [];
     r_opened := [] |}.

(** * Properties *)

(** ** Strings *)

Lemma string_app_cons (x : ascii) (a b : string) :
  String x a +:+ b = String x (a +:+ b).
Proof. reflexivity. Qed.

Lemma string_app_nil_l (b : string) : EmptyString +:+ b = b.
Proof. reflexivity. Qed.

Lemma string_app_assoc (a b c : string) : (a +:+ b) +:+ c = a +:+ (b +:+ c).
Proof.
  induction a as [|x a IH]; [reflexivity|].
  now rewrite !string_app_cons, IH.
Qed.

Lemma prefix_app (p s : string) : String.prefix p (p +:+ s) = true.
Proof.
  induction p as [|x p IH].
  - now destruct s.
  - rewrite string_app_cons. simpl.
    destruct (ascii_dec x x) as [_|n]; [exact IH | now destruct n].
Qed.

Lemma prefix_nonempty (p s : string) :
  p <> EmptyString -> String.prefix p s = true -> JsString.truthy s = true.
Proof.
  intros Hp H. destruct s; [|reflexivity].
  destruct p; [now destruct Hp | discriminate].
Qed.

Lemma conversationKey_prefix (u r : string) :
  conversationKey u r = conversationKeyPrefix u +:+ r.
Proof.
  unfold conversationKey, conversationKeyPrefix.
  now rewrite !string_app_assoc.
Qed.

Lemma conversationKeyPrefix_nonempty (u : string) :
  conversationKeyPrefix u <> EmptyString.
Proof. discriminate. Qed.

Lemma conversationKey_startsWith (u r : string) :
  JsString.startsWith (conversationKey u r) (conversationKeyPrefix u) = true.
Proof. rewrite conversationKey_prefix. apply prefix_app. Qed.

(** ** The [for] loop *)

Lemma for_loop_ext {A} (n i : nat) (f g : nat -> A -> Completion A) (acc : A) :
  (forall j a, (i <= j < i + n)%nat -> f j a = g j a) ->
  for_loop n i f acc = for_loop n i g acc.
Proof.
  revert i acc. induction n as [|n IH]; intros i acc H; simpl; [reflexivity|].
  rewrite (H i acc) by lia.
  destruct (g i acc); [|reflexivity].
  apply IH. intros j b Hj. apply H. lia.
Qed.

Lemma for_loop_app {A} (n m i : nat) (f : nat -> A -> Completion A) (acc : A) :
  for_loop (n + m) i f acc =
  match for_loop n i f acc with
  | Normal a => for_loop m (i + n) f a
  | Thrown a => Thrown a
  end.
Proof.
  revert i acc. induction n as [|n IH]; intros i acc; simpl.
  - now rewrite Nat.add_0_r.
  - destruct (f i acc); [|reflexivity].
    rewrite IH. now replace (S i + n)%nat with (i + S n)%nat by lia.
Qed.

(** ** localStorage *)

Lemma key_app_l (pre post : LocalStorage.t) (i : nat) :
  (i < List.length pre)%nat ->
  LocalStorage.key (pre ++ post) i = LocalStorage.key pre i.
Proof. intros H. unfold LocalStorage.key. now rewrite lookup_app_l. Qed.

Lemma key_middle (pre post : LocalStorage.t) (k v : string) :
  LocalStorage.key (pre ++ (k, v) :: post) (List.length pre) = Some k.
Proof. unfold LocalStorage.key. now rewrite list_lookup_middle. Qed.

Lemma key_in_keys (ls : LocalStorage.t) (i : nat) (k : string) :
  LocalStorage.key ls i = Some k -> In k (LocalStorage.keys ls).
Proof.
  unfold LocalStorage.key, LocalStorage.keys. intros H.
  destruct (ls !! i) as [[k' v]|] eqn:E; simpl in H; [|discriminate].
  injection H as <-. apply list_elem_of_lookup_2 in E.
  apply list_elem_of_In in E. now apply (in_map fst) in E.
Qed.

Lemma getItem_app_l (pre post : LocalStorage.t) (k : string) :
  In k (LocalStorage.keys pre) ->
  LocalStorage.getItem (pre ++ post) k = LocalStorage.getItem pre k.
Proof.
  induction pre as [|[k' v] pre IH]; simpl; [tauto|].
  intros [->|H].
  - now rewrite String.eqb_refl.
  - destruct (String.eqb k' k); [reflexivity | now apply IH].
Qed.

Lemma getItem_app_r (pre post : LocalStorage.t) (k : string) :
  ~ In k (LocalStorage.keys pre) ->
  LocalStorage.getItem (pre ++ post) k = LocalStorage.getItem post k.
Proof.
  induction pre as [|[k' v] pre IH]; simpl; [reflexivity|].
  intros H. destruct (String.eqb_spec k' k) as [->|_]; [tauto|].
  apply IH. tauto.
Qed.

Lemma getItem_setItem_eq (ls : LocalStorage.t) (k v : string) :
  LocalStorage.getItem (LocalStorage.setItem ls k v) k = Some v.
Proof.
  induction ls as [|[k' v'] ls IH]; simpl.
  - now rewrite String.eqb_refl.
  - destruct (String.eqb k' k) eqn:E; simpl.
    + now rewrite String.eqb_refl.
    + now rewrite E.
Qed.

Lemma getItem_setItem_ne (ls : LocalStorage.t) (k k' v : string) :
  k <> k' ->
  LocalStorage.getItem (LocalStorage.setItem ls k v) k' = LocalStorage.getItem ls k'.
Proof.
  intros Hne. induction ls as [|[k0 v0] ls IH]; simpl.
  - destruct (String.eqb_spec k k'); [contradiction | reflexivity].
  - destruct (String.eqb_spec k0 k) as [->|]; simpl.
    + destruct (String.eqb_spec k k'); [contradiction | reflexivity].
    + now rewrite IH.
Qed.

Lemma wf_middle (pre post : LocalStorage.t) (k v : string) :
  LocalStorage.wf (pre ++ (k, v) :: post) -> ~ In k (LocalStorage.keys pre).
Proof.
  unfold LocalStorage.wf, LocalStorage.keys. rewrite map_app. simpl.
  intros H Hin. apply NoDup_app in H as (_ & H & _).
  apply (H k); [now apply list_elem_of_In | left].
Qed.

(** ** getAllUserConversations *)

Lemma getAll_body_app_l parse (u : string) (pre post : LocalStorage.t) (i : nat)
      (conv : gmap string JSON) :
  (i < List.length pre)%nat ->
  getAll_body parse u (pre ++ post) i conv = getAll_body parse u pre i conv.
Proof.
  intros Hi. unfold getAll_body. rewrite (key_app_l pre post i Hi).
  destruct (LocalStorage.key pre i) as [k|] eqn:Hk; [|reflexivity].
  now rewrite (getItem_app_l pre post k (key_in_keys pre i k Hk)).
Qed.

Lemma getAll_body_malformed parse (u : string) (pre post : LocalStorage.t)
      (k s : string) (conv : gmap string JSON) :
  LocalStorage.wf (pre ++ (k, s) :: post) ->
  JsString.startsWith k (conversationKeyPrefix u) = true ->
  s <> EmptyString ->
  parse s = None ->
  getAll_body parse u (pre ++ (k, s) :: post) (List.length pre) conv = Thrown conv.
Proof.
  intros Hwf Hk Hs Hp. unfold getAll_body.
  rewrite key_middle.
  rewrite (prefix_nonempty _ k (conversationKeyPrefix_nonempty u) Hk), Hk. simpl.
  rewrite (getItem_app_r pre _ k (wf_middle pre post k s Hwf)). simpl.
  rewrite String.eqb_refl.
  assert (JsString.truthy s = true) as ->.
  { unfold JsString.truthy. now destruct (String.eqb_spec s EmptyString). }
  now rewrite Hp.
Qed.

Lemma getAll_try_single parse (u k v : string) :
  getAll_try parse u (Some [(k, v)]) = getAll_body parse u [(k, v)] 0 ∅.
Proof.
  unfold getAll_try. cbn [LocalStorage.length List.length for_loop].
  now destruct (getAll_body parse u [(k, v)] 0 ∅).
Qed.

(** The iteration that loads a record: it is filed under the last
    underscore-separated piece of its key. *)
Lemma getAll_body_hit parse (u : string) (ls : LocalStorage.t) (i : nat) (k v : string)
      (d msgs : JSON) (conv : gmap string JSON) :
  LocalStorage.key ls i = Some k ->
  JsString.truthy k && JsString.startsWith k (conversationKeyPrefix u) = true ->
  LocalStorage.getItem ls k = Some v ->
  JsString.truthy v = true ->
  parse v = Some d ->
  Json.messages_or_empty d = Some msgs ->
  getAll_body parse u ls i conv
  = Normal (<[JsString.propertyKey (JsString.pop (JsString.split "_" k)) := msgs]> conv).
Proof.
  intros Hk Hp Hg Ht Hd Hm. unfold getAll_body.
  now rewrite Hk, Hp, Hg, Ht, Hd, Hm.
Qed.

(** C3, as the code has it: loading never throws, and a record that fails
    to parse ends the loop. The result is the mapping built from the
    records enumerated before the malformed one; whatever follows it in
    the storage is not loaded. *)
Theorem getAll_stops_at_malformed parse (u : string) (pre post : LocalStorage.t)
        (k s : string) :
  LocalStorage.wf (pre ++ (k, s) :: post) ->
  JsString.startsWith k (conversationKeyPrefix u) = true ->
  s <> EmptyString ->
  parse s = None ->
  getAllUserConversations parse u (Some (pre ++ (k, s) :: post))
  = getAllUserConversations parse u (Some pre).
Proof.
  intros Hwf Hk Hs Hp.
  unfold getAllUserConversations, getAll_try, LocalStorage.length.
  rewrite length_app. simpl List.length.
  rewrite for_loop_app.
  rewrite (for_loop_ext _ _ (getAll_body parse u (pre ++ (k, s) :: post))
                        (getAll_body parse u pre)).
  2:{ intros j a Hj. apply getAll_body_app_l. lia. }
  destruct (for_loop (List.length pre) 0 (getAll_body parse u pre) ∅) as [a|a];
    [|reflexivity].
  simpl for_loop.
  now rewrite (getAll_body_malformed parse u pre post k s a Hwf Hk Hs Hp).
Qed.

Lemma getAll_stops_at_malformed_witness :
  getAllUserConversations MiniJSON.parse "ada@example.com"
    (Some ([(conversationKey "ada@example.com" "METHODS_SPECIALIST", sample_good_record)]
           ++ (conversationKey "ada@example.com" "CORROSION_ENGINEER", "{oops")
           :: [(conversationKey "ada@example.com" "DISCIPLINE_HEAD", sample_good_record)]))
  = getAllUserConversations MiniJSON.parse "ada@example.com"
      (Some [(conversationKey "ada@example.com" "METHODS_SPECIALIST", sample_good_record)]).
Proof.
  apply (getAll_stops_at_malformed MiniJSON.parse "ada@example.com").
  - apply (bool_decide_unpack _). vm_compute. reflexivity.
  - vm_compute. reflexivity.
  - discriminate.
  - vm_compute. reflexivity.
Defined.

(** C3, as the specification states it, fails: with the malformed record
    enumerated first, the well-formed record behind it is not returned. *)
Lemma getAll_malformed_first_loads_nothing :
  let store :=
    [(conversationKey "ada@example.com" "CORROSION_ENGINEER", "{oops");
     (conversationKey "ada@example.com" "METHODS_SPECIALIST", sample_good_record)] in
  LocalStorage.wf store
  /\ MiniJSON.parse "{oops" = None
  /\ is_Some (MiniJSON.parse sample_good_record)
  /\ getAllUserConversations MiniJSON.parse "ada@example.com" (Some store) = ∅.
Proof.
  repeat split.
  - apply (bool_decide_unpack _). vm_compute. reflexivity.
  - vm_compute. eexists. reflexivity.
Qed.

(** C1 at a specialist of the application: for any [JSON.parse] and
    [JSON.stringify] that round-trip the saved record, one save into an
    empty storage is read back under the key [SPECIALIST], and the
    specialist's own key [METHODS_SPECIALIST] has no value. *)
Theorem save_then_getAll_loses_role_key parse stringify (now : string) :
  let u := "ada@example.com" in
  let r := "METHODS_SPECIALIST" in
  let msgs := [mkMessage user "hello" None] in
  let d := conversationData u r msgs now in
  let loaded := getAllUserConversations parse u
                  (saveConversationToLocal stringify u r msgs now (Some [])) in
  stringify d <> EmptyString ->
  parse (stringify d) = Some d ->
  loaded = {[ "SPECIALIST" := JArr (map Message_json msgs) ]}
  /\ loaded !! r = None.
Proof.
  intros u r msgs d loaded Hne Hrt.
  assert (loaded = {[ "SPECIALIST" := JArr (map Message_json msgs) ]}) as E.
  { unfold loaded, getAllUserConversations, saveConversationToLocal.
    cbn [LocalStorage.setItem].
    rewrite getAll_try_single.
    rewrite (getAll_body_hit parse u _ 0 (conversationKey u r) (stringify d) d
                             (JArr (map Message_json msgs))).
    - reflexivity.
    - reflexivity.
    - vm_compute. reflexivity.
    - cbn [LocalStorage.getItem]. now rewrite String.eqb_refl.
    - unfold JsString.truthy. now destruct (String.eqb_spec (stringify d) EmptyString).
    - exact Hrt.
    - reflexivity. }
  split; [exact E|]. rewrite E. reflexivity.
Qed.

Lemma save_then_getAll_loses_role_key_witness :
  let loaded :=
    getAllUserConversations MiniJSON.parse "ada@example.com"
      (saveConversationToLocal MiniJSON.stringify "ada@example.com" "METHODS_SPECIALIST"
         [mkMessage user "hello" None] "2025-01-01T00:00:00.000Z" (Some [])) in
  loaded = {[ "SPECIALIST" := JArr (map Message_json [mkMessage user "hello" None]) ]}
  /\ loaded !! "METHODS_SPECIALIST" = None.
Proof.
  apply (save_then_getAll_loses_role_key MiniJSON.parse MiniJSON.stringify
                                         "2025-01-01T00:00:00.000Z").
  - vm_compute. discriminate.
  - vm_compute. reflexivity.
Defined.

(** ** clearUserData *)


Lemma getItem_removeItem (ls : LocalStorage.t) (k' k : string) :
  LocalStorage.getItem (LocalStorage.removeItem ls k') k
  = if String.eqb k' k then None else LocalStorage.getItem ls k.
Proof.
  induction ls as [|[k0 v0] ls IH]; simpl.
  - now destruct (String.eqb k' k).
  - destruct (String.eqb_spec k0 k') as [->|Hne]; simpl.
    + rewrite IH. now destruct (String.eqb k' k).
    + rewrite IH. destruct (String.eqb_spec k' k) as [->|]; [|reflexivity].
      now destruct (String.eqb_spec k0 k).
Qed.

Lemma getItem_fold_removeItem (ks : list string) (ls : LocalStorage.t) (k : string) :
  LocalStorage.getItem (fold_left LocalStorage.removeItem ks ls) k
  = if existsb (fun k' => String.eqb k' k) ks then None else LocalStorage.getItem ls k.
Proof.
  revert ls. induction ks as [|k' ks IH]; intros ls; simpl; [reflexivity|].
  rewrite IH, getItem_removeItem.
  now destruct (String.eqb k' k), (existsb (fun k' => String.eqb k' k) ks).
Qed.

Lemma getItem_fold_removeItem_in (ks : list string) (ls : LocalStorage.t) (k : string) :
  In k ks -> LocalStorage.getItem (fold_left LocalStorage.removeItem ks ls) k = None.
Proof.
  intros H. rewrite getItem_fold_removeItem.
  assert (existsb (fun k' => String.eqb k' k) ks = true) as ->; [|reflexivity].
  apply existsb_exists. exists k. split; [exact H | apply String.eqb_refl].
Qed.

Lemma getItem_fold_removeItem_notin (ks : list string) (ls : LocalStorage.t) (k : string) :
  ~ In k ks ->
  LocalStorage.getItem (fold_left LocalStorage.removeItem ks ls) k
  = LocalStorage.getItem ls k.
Proof.
  intros H. rewrite getItem_fold_removeItem.
  destruct (existsb (fun k' => String.eqb k' k) ks) eqn:E; [|reflexivity].
  apply existsb_exists in E as (k' & Hin & Heq).
  apply String.eqb_eq in Heq. subst k'. contradiction.
Qed.

Lemma getItem_None (ls : LocalStorage.t) (k : string) :
  ~ In k (LocalStorage.keys ls) -> LocalStorage.getItem ls k = None.
Proof.
  induction ls as [|[k0 v0] ls IH]; simpl; [reflexivity|].
  intros H. destruct (String.eqb_spec k0 k); [tauto | apply IH; tauto].
Qed.

(** The first loop of [clearUserData] gathers the keys that pass its test. *)
Lemma clearUserData_collect_loop (u : string) (l1 l2 : LocalStorage.t) (acc : list string) :
  for_loop (List.length l2) (List.length l1) (clearUserData_collect u (l1 ++ l2)) acc
  = Normal (acc ++ List.filter (fun k => isUserKey u (Some k)) (LocalStorage.keys l2)).
Proof.
  revert l1 acc. induction l2 as [|[k v] l2 IH]; intros l1 acc.
  - simpl. now rewrite app_nil_r.
  - cbn [List.length for_loop LocalStorage.keys map fst List.filter].
    unfold clearUserData_collect at 1. rewrite key_middle.
    cbn [JsString.propertyKey].
    specialize (IH (l1 ++ [(k, v)])).
    rewrite length_app in IH. cbn [List.length] in IH.
    replace (List.length l1 + 1)%nat with (S (List.length l1)) in IH by lia.
    rewrite <- app_assoc in IH. cbn [app] in IH.
    destruct (isUserKey u (Some k)); rewrite IH.
    + now rewrite <- app_assoc.
    + reflexivity.
Qed.

Lemma clearUserData_eq (u : string) (ls : LocalStorage.t) :
  clearUserData u (Some ls)
  = Some (fold_left LocalStorage.removeItem (keysToRemove u ls) ls).
Proof.
  unfold clearUserData, LocalStorage.length.
  pose proof (clearUserData_collect_loop u [] ls []) as H.
  change ([] ++ ls) with ls in H. change (List.length (@nil (string * string))) with 0%nat in H.
  unfold keysToRemove. now rewrite H.
Qed.

(** Every key that passes the test is gone after [clearUserData]. *)
Lemma clearUserData_removes (u : string) (ls : LocalStorage.t) (k : string) :
  isUserKey u (Some k) = true ->
  getItemOf (clearUserData u (Some ls)) k = None.
Proof.
  intros Hk. rewrite clearUserData_eq. simpl.
  destruct (in_dec string_dec k (LocalStorage.keys ls)) as [Hin|Hnin].
  - apply getItem_fold_removeItem_in. unfold keysToRemove.
    apply filter_In. now split.
  - rewrite getItem_fold_removeItem_notin.
    + now apply getItem_None.
    + unfold keysToRemove. rewrite filter_In. tauto.
Qed.

(** Every key that fails the test keeps its value. *)
Lemma clearUserData_keeps (u : string) (ls : LocalStorage.t) (k : string) :
  isUserKey u (Some k) = false ->
  getItemOf (clearUserData u (Some ls)) k = LocalStorage.getItem ls k.
Proof.
  intros Hk. rewrite clearUserData_eq. simpl.
  apply getItem_fold_removeItem_notin. unfold keysToRemove.
  rewrite filter_In. intros [_ H]. congruence.
Qed.

Lemma isUserKey_conversationKey (u r : string) :
  isUserKey u (Some (conversationKey u r)) = true.
Proof.
  unfold isUserKey. rewrite conversationKey_startsWith.
  now rewrite (prefix_nonempty _ _ (conversationKeyPrefix_nonempty u)
                               (conversationKey_startsWith u r)).
Qed.

Lemma isUserKey_sessionKey (u : string) : isUserKey u (Some (sessionKey u)) = true.
Proof.
  unfold isUserKey. rewrite String.eqb_refl, orb_true_r. reflexivity.
Qed.

(** ** The send state machine *)

Lemma submitRejected_loading (st : AppState) :
  isLoading st = true -> submitRejected st = true.
Proof. intros H. unfold submitRejected. rewrite H. apply orb_true_r. Qed.

(** C2, as the code has it: the guard of [handleSendMessage] tests
    [isLoading] only. While [isLoading] is set a submit changes nothing:
    no send is started, no message is appended to any log and no request
    is made. *)
Theorem submit_rejected_while_loading (roles : string -> Agent) (w : World) (now : Z) :
  isLoading (app w) = true ->
  step roles w (Submit now) = Some w.
Proof.
  intros H. unfold step, handleSendMessage_start.
  now rewrite (submitRejected_loading _ H).
Qed.

Lemma submit_rejected_while_loading_witness :
  let w := world_after [Submit 1; TypeInput "again"] in
  run roles_by_id world_hello [Submit 1; TypeInput "again"] = Some w
  /\ isLoading (app w) = true
  /\ JsString.trim (input (app w)) = "again"
  /\ submitRejected (set_isLoading false (app w)) = false
  /\ step roles_by_id w (Submit 2) = Some w.
Proof.
  intros w.
  split; [vm_compute; reflexivity|].
  split; [vm_compute; reflexivity|].
  split; [vm_compute; reflexivity|].
  split; [vm_compute; reflexivity|].
  apply (submit_rejected_while_loading roles_by_id w 2). vm_compute. reflexivity.
Defined.

(** C2, as the specification states it, fails: once the stream is open
    [isLoading] is cleared, and a submit made while the stream is being
    consumed starts a second send for the same specialist. *)
Lemma submit_accepted_while_streaming :
  exists w w',
    run roles_by_id world_hello
        [Submit 1; Deliver 0%nat (TokensCounted 3); Deliver 0%nat StreamOpened;
         Deliver 0%nat (Chunk (Some "Hi")); TypeInput "again"] = Some w
    /\ isStreaming (app w) = true
    /\ phase <$> sends w !! 0%nat = Some Streaming
    /\ JsString.trim (input (app w)) <> EmptyString
    /\ step roles_by_id w (Submit 2) = Some w'
    /\ phase <$> sends w' = [Streaming; AwaitInputTokens]
    /\ send_agent <$> sends w' = [selectedAgent (app w); selectedAgent (app w)]
    /\ List.length (requests w') = S (List.length (requests w))
    /\ historyOf (chatHistories (app w')) (selectedAgent (app w))
       = historyOf (chatHistories (app w)) (selectedAgent (app w))
         ++ [ {| role := user; content := "again"; agentId := None |} ].
Proof.
  eexists. eexists.
  split; [vm_compute; reflexivity|].
  split; [reflexivity|].
  split; [reflexivity|].
  split; [vm_compute; discriminate|].
  split; [vm_compute; reflexivity|].
  repeat split; vm_compute; reflexivity.
Qed.

(** *** What a resumed call may touch *)

Lemma onChunk_inv (chunk : option string) (s s' : Send) (st st' : AppState) :
  onChunk chunk s st = Some (s', st') ->
  send_agent s' = send_agent s
  /\ phase s' = phase s
  /\ selectedAgent st' = selectedAgent st
  /\ forall B, B <> send_agent s -> chatHistories st' !! B = chatHistories st !! B.
Proof.
  unfold onChunk. intros H.
  destruct chunk as [chunkText|]; [|injection H as <- <-; auto].
  destruct (JsString.truthy chunkText); [|injection H as <- <-; auto].
  destruct (firstChunk s).
  - injection H as <- <-. repeat split; try reflexivity.
    intros B HB. simpl. unfold appendAssistant. now rewrite lookup_insert_ne.
  - unfold extendLast in H.
    destruct (last (historyOf (chatHistories st) (send_agent s))); [|discriminate].
    injection H as <- <-. repeat split; try reflexivity.
    intros B HB. simpl. now rewrite lookup_insert_ne.
Qed.

Lemma resume_inv (r : Reply) (s s' : Send) (st st' : AppState) (reqs : list Request) :
  resume r s st = Some (s', st', reqs) ->
  send_agent s' = send_agent s
  /\ selectedAgent st' = selectedAgent st
  /\ forall B, B <> send_agent s -> chatHistories st' !! B = chatHistories st !! B.
Proof.
  unfold resume. intros H.
  destruct (phase s) eqn:Hp, r as [n| |chunk| |]; try discriminate;
    try (injection H as <- <- <-; repeat split; try reflexivity;
         intros B HB; simpl; now rewrite ?lookup_insert_ne).
  destruct (onChunk chunk s st) as [[s1 st1]|] eqn:Hc; [|discriminate].
  injection H as <- <- <-. apply onChunk_inv in Hc. tauto.
Qed.

Lemma step_concerns_inv (roles : string -> Agent) (idx : nat) (A : string)
      (w w' : World) (e : Event) :
  concerns idx e ->
  send_agent <$> sends w !! idx = Some A ->
  step roles w e = Some w' ->
  send_agent <$> sends w' !! idx = Some A
  /\ forall B, B <> A -> chatHistories (app w') !! B = chatHistories (app w) !! B.
Proof.
  intros Hc Hs H. destruct e as [now|a|text|i r]; simpl in *.
  - contradiction.
  - injection H as <-. auto.
  - injection H as <-. auto.
  - subst i. destruct (sends w !! idx) as [s|] eqn:Hl; [|discriminate].
    simpl in Hs. injection Hs as <-.
    destruct (resume r s (app w)) as [[[s1 st1] reqs]|] eqn:Hr; [|discriminate].
    injection H as <-. simpl. apply resume_inv in Hr as (Ha & _ & Hf).
    split; [|exact Hf].
    rewrite list_lookup_insert_eq by (now apply lookup_lt_Some in Hl).
    simpl. now rewrite Ha.
Qed.

Lemma run_concerns_inv (roles : string -> Agent) (idx : nat) (A : string)
      (events : list Event) (w w' : World) :
  Forall (concerns idx) events ->
  send_agent <$> sends w !! idx = Some A ->
  run roles w events = Some w' ->
  forall B, B <> A -> chatHistories (app w') !! B = chatHistories (app w) !! B.
Proof.
  intros Hall. revert w. induction Hall as [|e events He _ IH]; intros w Hs H B HB.
  - simpl in H. now injection H as <-.
  - simpl in H. destruct (step roles w e) as [w1|] eqn:Hstep; [|discriminate].
    destruct (step_concerns_inv roles idx A w w1 e He Hs Hstep) as [Hs1 Hf].
    rewrite (IH w1 Hs1 H B HB). now apply Hf.
Qed.

(** C5: a send started while specialist A is selected carries A with it.
    Whatever specialists are selected afterwards and whatever the stream
    of that send delivers (increments, its end, a failure), the log of
    every specialist other than A stays as it was when the send started:
    nothing of the stream reaches the log of a newly selected B. *)
Theorem stream_routed_to_captured_agent (roles : string -> Agent) (w0 w1 w' : World)
        (now : Z) (events : list Event) (B : string) :
  submitRejected (app w0) = false ->
  step roles w0 (Submit now) = Some w1 ->
  Forall (concerns (List.length (sends w0))) events ->
  run roles w1 events = Some w' ->
  B <> selectedAgent (app w0) ->
  chatHistories (app w') !! B = chatHistories (app w0) !! B.
Proof.
  intros Hacc Hsub Hall Hrun HB.
  simpl in Hsub. unfold handleSendMessage_start in Hsub. rewrite Hacc in Hsub.
  injection Hsub as <-.
  match type of Hrun with run _ ?w _ = _ => set (W1 := w) in * end.
  assert (send_agent <$> sends W1 !! List.length (sends w0)
          = Some (selectedAgent (app w0))) as Hs.
  { unfold W1. simpl. now rewrite list_lookup_middle. }
  rewrite (run_concerns_inv roles _ _ events W1 w' Hall Hs Hrun B HB).
  unfold W1. simpl. now rewrite lookup_insert_ne.
Qed.

Lemma stream_routed_to_captured_agent_witness :
  let events :=
    [Deliver 0%nat (TokensCounted 3); Deliver 0%nat StreamOpened;
     Deliver 0%nat (Chunk (Some "Hi")); SelectAgent "CORROSION_ENGINEER";
     Deliver 0%nat (Chunk (Some " there")); Deliver 0%nat StreamDone] in
  let w' := world_after (Submit 1 :: events) in
  run roles_by_id (world_after [Submit 1]) events = Some w'
  /\ selectedAgent (app w') = "CORROSION_ENGINEER"
  /\ chatHistories (app w') !! "CORROSION_ENGINEER"
     = chatHistories (app world_hello) !! "CORROSION_ENGINEER".
Proof.
  intros events w'.
  assert (run roles_by_id (world_after [Submit 1]) events = Some w') as Hrun
      by (vm_compute; reflexivity).
  split; [exact Hrun|]. split; [vm_compute; reflexivity|].
  apply (stream_routed_to_captured_agent roles_by_id world_hello
           (world_after [Submit 1]) w' 1 events).
  - reflexivity.
  - vm_compute. reflexivity.
  - repeat constructor.
  - exact Hrun.
  - discriminate.
Defined.

(** *** Assembling the response *)

Lemma string_app_nil_r (a : string) : a +:+ EmptyString = a.
Proof. induction a as [|x a IH]; [reflexivity|]. now rewrite string_app_cons, IH. Qed.

Lemma truthy_false (t : string) : JsString.truthy t = false -> t = EmptyString.
Proof. unfold JsString.truthy. now destruct (String.eqb_spec t EmptyString). Qed.

Lemma truthy_true (t : string) : t <> EmptyString -> JsString.truthy t = true.
Proof. unfold JsString.truthy. now destruct (String.eqb_spec t EmptyString). Qed.

Lemma set_chatHistories_id (st : AppState) : set_chatHistories (chatHistories st) st = st.
Proof. now destruct st. Qed.

Lemma set_chatHistories_twice (h1 h2 : gmap string (list Message)) (st : AppState) :
  set_chatHistories h2 (set_chatHistories h1 st) = set_chatHistories h2 st.
Proof. reflexivity. Qed.

Lemma extendContent_nil (m : Message) : extendContent m EmptyString = m.
Proof. destruct m. unfold extendContent. simpl. now rewrite string_app_nil_r. Qed.

Lemma extendContent_twice (m : Message) (a b : string) :
  extendContent (extendContent m a) b = extendContent m (a +:+ b).
Proof. unfold extendContent. simpl. now rewrite string_app_assoc. Qed.

Lemma historyOf_Some (h : gmap string (list Message)) (A : string) (l : list Message)
      (m : Message) :
  historyOf h A = l ++ [m] -> h !! A = Some (l ++ [m]).
Proof.
  unfold historyOf. destruct (h !! A); simpl; [now intros ->|].
  intros H. now destruct l.
Qed.

Lemma take_all_but_last {X} (l : list X) (m : X) :
  take (List.length (l ++ [m]) - 1) (l ++ [m]) = l.
Proof.
  rewrite length_app. simpl.
  replace (List.length l + 1 - 1)%nat with (List.length l) by lia.
  now rewrite take_app_length.
Qed.

(** Chunks after the first non-empty one grow the last message of the log. *)
Lemma onChunks_extend (texts : list (option string)) (s : Send) (st : AppState)
      (l : list Message) (m : Message) :
  firstChunk s = false ->
  historyOf (chatHistories st) (send_agent s) = l ++ [m] ->
  onChunks texts s st
  = Some (withResponse s (fullResponse s +:+ concatTexts texts),
          set_chatHistories
            (<[send_agent s := l ++ [extendContent m (concatTexts texts)]]>
               (chatHistories st)) st).
Proof.
  revert s st m. induction texts as [|t texts IH]; intros s st m Hf Hh.
  - simpl. rewrite string_app_nil_r, extendContent_nil.
    rewrite insert_id by (now apply historyOf_Some).
    rewrite set_chatHistories_id. destruct s. simpl in Hf. now subst.
  - simpl onChunks. simpl concatTexts.
    assert (onChunk t s st
            = Some (withResponse s (fullResponse s +:+ textOf t),
                    set_chatHistories
                      (<[send_agent s := l ++ [extendContent m (textOf t)]]>
                         (chatHistories st)) st)) as ->.
    { unfold onChunk. destruct t as [t|]; simpl textOf.
      - destruct (JsString.truthy t) eqn:Ht.
        + rewrite Hf. unfold extendLast. rewrite Hh, last_snoc, take_all_but_last.
          reflexivity.
        + apply truthy_false in Ht. subst t.
          rewrite string_app_nil_r, extendContent_nil.
          rewrite insert_id by (now apply historyOf_Some).
          rewrite set_chatHistories_id. destruct s. simpl in Hf. now subst.
      - rewrite string_app_nil_r, extendContent_nil.
        rewrite insert_id by (now apply historyOf_Some).
        rewrite set_chatHistories_id. destruct s. simpl in Hf. now subst. }
    rewrite (IH _ _ (extendContent m (textOf t))); simpl.
    + rewrite insert_insert_eq, extendContent_twice, string_app_assoc. reflexivity.
    + reflexivity.
    + unfold historyOf. now rewrite lookup_insert_eq.
Qed.

(** From the opening of the stream: the first non-empty chunk appends the
    assistant message, the later ones grow it. *)
Lemma onChunks_from_start (texts : list (option string)) (s : Send) (st : AppState) :
  firstChunk s = true ->
  (exists t, In (Some t) texts /\ t <> EmptyString) ->
  onChunks texts s st
  = Some (withResponse s (fullResponse s +:+ concatTexts texts),
          set_chatHistories
            (<[send_agent s :=
                 historyOf (chatHistories st) (send_agent s)
                 ++ [ {| role := assistant; content := concatTexts texts;
                         agentId := Some (send_agent s) |} ]]>
               (chatHistories st)) st).
Proof.
  induction texts as [|t texts IH]; intros Hf (t0 & Hin & Hne).
  - destruct Hin.
  - simpl onChunks. simpl concatTexts. unfold onChunk.
    destruct t as [t|]; simpl textOf.
    + destruct (JsString.truthy t) eqn:Ht.
      * rewrite Hf.
        rewrite (onChunks_extend texts _ _
                   (historyOf (chatHistories st) (send_agent s))
                   {| role := assistant; content := t; agentId := Some (send_agent s) |}).
        -- simpl. unfold appendAssistant. rewrite insert_insert_eq.
           unfold withResponse. simpl. rewrite string_app_assoc. reflexivity.
        -- reflexivity.
        -- simpl. unfold appendAssistant, historyOf. now rewrite lookup_insert_eq.
      * apply truthy_false in Ht. subst t.
        destruct Hin as [Heq|Hin]; [injection Heq as <-; now destruct Hne|].
        rewrite string_app_nil_l. apply IH; [exact Hf | eauto].
    + destruct Hin as [Heq|Hin]; [discriminate|].
      rewrite string_app_nil_l. apply IH; [exact Hf | eauto].
Qed.

Lemma onChunks_phase (texts : list (option string)) (s s' : Send) (st st' : AppState) :
  onChunks texts s st = Some (s', st') -> phase s' = phase s.
Proof.
  revert s st. induction texts as [|t texts IH]; intros s st H; simpl in H.
  - now injection H as <- <-.
  - destruct (onChunk t s st) as [[s1 st1]|] eqn:Hc; [|discriminate].
    apply onChunk_inv in Hc as (_ & Hp & _). rewrite <- Hp. eauto.
Qed.

Lemma run_app (roles : string -> Agent) (e1 e2 : list Event) (w : World) :
  run roles w (e1 ++ e2)
  = match run roles w e1 with
    | Some w1 => run roles w1 e2
    | None => None
    end.
Proof.
  revert w. induction e1 as [|e e1 IH]; intros w; simpl; [reflexivity|].
  destruct (step roles w e); [apply IH | reflexivity].
Qed.


Lemma concatTexts_app (a b : list (option string)) :
  concatTexts (a ++ b) = concatTexts a +:+ concatTexts b.
Proof.
  induction a as [|t a IH]; simpl; [now rewrite string_app_nil_l|].
  now rewrite IH, string_app_assoc.
Qed.

Lemma chunksOf_cons (idx : nat) (e : Event) (rest : list Event) :
  chunksOf idx (e :: rest) = chunksOf idx [e] ++ chunksOf idx rest.
Proof.
  destruct e as [now|a|text|i r]; try reflexivity.
  destruct r; try reflexivity. simpl. now destruct (Nat.eqb i idx).
Qed.

(** An event that is no increment of the call at [idx] and leaves the log
    of [A] alone changes neither that call nor that log. *)
Lemma step_elsewhere (roles : string -> Agent) (A : string) (idx : nat) (w w' : World)
      (e : Event) (s : Send) :
  sends w !! idx = Some s ->
  leaves_log_to A idx w e ->
  (forall t, e <> Deliver idx (Chunk t)) ->
  step roles w e = Some w' ->
  sends w' !! idx = Some s
  /\ chatHistories (app w') !! A = chatHistories (app w) !! A.
Proof.
  intros Hs Hl Hne H. destruct e as [now|a|text|i r]; simpl in H, Hl.
  - unfold handleSendMessage_start in H.
    destruct (submitRejected (app w)) eqn:Hr.
    + injection H as <-. auto.
    + destruct Hl as [Hl|Hl]; [discriminate|].
      injection H as <-. simpl. split.
      * rewrite lookup_app_l; [exact Hs | now apply lookup_lt_Some in Hs].
      * now rewrite lookup_insert_ne.
  - injection H as <-. auto.
  - injection H as <-. auto.
  - destruct (Nat.eqb_spec i idx) as [->|Hi].
    + destruct Hl as [t ->]. now destruct (Hne t).
    + destruct (sends w !! i) as [sj|] eqn:Hj; [|discriminate].
      destruct (resume r sj (app w)) as [[[s1 st1] reqs]|] eqn:Hres; [|discriminate].
      injection H as <-. simpl. apply resume_inv in Hres as (_ & _ & Hf).
      split.
      * now rewrite list_lookup_insert_ne.
      * apply Hf. intros ->. now apply Hl.
Qed.

(** An increment handed to the call that streams into the log of [A]. *)
Lemma step_own_chunk (roles : string -> Agent) (A : string) (idx : nat)
      (base : list Message) (w : World) (s : Send) (t : option string) :
  streams_into A idx base w s ->
  exists w' s',
    step roles w (Deliver idx (Chunk t)) = Some w'
    /\ streams_into A idx base w' s'
    /\ fullResponse s' = fullResponse s +:+ textOf t
    /\ (firstChunk s = false -> firstChunk s' = false)
    /\ (textOf t <> EmptyString -> firstChunk s' = false).
Proof.
  intros (Hs & Hp & Ha & Hlog).
  assert (idx < List.length (sends w))%nat as Hlt by (now apply lookup_lt_Some in Hs).
  cbn [step]. rewrite Hs. unfold resume. rewrite Hp. unfold onChunk.
  assert (forall x, JsString.truthy x = false -> textOf (Some x) = EmptyString) as Hempty.
  { intros x Hx. now apply truthy_false in Hx. }
  assert (exists w' s',
             Some {| app := app w; sends := <[idx := s]> (sends w);
                     requests := requests w ++ [] |} = Some w'
             /\ streams_into A idx base w' s'
             /\ fullResponse s' = fullResponse s +:+ EmptyString
             /\ (firstChunk s = false -> firstChunk s' = false)
             /\ (EmptyString <> EmptyString -> firstChunk s' = false)) as Hsame.
  { eexists. exists s. split; [reflexivity|]. split.
    - split; [now apply list_lookup_insert_eq|]. auto.
    - split; [now rewrite string_app_nil_r|]. split; [auto | congruence]. }
  destruct t as [x|]; [|exact Hsame].
  destruct (JsString.truthy x) eqn:Hx; [|rewrite (Hempty x Hx); exact Hsame].
  cbn [textOf default]. destruct (firstChunk s) eqn:Hf.
  - destruct Hlog as [Hr Hb].
    eexists. eexists. split; [reflexivity|]. split.
    { split; [now apply list_lookup_insert_eq|]. split; [exact Hp|]. split; [exact Ha|].
      cbn [firstChunk fullResponse app chatHistories set_chatHistories].
      unfold appendAssistant, historyOf at 1. rewrite Ha, lookup_insert_eq. cbn [default].
      now rewrite Hb, Hr, string_app_nil_l. }
    split; [reflexivity|]. split; intros; reflexivity.
  - unfold extendLast. rewrite Ha, Hlog, last_snoc, take_all_but_last.
    eexists. eexists. split; [reflexivity|]. split.
    { split; [now apply list_lookup_insert_eq|]. split; [exact Hp|]. split; [reflexivity|].
      cbn [firstChunk fullResponse app chatHistories set_chatHistories role content
           agentId].
      unfold historyOf. now rewrite lookup_insert_eq. }
    split; [reflexivity|]. split; intros; reflexivity.
Qed.

Lemma own_chunk_dec (idx : nat) (e : Event) :
  {t | e = Deliver idx (Chunk t)} + {forall t, e <> Deliver idx (Chunk t)}.
Proof.
  destruct e as [now|a|text|i r]; try (right; discriminate).
  destruct (Nat.eq_dec i idx) as [->|Hi]; [|right; intros t H; injection H; auto].
  destruct r as [n| |t| |]; try (right; discriminate).
  left. now exists t.
Qed.

Lemma chunksOf_other (idx : nat) (e : Event) (rest : list Event) :
  (forall t, e <> Deliver idx (Chunk t)) -> chunksOf idx (e :: rest) = chunksOf idx rest.
Proof.
  intros Hne. destruct e as [now|a|text|i r]; try reflexivity.
  destruct r as [n| |t| |]; try reflexivity.
  simpl. destruct (Nat.eqb_spec i idx) as [->|_]; [|reflexivity].
  now destruct (Hne t).
Qed.

Lemma chunksOf_own (idx : nat) (t : option string) (rest : list Event) :
  chunksOf idx (Deliver idx (Chunk t) :: rest) = t :: chunksOf idx rest.
Proof. simpl. now rewrite Nat.eqb_refl. Qed.

(** Over an undisturbed run the call keeps streaming into the log of [A]
    and assembles the increments it is handed. *)
Lemma run_streams_into (roles : string -> Agent) (A : string) (idx : nat)
      (base : list Message) (events : list Event) (w : World) (s : Send) :
  streams_into A idx base w s ->
  undisturbed roles A idx w events ->
  exists w1 s1,
    run roles w events = Some w1
    /\ streams_into A idx base w1 s1
    /\ fullResponse s1 = fullResponse s +:+ concatTexts (chunksOf idx events)
    /\ (firstChunk s = false \/ someText (chunksOf idx events) -> firstChunk s1 = false).
Proof.
  revert w s. induction events as [|e rest IH]; intros w s Hinv Hund.
  - exists w, s. split; [reflexivity|]. split; [exact Hinv|].
    split; [simpl; now rewrite string_app_nil_r|].
    intros [Hf|(t & [] & _)]. exact Hf.
  - destruct Hund as [Hl Hrest]. cbn [run].
    destruct (own_chunk_dec idx e) as [[t ->]|Hne].
    + destruct (step_own_chunk roles A idx base w s t Hinv)
        as (w' & s' & Hstep & Hinv' & Hfull & Hkeep & Hset).
      rewrite Hstep in Hrest |- *.
      destruct (IH w' s' Hinv' Hrest) as (w1 & s1 & Hrun & Hinv1 & Hfull1 & Hf1).
      exists w1, s1. split; [exact Hrun|]. split; [exact Hinv1|].
      rewrite chunksOf_own. split.
      * rewrite Hfull1, Hfull. cbn [concatTexts]. now rewrite string_app_assoc.
      * intros [Hf|(x & [Hx|Hx] & Hxne)]; apply Hf1.
        -- left. now apply Hkeep.
        -- left. apply Hset. now rewrite Hx.
        -- right. now exists x.
    + destruct (step roles w e) as [w'|] eqn:Hstep;
        [|destruct Hrest as [t ->]; now destruct (Hne t)].
      destruct Hinv as (Hs & Hp & Ha & Hlog).
      destruct (step_elsewhere roles A idx w w' e s Hs Hl Hne Hstep) as [Hs' Hlook].
      assert (streams_into A idx base w' s) as Hinv'.
      { split; [exact Hs'|]. split; [exact Hp|]. split; [exact Ha|].
        unfold historyOf in *. now rewrite Hlook. }
      destruct (IH w' s Hinv' Hrest) as (w1 & s1 & Hrun & Hinv1 & Hfull1 & Hf1).
      exists w1, s1. rewrite (chunksOf_other idx e rest Hne). auto.
Qed.


Lemma chunksOf_chunkEvents (idx : nat) (texts : list (option string)) :
  chunksOf idx (chunkEvents idx texts) = texts.
Proof.
  induction texts as [|t texts IH]; [reflexivity|].
  cbn [chunkEvents map]. rewrite chunksOf_own. f_equal. exact IH.
Qed.

(** The increments of a call delivered one after the other, with nothing
    in between, are an undisturbed run. *)
Lemma chunkEvents_undisturbed (roles : string -> Agent) (A : string) (idx : nat)
      (texts : list (option string)) (w : World) :
  undisturbed roles A idx w (chunkEvents idx texts).
Proof.
  revert w. induction texts as [|t texts IH]; intros w; [exact I|].
  cbn [chunkEvents map undisturbed leaves_log_to]. rewrite Nat.eqb_refl.
  split; [eauto|]. destruct (step roles w (Deliver idx (Chunk t))); [apply IH | eauto].
Qed.

(** C6, as the code has it: from the opening of its stream to its
    exhaustion a send appends one assistant message to the log of its
    specialist, provided that log receives no other write meanwhile: the
    events handled in between are specialist selections, typing, submits
    that are refused or made while another specialist is selected, and
    replies to sends of other specialists. When at least one increment is
    non-empty, the content of that message is the increments joined in
    order, its role and specialist id are those set at the first non-empty
    increment, and the same text is what the send has assembled. *)
Theorem stream_concatenates (roles : string -> Agent) (w : World) (idx : nat) (s : Send)
        (events : list Event) :
  sends w !! idx = Some s ->
  phase s = Streaming ->
  firstChunk s = true ->
  fullResponse s = EmptyString ->
  undisturbed roles (send_agent s) idx w events ->
  someText (chunksOf idx events) ->
  exists w',
    run roles w (events ++ [Deliver idx StreamDone]) = Some w'
    /\ chatHistories (app w') !! send_agent s
       = Some (historyOf (chatHistories (app w)) (send_agent s)
               ++ [ {| role := assistant; content := concatTexts (chunksOf idx events);
                       agentId := Some (send_agent s) |} ])
    /\ fullResponse <$> sends w' !! idx = Some (concatTexts (chunksOf idx events))
    /\ phase <$> sends w' !! idx = Some AwaitOutputTokens
    /\ isStreaming (app w') = false.
Proof.
  intros Hl Hp Hf Hr Hund Hex.
  assert (streams_into (send_agent s) idx
                       (historyOf (chatHistories (app w)) (send_agent s)) w s) as Hinv.
  { split; [exact Hl|]. split; [exact Hp|]. split; [reflexivity|]. now rewrite Hf. }
  destruct (run_streams_into roles _ idx _ events w s Hinv Hund)
    as (w1 & s1 & Hrun & (Hl1 & Hp1 & Ha1 & Hlog1) & Hfull & Hf1).
  rewrite (Hf1 (or_intror Hex)) in Hlog1.
  rewrite Hr, string_app_nil_l in Hfull. rewrite Hfull in Hlog1.
  assert (idx < List.length (sends w1))%nat as Hlt by (now apply lookup_lt_Some in Hl1).
  rewrite run_app, Hrun. cbn [run step]. rewrite Hl1. unfold resume. rewrite Hp1.
  eexists. split; [reflexivity|]. cbn [app sends chatHistories set_isStreaming isStreaming].
  rewrite list_lookup_insert_eq by exact Hlt.
  split; [now apply historyOf_Some|].
  cbn. rewrite Hfull. auto.
Qed.

Lemma stream_concatenates_witness :
  let w := world_after [Submit 1; Deliver 0%nat (TokensCounted 3);
                        Deliver 0%nat StreamOpened] in
  let events := [Deliver 0%nat (Chunk (Some "Hi")); SelectAgent "CORROSION_ENGINEER";
                 Deliver 0%nat (Chunk (Some EmptyString)); TypeInput "again"; Submit 2;
                 Deliver 0%nat (Chunk None); Deliver 1%nat (TokensCounted 5);
                 Deliver 0%nat (Chunk (Some " there"))] in
  exists w',
    run roles_by_id w (events ++ [Deliver 0%nat StreamDone]) = Some w'
    /\ chatHistories (app w') !! "METHODS_SPECIALIST"
       = Some ([ {| role := user; content := "hello"; agentId := None |} ]
               ++ [ {| role := assistant; content := "Hi there";
                       agentId := Some "METHODS_SPECIALIST" |} ])
    /\ fullResponse <$> sends w' !! 0%nat = Some "Hi there"
    /\ phase <$> sends w' !! 0%nat = Some AwaitOutputTokens
    /\ isStreaming (app w') = false.
Proof.
  intros w events.
  apply (stream_concatenates roles_by_id w 0
           {| send_agent := "METHODS_SPECIALIST";
              inputContents := buildContents (set_input "hello" initialState) [] "hello";
              systemPrompt := "You are METHODS_SPECIALIST";
              phase := Streaming;
              firstChunk := true;
              fullResponse := EmptyString |}
           events).
  - vm_compute. reflexivity.
  - reflexivity.
  - reflexivity.
  - reflexivity.
  - vm_compute. repeat split; eauto; try discriminate; right; discriminate.
  - exists "Hi". split; [left; reflexivity | discriminate].
Defined.

(** C6, as the specification states it for every send, fails: a message
    submitted for the same specialist while the stream is consumed becomes
    the last message of the log, and the next increment is joined to it.
    The assistant message of the send is left with the first increment
    alone. *)
Lemma stream_disturbed_by_submit :
  let w := world_after [Submit 1; Deliver 0%nat (TokensCounted 3);
                        Deliver 0%nat StreamOpened] in
  let events := [Deliver 0%nat (Chunk (Some "Hi")); TypeInput "again"; Submit 2;
                 Deliver 0%nat (Chunk (Some " there"))] in
  exists w',
    run roles_by_id w (events ++ [Deliver 0%nat StreamDone]) = Some w'
    /\ chunksOf 0 events = [Some "Hi"; Some " there"]
    /\ concatTexts (chunksOf 0 events) = "Hi there"
    /\ historyOf (chatHistories (app w')) "METHODS_SPECIALIST"
       = [ {| role := user; content := "hello"; agentId := None |};
           {| role := assistant; content := "Hi";
              agentId := Some "METHODS_SPECIALIST" |};
           {| role := user; content := "again there"; agentId := None |} ]
    /\ concatTexts (chunksOf 0 events) <> "Hi"
    /\ phase <$> sends w' !! 0%nat = Some AwaitOutputTokens.
Proof.
  eexists. split; [vm_compute; reflexivity|].
  split; [reflexivity|]. split; [reflexivity|].
  split; [vm_compute; reflexivity|]. split; [discriminate | vm_compute; reflexivity].
Qed.

(** *** Failure of a send *)

(** C7: when the awaited token estimate or the stream fails, at whatever
    point of the send, the log of the sending specialist gains exactly one
    message, the static apology, after everything it already holds (a
    partial response included); both flags are cleared, the call is over,
    the token count is untouched and no further request is made. *)
Theorem error_appends_one_apology (roles : string -> Agent) (w : World) (idx : nat)
        (s : Send) :
  sends w !! idx = Some s ->
  phase s <> Finished ->
  exists w',
    step roles w (Deliver idx Rejected) = Some w'
    /\ chatHistories (app w')
       = <[send_agent s := historyOf (chatHistories (app w)) (send_agent s)
                           ++ [ {| role := assistant;
                                   content := "Sorry, I encountered an error. Please try again.";
                                   agentId := Some (send_agent s) |} ]]>
           (chatHistories (app w))
    /\ isLoading (app w') = false
    /\ isStreaming (app w') = false
    /\ phase <$> sends w' !! idx = Some Finished
    /\ tokenCount (app w') = tokenCount (app w)
    /\ requests w' = requests w.
Proof.
  intros Hl Hp. simpl. rewrite Hl.
  assert (resume Rejected s (app w)
          = Some (set_phase Finished s, onFinally (onError s (app w)), [])) as ->.
  { unfold resume. destruct (phase s); try reflexivity. now destruct Hp. }
  eexists. split; [reflexivity|]. simpl.
  rewrite list_lookup_insert_eq by (now apply lookup_lt_Some in Hl).
  rewrite app_nil_r. auto 10.
Qed.

Lemma error_appends_one_apology_witness :
  let w := world_after [Submit 1; Deliver 0%nat (TokensCounted 3);
                        Deliver 0%nat StreamOpened; Deliver 0%nat (Chunk (Some "Hi"))] in
  exists w',
    step roles_by_id w (Deliver 0%nat Rejected) = Some w'
    /\ chatHistories (app w') !! "METHODS_SPECIALIST"
       = Some [ {| role := user; content := "hello"; agentId := None |};
                {| role := assistant; content := "Hi";
                   agentId := Some "METHODS_SPECIALIST" |};
                {| role := assistant;
                   content := "Sorry, I encountered an error. Please try again.";
                   agentId := Some "METHODS_SPECIALIST" |} ]
    /\ isLoading (app w') = false
    /\ isStreaming (app w') = false.
Proof.
  intros w.
  destruct (error_appends_one_apology roles_by_id w 0
              {| send_agent := "METHODS_SPECIALIST";
                 inputContents := buildContents (set_input "hello" initialState) [] "hello";
                 systemPrompt := "You are METHODS_SPECIALIST";
                 phase := Streaming;
                 firstChunk := false;
                 fullResponse := "Hi" |})
    as (w' & Hstep & Hlog & Hload & Hstream & _).
  - vm_compute. reflexivity.
  - discriminate.
  - exists w'. split; [exact Hstep|]. split; [|split; assumption].
    rewrite Hlog. vm_compute. reflexivity.
Defined.

(** *** A stream of empty increments *)








(** ** Attachments *)

(** C9: when the files already attached and the newly selected batch
    together exceed five, the handler sets the error message and returns:
    the attachment list is the one it found, and no file of the batch is
    added, however small. *)
Theorem too_many_files_rejects_batch (files : list File) (st : AppState) :
  (List.length (uploadedFiles st) + List.length files > 5)%nat ->
  handleFileChange (Some files) st = set_fileError (Some tooManyFiles) st
  /\ uploadedFiles (handleFileChange (Some files) st) = uploadedFiles st
  /\ fileError (handleFileChange (Some files) st)
     = Some "You can upload a maximum of 5 files."
  /\ handleFileChange_start (Some files) st
     = (set_fileError (Some tooManyFiles) st, None).
Proof.
  intros H.
  assert (handleFileChange_start (Some files) st
          = (set_fileError (Some tooManyFiles) st, None)) as E0.
  { unfold handleFileChange_start, MAX_FILES.
    destruct (Z.gtb_spec (Z.of_nat (List.length (uploadedFiles st))
                          + Z.of_nat (List.length files)) 5); [reflexivity | lia]. }
  assert (handleFileChange (Some files) st = set_fileError (Some tooManyFiles) st) as E
      by (unfold handleFileChange; now rewrite E0).
  rewrite E. repeat split. exact E0.
Qed.

Lemma too_many_files_rejects_batch_witness :
  let batch := [ {| f_name := "e.txt"; f_type := "text/plain"; f_size := 3;
                    f_result := Some "data:text/plain;base64,QUJD" |};
                 {| f_name := "f.txt"; f_type := "text/plain"; f_size := 3;
                    f_result := Some "data:text/plain;base64,QUJD" |} ] in
  handleFileChange (Some batch) four_attached
  = set_fileError (Some tooManyFiles) four_attached
  /\ uploadedFiles (handleFileChange (Some batch) four_attached)
     = uploadedFiles four_attached
  /\ fileError (handleFileChange (Some batch) four_attached)
     = Some "You can upload a maximum of 5 files."
  /\ handleFileChange_start (Some batch) four_attached
     = (set_fileError (Some tooManyFiles) four_attached, None).
Proof.
  intros batch. apply (too_many_files_rejects_batch batch four_attached).
  simpl. lia.
Defined.

(** ** Further facts about the store *)

Lemma split_nonempty (c : ascii) (s : string) : JsString.split c s <> [].
Proof.
  destruct s as [|a s]; simpl; [discriminate|].
  destruct (Ascii.eqb a c); [discriminate|].
  destruct (JsString.split c s); discriminate.
Qed.

(** The last piece of a split holds no separator. *)
Lemma pop_split_no_separator (c : ascii) (s seg : string) :
  JsString.pop (JsString.split c s) = Some seg -> contains c seg = false.
Proof.
  unfold JsString.pop. revert seg. induction s as [|a s IH]; intros seg; simpl.
  - now intros [= <-].
  - destruct (Ascii.eqb a c) eqn:Ea.
    + pose proof (split_nonempty c s) as Hne.
      destruct (JsString.split c s) as [|x l]; [contradiction|]. exact (IH seg).
    + destruct (JsString.split c s) as [|x l] eqn:Es.
      * now destruct (split_nonempty c s).
      * destruct l as [|y l].
        -- simpl in *. intros [= <-]. simpl. rewrite Ea. now apply IH.
        -- exact (IH seg).
Qed.

Lemma for_loop_invariant {A} (P : A -> Prop) (n i : nat) (body : nat -> A -> Completion A)
      (acc : A) :
  (forall j a, P a -> P (state_of (body j a))) ->
  P acc ->
  P (state_of (for_loop n i body acc)).
Proof.
  intros Hbody. revert i acc. induction n as [|n IH]; intros i acc Hacc; simpl.
  - exact Hacc.
  - pose proof (Hbody i acc Hacc) as H.
    destruct (body i acc) as [a|a]; simpl in H; [now apply IH | exact H].
Qed.

(** No key of the mapping [getAllUserConversations] returns holds an
    underscore, whatever the storage holds. *)
Lemma getAll_keys_no_underscore parse (u : string) (w : option LocalStorage.t)
      (k : string) (v : JSON) :
  getAllUserConversations parse u w !! k = Some v -> contains "_" k = false.
Proof.
  unfold getAllUserConversations, getAll_try.
  destruct w as [ls|]; [|simpl; now rewrite lookup_empty].
  revert k v.
  apply (for_loop_invariant
           (fun conv : gmap string JSON =>
              forall k v, conv !! k = Some v -> contains "_" k = false)).
  - intros j conv Hconv. unfold getAll_body.
    destruct (LocalStorage.key ls j) as [key|]; [|exact Hconv].
    destruct (JsString.truthy key && JsString.startsWith key (conversationKeyPrefix u));
      [|exact Hconv].
    destruct (LocalStorage.getItem ls key) as [stored|]; [|exact Hconv].
    destruct (JsString.truthy stored); [|exact Hconv].
    destruct (parse stored) as [d|]; [|exact Hconv].
    destruct (Json.messages_or_empty d) as [msgs|]; [|exact Hconv].
    simpl. intros k v. rewrite lookup_insert.
    destruct (decide _) as [<-|_]; [|apply Hconv].
    intros _. destruct (JsString.pop (JsString.split "_" key)) as [seg|] eqn:Hp.
    + exact (pop_split_no_separator _ _ _ Hp).
    + reflexivity.
  - intros k v. now rewrite lookup_empty.
Qed.

(** Hence a specialist whose identifier holds an underscore is never
    found in the mapping, whatever was saved. *)
Lemma getAll_misses_underscore_role parse (u : string) (w : option LocalStorage.t)
      (agentRole : string) :
  contains "_" agentRole = true ->
  getAllUserConversations parse u w !! agentRole = None.
Proof.
  intros H. destruct (getAllUserConversations parse u w !! agentRole) eqn:E;
    [|reflexivity].
  apply getAll_keys_no_underscore in E. congruence.
Qed.

Lemma messages_of_conversationData (u r : string) (messages : list Message) (now : string) :
  Json.messages_or_empty (conversationData u r messages now)
  = Some (JArr (map Message_json messages)).
Proof. reflexivity. Qed.

(** [loadConversationFromLocal], which builds the key as the save does,
    reads back what was saved. *)
Lemma save_then_load parse stringify (u r : string) (messages : list Message)
      (now : string) (ls : LocalStorage.t) :
  stringify (conversationData u r messages now) <> EmptyString ->
  parse (stringify (conversationData u r messages now))
  = Some (conversationData u r messages now) ->
  loadConversationFromLocal parse u r
    (saveConversationToLocal stringify u r messages now (Some ls))
  = Some (JArr (map Message_json messages)).
Proof.
  intros Hne Hrt. unfold loadConversationFromLocal, saveConversationToLocal.
  rewrite getItem_setItem_eq, (truthy_true _ Hne), Hrt.
  apply messages_of_conversationData.
Qed.

Lemma sessionKey_not_conversation (u v : string) :
  JsString.startsWith (sessionKey v) (conversationKeyPrefix u) = false.
Proof. reflexivity. Qed.

(** The session snapshot of another user survives [clearUserData]. *)
Lemma clearUserData_keeps_other_session (u v : string) (ls : LocalStorage.t) :
  u <> v ->
  getItemOf (clearUserData u (Some ls)) (sessionKey v)
  = LocalStorage.getItem ls (sessionKey v).
Proof.
  intros Hne. apply clearUserData_keeps. unfold isUserKey.
  rewrite sessionKey_not_conversation.
  destruct (String.eqb_spec (sessionKey v) (sessionKey u)) as [E|_].
  - unfold sessionKey in E. apply (inj (String.append userKeyPrefix)) in E. congruence.
  - apply andb_false_r.
Qed.

(** * Further properties *)

(** ** The store: reading back what was saved *)

Lemma conversationKey_inj (u r r' : string) :
  conversationKey u r = conversationKey u r' -> r = r'.
Proof.
  unfold conversationKey. intros H.
  apply (inj (String.append storageKeyPrefix)) in H.
  apply (inj (String.append u)) in H.
  now apply (inj (String.append "_")) in H.
Qed.

Lemma sessionKey_ne_conversationKey (v u r : string) :
  sessionKey v <> conversationKey u r.
Proof. discriminate. Qed.

Lemma load_setItem_eq parse stringify (u r : string) (messages : list Message)
      (now : string) (ls : LocalStorage.t) :
  let d := conversationData u r messages now in
  stringify d <> EmptyString ->
  parse (stringify d) = Some d ->
  loadConversationFromLocal parse u r
    (Some (LocalStorage.setItem ls (conversationKey u r) (stringify d)))
  = Some (JArr (map Message_json messages)).
Proof.
  intros d Hne Hrt. unfold loadConversationFromLocal.
  now rewrite getItem_setItem_eq, (truthy_true _ Hne), Hrt.
Qed.

Lemma load_setItem_ne parse (u r : string) (k v : string) (ls : LocalStorage.t) :
  k <> conversationKey u r ->
  loadConversationFromLocal parse u r (Some (LocalStorage.setItem ls k v))
  = loadConversationFromLocal parse u r (Some ls).
Proof.
  intros Hne. unfold loadConversationFromLocal.
  now rewrite getItem_setItem_ne.
Qed.

Lemma apply_saves_Some stringify (u : string) (calls : list SaveCall) (ls : LocalStorage.t) :
  exists ls', apply_saves stringify u calls (Some ls) = Some ls'.
Proof.
  revert ls. induction calls as [|c calls IH]; intros ls; simpl; [eauto|]. apply IH.
Qed.

(** After a sequence of saves the single-record read gives the last save. *)
Lemma load_apply_saves parse stringify (u : string) (calls : list SaveCall)
      (ls : LocalStorage.t) (r : string) :
  codec_ok parse stringify u calls ->
  loadConversationFromLocal parse u r (apply_saves stringify u calls (Some ls))
  = match last_saved r calls with
    | Some m => Some (JArr (map Message_json m))
    | None => loadConversationFromLocal parse u r (Some ls)
    end.
Proof.
  intros Hok. revert ls. induction Hok as [|c calls [Hne Hrt] _ IH]; intros ls.
  - reflexivity.
  - simpl. rewrite IH. destruct (last_saved r calls); [reflexivity|].
    destruct (String.eqb_spec (save_role c) r) as [<-|Hr].
    + now apply load_setItem_eq.
    + apply load_setItem_ne. intros E. now apply conversationKey_inj in E.
Qed.

(** X1: after any sequence of saves of one user, on any storage,
    [loadConversationFromLocal] returns for each specialist the messages of
    the last save made for it, and for a specialist never saved what the
    storage held before; underscores in the identifier do not matter. *)
Theorem load_after_saves parse stringify (u : string) (calls : list SaveCall)
        (ls : LocalStorage.t) (r : string) :
  codec_ok parse stringify u calls ->
  loadConversationFromLocal parse u r (apply_saves stringify u calls (Some ls))
  = match last_saved r calls with
    | Some m => Some (JArr (map Message_json m))
    | None => loadConversationFromLocal parse u r (Some ls)
    end.
Proof. apply load_apply_saves. Qed.

Lemma load_after_saves_witness :
  loadConversationFromLocal MiniJSON.parse "ada@example.com" "METHODS_SPECIALIST"
    (apply_saves MiniJSON.stringify "ada@example.com" sample_calls (Some []))
  = match last_saved "METHODS_SPECIALIST" sample_calls with
    | Some m => Some (JArr (map Message_json m))
    | None => loadConversationFromLocal MiniJSON.parse "ada@example.com"
                                        "METHODS_SPECIALIST" (Some [])
    end.
Proof.
  apply (load_after_saves MiniJSON.parse MiniJSON.stringify "ada@example.com"
                          sample_calls [] "METHODS_SPECIALIST").
  repeat constructor; vm_compute; (discriminate || reflexivity).
Defined.

(** ** The store: the loop of getAllUserConversations over the entries *)

Lemma getAll_body_entry parse (u : string) (l1 l2 : LocalStorage.t) (k v : string)
      (conv : gmap string JSON) :
  LocalStorage.wf (l1 ++ (k, v) :: l2) ->
  getAll_body parse u (l1 ++ (k, v) :: l2) (List.length l1) conv
  = getAll_entry parse u (k, v) conv.
Proof.
  intros Hwf. unfold getAll_body, getAll_entry. rewrite key_middle. simpl fst. simpl snd.
  destruct (JsString.truthy k && JsString.startsWith k (conversationKeyPrefix u));
    [|reflexivity].
  rewrite (getItem_app_r l1 _ k (wf_middle l1 l2 k v Hwf)).
  simpl LocalStorage.getItem. now rewrite String.eqb_refl.
Qed.

Lemma for_loop_entries parse (u : string) (l1 l2 : LocalStorage.t)
      (conv : gmap string JSON) :
  LocalStorage.wf (l1 ++ l2) ->
  for_loop (List.length l2) (List.length l1) (getAll_body parse u (l1 ++ l2)) conv
  = getAll_entries parse u l2 conv.
Proof.
  revert l1 conv. induction l2 as [|[k v] l2 IH]; intros l1 conv Hwf.
  - reflexivity.
  - cbn [List.length for_loop getAll_entries].
    rewrite (getAll_body_entry parse u l1 l2 k v conv Hwf).
    destruct (getAll_entry parse u (k, v) conv) as [c|c]; [|reflexivity].
    specialize (IH (l1 ++ [(k, v)]) c).
    rewrite length_app in IH. cbn [List.length] in IH.
    replace (List.length l1 + 1)%nat with (S (List.length l1)) in IH by lia.
    rewrite <- app_assoc in IH. apply IH. exact Hwf.
Qed.

(** On a well-formed storage the loop by index is the loop over the
    entries. *)
Lemma getAll_try_entries parse (u : string) (ls : LocalStorage.t) :
  LocalStorage.wf ls ->
  getAll_try parse u (Some ls) = getAll_entries parse u ls ∅.
Proof. intros Hwf. exact (for_loop_entries parse u [] ls ∅ Hwf). Qed.

(** ** Strings: splitting at a separator *)

Lemma split_no_separator (c : ascii) (s : string) :
  contains c s = false -> JsString.split c s = [s].
Proof.
  induction s as [|a s IH]; simpl; [reflexivity|].
  destruct (Ascii.eqb a c); simpl; [discriminate|].
  intros H. now rewrite (IH H).
Qed.

Lemma split_app_separator (c : ascii) (p s : string) :
  JsString.split c (p +:+ String c s) = JsString.split c p ++ JsString.split c s.
Proof.
  induction p as [|a p IH].
  - rewrite string_app_nil_l. simpl. now rewrite Ascii.eqb_refl.
  - rewrite string_app_cons. simpl. rewrite IH.
    destruct (Ascii.eqb a c); [reflexivity|].
    pose proof (split_nonempty c p) as Hne.
    now destruct (JsString.split c p).
Qed.

(** The specialist is recovered from a key when it holds no underscore. *)
Lemma pop_split_conversationKey (u r : string) :
  contains "_" r = false ->
  JsString.propertyKey (JsString.pop (JsString.split "_" (conversationKey u r))) = r.
Proof.
  intros H. unfold conversationKey.
  rewrite <- string_app_assoc.
  change ("_" +:+ r) with (String "_" r).
  rewrite split_app_separator, (split_no_separator _ _ H).
  unfold JsString.pop. now rewrite last_snoc.
Qed.

Lemma getItem_Some_in (ls : LocalStorage.t) (k v : string) :
  LocalStorage.getItem ls k = Some v -> In k (LocalStorage.keys ls).
Proof.
  induction ls as [|[k0 v0] ls IH]; simpl; [discriminate|].
  destruct (String.eqb_spec k0 k) as [->|_]; [now left | intros H; right; now apply IH].
Qed.

Lemma load_None_notin parse (u r : string) (ls : LocalStorage.t) :
  ~ In (conversationKey u r) (LocalStorage.keys ls) ->
  loadConversationFromLocal parse u r (Some ls) = None.
Proof. intros H. unfold loadConversationFromLocal. now rewrite getItem_None. Qed.

Lemma load_cons_ne parse (u r k v : string) (ls : LocalStorage.t) :
  k <> conversationKey u r ->
  loadConversationFromLocal parse u r (Some ((k, v) :: ls))
  = loadConversationFromLocal parse u r (Some ls).
Proof.
  intros Hne. unfold loadConversationFromLocal. simpl.
  now destruct (String.eqb_spec k (conversationKey u r)).
Qed.

(** Over loadable entries the loop does not throw, and what it files under
    a specialist without underscore is what [loadConversationFromLocal]
    reads for that specialist. *)
Lemma getAll_entries_lookup parse (u r : string) (ls : LocalStorage.t)
      (acc : gmap string JSON) :
  LocalStorage.wf ls ->
  Forall (loadable parse u) ls ->
  contains "_" r = false ->
  exists conv,
    getAll_entries parse u ls acc = Normal conv
    /\ conv !! r = match loadConversationFromLocal parse u r (Some ls) with
                   | Some m => Some m
                   | None => acc !! r
                   end.
Proof.
  intros Hwf Hall Hr. revert acc.
  induction ls as [|[k v] ls IH]; intros acc.
  - exists acc. split; reflexivity.
  - assert (LocalStorage.wf ls) as Hwf' by (now apply NoDup_cons in Hwf as [_ ?]).
    assert (~ In k (LocalStorage.keys ls)) as Hk.
    { apply NoDup_cons in Hwf as [Hk _]. intros H. apply Hk. now apply list_elem_of_In. }
    apply Forall_cons in Hall as [Hkv Hall].
    specialize (IH Hwf' Hall).
    cbn [getAll_entries]. unfold getAll_entry. cbn [fst snd].
    destruct (JsString.truthy k && JsString.startsWith k (conversationKeyPrefix u)) eqn:Hp.
    + apply andb_true_iff in Hp as [_ Hp].
      destruct (Hkv Hp) as (r0 & d & msgs & Hkey & Hr0 & Hv & Hd & Hm).
      cbn [fst snd] in *. rewrite Hv, Hd, Hm. subst k.
      rewrite (pop_split_conversationKey u r0 Hr0).
      destruct (IH (<[r0 := msgs]> acc)) as (conv & Hrun & Hlook).
      exists conv. split; [exact Hrun|]. rewrite Hlook.
      destruct (String.eqb_spec r0 r) as [->|Hne].
      * rewrite (load_None_notin parse u r ls Hk), lookup_insert_eq.
        unfold loadConversationFromLocal. simpl. rewrite String.eqb_refl, Hv, Hd.
        now rewrite Hm.
      * rewrite load_cons_ne by (intros E; now apply conversationKey_inj in E).
        now rewrite lookup_insert_ne.
    + destruct (IH acc) as (conv & Hrun & Hlook).
      exists conv. split; [exact Hrun|]. rewrite Hlook.
      rewrite load_cons_ne; [reflexivity|].
      intros ->. rewrite conversationKey_startsWith in Hp.
      rewrite (prefix_nonempty _ _ (conversationKeyPrefix_nonempty u)
                               (conversationKey_startsWith u r)) in Hp.
      discriminate.
Qed.

Lemma in_keys_setItem (ls : LocalStorage.t) (k v x : string) :
  In x (LocalStorage.keys (LocalStorage.setItem ls k v)) ->
  In x (LocalStorage.keys ls) \/ x = k.
Proof.
  induction ls as [|[k0 v0] ls IH]; simpl.
  - intros [<-|[]]. now right.
  - destruct (String.eqb_spec k0 k) as [->|Hne]; simpl.
    + tauto.
    + intros [<-|H]; [tauto|]. destruct (IH H); tauto.
Qed.

Lemma wf_setItem (ls : LocalStorage.t) (k v : string) :
  LocalStorage.wf ls -> LocalStorage.wf (LocalStorage.setItem ls k v).
Proof.
  unfold LocalStorage.wf. induction ls as [|[k0 v0] ls IH]; simpl; intros H.
  - apply NoDup_singleton.
  - apply NoDup_cons in H as [Hk0 H].
    destruct (String.eqb_spec k0 k) as [->|Hne]; simpl.
    + apply NoDup_cons. split; assumption.
    + apply NoDup_cons. split; [|now apply IH].
      intros Hin. apply list_elem_of_In in Hin.
      apply in_keys_setItem in Hin as [Hin| ->]; [|now destruct Hne].
      apply Hk0. now apply list_elem_of_In.
Qed.

Lemma Forall_setItem (P : string * string -> Prop) (ls : LocalStorage.t) (k v : string) :
  Forall P ls -> P (k, v) -> Forall P (LocalStorage.setItem ls k v).
Proof.
  intros H Hkv. induction H as [|[k0 v0] ls H0 Hls IH]; simpl.
  - now constructor.
  - destruct (String.eqb k0 k); constructor; assumption.
Qed.

Lemma fresh_loadable parse (u : string) (ls : LocalStorage.t) :
  fresh_for u ls -> Forall (loadable parse u) ls.
Proof.
  unfold fresh_for, LocalStorage.keys. intros H.
  apply Forall_map in H. eapply Forall_impl; [exact H|].
  intros [k v] Hk Hp. simpl in *. congruence.
Qed.

Lemma fresh_load_None parse (u r : string) (ls : LocalStorage.t) :
  fresh_for u ls -> loadConversationFromLocal parse u r (Some ls) = None.
Proof.
  intros H. apply load_None_notin. intros Hin.
  unfold fresh_for in H. rewrite Forall_forall in H.
  apply list_elem_of_In in Hin. specialize (H _ Hin).
  now rewrite conversationKey_startsWith in H.
Qed.

(** Saves of specialists without underscore keep the storage well formed
    and loadable. *)
Lemma apply_saves_loadable parse stringify (u : string) (calls : list SaveCall)
      (ls : LocalStorage.t) :
  LocalStorage.wf ls ->
  Forall (loadable parse u) ls ->
  Forall (fun c => contains "_" (save_role c) = false) calls ->
  codec_ok parse stringify u calls ->
  exists ls',
    apply_saves stringify u calls (Some ls) = Some ls'
    /\ LocalStorage.wf ls'
    /\ Forall (loadable parse u) ls'.
Proof.
  intros Hwf Hl Hroles Hok. revert ls Hwf Hl.
  induction Hok as [|c calls [Hne Hrt] _ IH]; intros ls Hwf Hl.
  - exists ls. auto.
  - apply Forall_cons in Hroles as [Hc Hroles]. simpl.
    apply (IH Hroles).
    + now apply wf_setItem.
    + apply Forall_setItem; [exact Hl|].
      intros _. simpl.
      exists (save_role c),
             (conversationData u (save_role c) (save_messages c) (save_time c)),
             (JArr (map Message_json (save_messages c))).
      now rewrite (truthy_true _ Hne).
Qed.

(** X2: on a storage that holds no conversation record under the prefix of
    a user, after any sequence of saves of that user for specialists whose
    identifiers hold no underscore, [getAllUserConversations] maps each
    such specialist to the messages of the last save made for it, and has
    no entry for one never saved. *)
Theorem getAll_after_saves parse stringify (u : string) (calls : list SaveCall)
        (ls : LocalStorage.t) (r : string) :
  LocalStorage.wf ls ->
  fresh_for u ls ->
  Forall (fun c => contains "_" (save_role c) = false) calls ->
  codec_ok parse stringify u calls ->
  contains "_" r = false ->
  getAllUserConversations parse u (apply_saves stringify u calls (Some ls)) !! r
  = (fun m => JArr (map Message_json m)) <$> last_saved r calls.
Proof.
  intros Hwf Hfresh Hroles Hok Hr.
  destruct (apply_saves_loadable parse stringify u calls ls Hwf
              (fresh_loadable parse u ls Hfresh) Hroles Hok) as (ls' & Hsaves & Hwf' & Hl').
  pose proof (load_apply_saves parse stringify u calls ls r Hok) as Hload.
  rewrite Hsaves in *. rewrite (fresh_load_None parse u r ls Hfresh) in Hload.
  unfold getAllUserConversations. rewrite (getAll_try_entries parse u ls' Hwf').
  destruct (getAll_entries_lookup parse u r ls' ∅ Hwf' Hl' Hr) as (conv & Hrun & Hlook).
  rewrite Hrun. simpl. rewrite Hlook, Hload, lookup_empty.
  now destruct (last_saved r calls).
Qed.

Lemma getAll_after_saves_witness :
  getAllUserConversations MiniJSON.parse "ada@example.com"
    (apply_saves MiniJSON.stringify "ada@example.com" plain_calls
                 (Some [("agenticone_user_ada@example.com", "{}")])) !! "planner"
  = (fun m => JArr (map Message_json m)) <$> last_saved "planner" plain_calls.
Proof.
  apply (getAll_after_saves MiniJSON.parse MiniJSON.stringify "ada@example.com"
                            plain_calls _ "planner").
  - apply (bool_decide_unpack _). vm_compute. reflexivity.
  - repeat constructor.
  - repeat constructor.
  - repeat constructor; vm_compute; (discriminate || reflexivity).
  - reflexivity.
Defined.

(** ** The store: conversations and session snapshots do not interfere *)

(** X3: conversation records and session snapshots live under keys that
    never coincide: saving a conversation changes no user's session
    snapshot, and saving a session snapshot changes no conversation log. *)
Theorem conversations_and_sessions_apart parse stringify (u r v name : string)
        (messages : list Message) (selected rag files : JSON) (now : string)
        (w : option LocalStorage.t) :
  loadUserSession parse v (saveConversationToLocal stringify u r messages now w)
  = loadUserSession parse v w
  /\ loadConversationFromLocal parse u r
       (saveUserSession stringify v name selected rag files now w)
     = loadConversationFromLocal parse u r w.
Proof.
  destruct w as [ls|]; [|split; reflexivity].
  unfold loadUserSession, loadConversationFromLocal, saveConversationToLocal,
    saveUserSession.
  split.
  - rewrite getItem_setItem_ne; [reflexivity|].
    intros E. symmetry in E. now apply sessionKey_ne_conversationKey in E.
  - rewrite getItem_setItem_ne; [reflexivity|]. apply sessionKey_ne_conversationKey.
Qed.

Lemma sessionKey_inj (u v : string) : sessionKey u = sessionKey v -> u = v.
Proof. unfold sessionKey. intros H. now apply (inj (String.append userKeyPrefix)) in H. Qed.

(** X4: a session snapshot reads back as it was written, whatever the
    storage held (the last write wins), and writing the snapshot of one
    user leaves the snapshot of every other user as it was. *)
Theorem session_roundtrip parse stringify (u name : string) (selected rag files : JSON)
        (now : string) (ls : LocalStorage.t) :
  let d := sessionData u name selected rag files now in
  let w' := saveUserSession stringify u name selected rag files now (Some ls) in
  stringify d <> EmptyString ->
  parse (stringify d) = Some d ->
  loadUserSession parse u w' = Some d
  /\ forall v, v <> u -> loadUserSession parse v w' = loadUserSession parse v (Some ls).
Proof.
  intros d w' Hne Hrt. subst d w'. unfold loadUserSession, saveUserSession. split.
  - now rewrite getItem_setItem_eq, (truthy_true _ Hne).
  - intros v Hv. rewrite getItem_setItem_ne; [reflexivity|].
    intros E. apply sessionKey_inj in E. congruence.
Qed.

Lemma session_roundtrip_witness :
  let d := sessionData "ada@example.com" "Ada" (JStr "METHODS_SPECIALIST")
                       sample_rag (JArr []) "2025-01-01T00:00:00.000Z" in
  let w' := saveUserSession MiniJSON.stringify "ada@example.com" "Ada"
                            (JStr "METHODS_SPECIALIST") sample_rag (JArr [])
                            "2025-01-01T00:00:00.000Z"
                            (Some [("agenticone_user_ada@example.com", "{oops")]) in
  loadUserSession MiniJSON.parse "ada@example.com" w' = Some d
  /\ forall v, v <> "ada@example.com" ->
               loadUserSession MiniJSON.parse v w'
               = loadUserSession MiniJSON.parse v
                   (Some [("agenticone_user_ada@example.com", "{oops")]).
Proof.
  apply (session_roundtrip MiniJSON.parse MiniJSON.stringify "ada@example.com" "Ada").
  - vm_compute. discriminate.
  - vm_compute. reflexivity.
Defined.

(** ** The store: what clearUserData removes and keeps *)

Lemma fold_removeItem_nil (ks : list string) :
  fold_left LocalStorage.removeItem ks [] = [].
Proof. induction ks as [|k ks IH]; [reflexivity | exact IH]. Qed.

Lemma fold_removeItem_cons (ks : list string) (k0 v0 : string) (ls : LocalStorage.t) :
  fold_left LocalStorage.removeItem ks ((k0, v0) :: ls)
  = if existsb (String.eqb k0) ks
    then fold_left LocalStorage.removeItem ks ls
    else (k0, v0) :: fold_left LocalStorage.removeItem ks ls.
Proof.
  revert ls. induction ks as [|k ks IH]; intros ls; [reflexivity|].
  cbn [fold_left LocalStorage.removeItem existsb].
  destruct (String.eqb k0 k); cbn [orb]; [reflexivity | apply IH].
Qed.

Lemma fold_removeItem_filter (ks : list string) (ls : LocalStorage.t) :
  fold_left LocalStorage.removeItem ks ls
  = List.filter (fun kv => negb (existsb (String.eqb (fst kv)) ks)) ls.
Proof.
  induction ls as [|[k0 v0] ls IH].
  - apply fold_removeItem_nil.
  - rewrite fold_removeItem_cons. cbn [List.filter fst].
    destruct (existsb (String.eqb k0) ks); cbn [negb]; now rewrite IH.
Qed.

Lemma existsb_keysToRemove (u : string) (ls : LocalStorage.t) (k : string) :
  In k (LocalStorage.keys ls) ->
  existsb (String.eqb k) (keysToRemove u ls) = isUserKey u (Some k).
Proof.
  intros Hin. unfold keysToRemove.
  destruct (isUserKey u (Some k)) eqn:E.
  - apply existsb_exists. exists k. split; [|apply String.eqb_refl].
    apply filter_In. now split.
  - destruct (existsb _ _) eqn:Ex; [|reflexivity].
    apply existsb_exists in Ex as (k' & Hk' & Heq).
    apply String.eqb_eq in Heq. subst k'.
    apply filter_In in Hk' as [_ Hk']. congruence.
Qed.

(** [clearUserData] keeps, in their order and with their values, exactly
    the entries whose key fails its test. *)
Lemma clearUserData_filter (u : string) (ls : LocalStorage.t) :
  clearUserData u (Some ls)
  = Some (List.filter (fun kv => negb (isUserKey u (Some (fst kv)))) ls).
Proof.
  rewrite clearUserData_eq, fold_removeItem_filter. f_equal.
  apply filter_ext_in. intros [k v] Hin. cbn [fst].
  rewrite existsb_keysToRemove; [reflexivity|].
  unfold LocalStorage.keys. now apply (in_map fst) in Hin.
Qed.

Lemma in_keys_filter (Q : string * string -> bool) (ls : LocalStorage.t) (k : string) :
  In k (LocalStorage.keys (List.filter Q ls)) ->
  exists v, In (k, v) ls /\ Q (k, v) = true.
Proof.
  unfold LocalStorage.keys. rewrite in_map_iff.
  intros ([k' v] & Hk & Hin). simpl in Hk. subst k'.
  apply filter_In in Hin. eauto.
Qed.

Lemma isUserKey_false_prefix (u k : string) :
  isUserKey u (Some k) = false ->
  JsString.truthy k && JsString.startsWith k (conversationKeyPrefix u) = false.
Proof.
  unfold isUserKey.
  destruct (JsString.truthy k), (JsString.startsWith k (conversationKeyPrefix u));
    simpl; congruence.
Qed.

(** A loop whose body never changes its state ends normally in it. *)
Lemma for_loop_idle {A} (n i : nat) (body : nat -> A -> Completion A) (acc : A) :
  (forall j, body j acc = Normal acc) ->
  for_loop n i body acc = Normal acc.
Proof.
  intros H. revert i. induction n as [|n IH]; intros i; simpl; [reflexivity|].
  rewrite H. apply IH.
Qed.

(** X5: after [clearUserData] of a user nothing of that user can be read:
    [getAllUserConversations] returns the empty mapping, and neither a
    conversation log nor the session snapshot is found. *)
Theorem clear_then_nothing_loads parse (u : string) (w : option LocalStorage.t) :
  getAllUserConversations parse u (clearUserData u w) = ∅
  /\ (forall r, loadConversationFromLocal parse u r (clearUserData u w) = None)
  /\ loadUserSession parse u (clearUserData u w) = None.
Proof.
  destruct w as [ls|]; [|repeat split].
  split; [|split].
  - rewrite clearUserData_filter.
    unfold getAllUserConversations, getAll_try.
    rewrite for_loop_idle; [reflexivity|].
    intros j. unfold getAll_body.
    destruct (LocalStorage.key _ j) as [k|] eqn:Hk; [|reflexivity].
    apply key_in_keys, in_keys_filter in Hk as (v & _ & Hq). cbn [fst] in Hq.
    apply negb_true_iff, isUserKey_false_prefix in Hq. now rewrite Hq.
  - intros r.
    pose proof (clearUserData_removes u ls (conversationKey u r)
                                      (isUserKey_conversationKey u r)) as H.
    unfold loadConversationFromLocal.
    destruct (clearUserData u (Some ls)); [|reflexivity].
    simpl in H. now rewrite H.
  - pose proof (clearUserData_removes u ls (sessionKey u) (isUserKey_sessionKey u)) as H.
    unfold loadUserSession.
    destruct (clearUserData u (Some ls)); [|reflexivity].
    simpl in H. now rewrite H.
Qed.

(** X7: [clearUserData] only removes: the entries it leaves are those of
    the storage whose key is neither under the user's conversation prefix
    nor the user's session key, with their values and in their order; so
    clearing a second time changes nothing. *)
Theorem clearUserData_only_removes (u : string) (ls : LocalStorage.t) :
  clearUserData u (Some ls)
  = Some (List.filter
            (fun kv => negb (JsString.truthy (fst kv)
                             && (JsString.startsWith (fst kv) (conversationKeyPrefix u)
                                 || String.eqb (fst kv) (sessionKey u)))) ls)
  /\ clearUserData u (clearUserData u (Some ls)) = clearUserData u (Some ls).
Proof.
  split; [apply clearUserData_filter|].
  rewrite !clearUserData_filter. f_equal.
  induction ls as [|kv ls IH]; [reflexivity|].
  cbn [List.filter]. destruct (negb (isUserKey u (Some (fst kv)))) eqn:E.
  - cbn [List.filter]. now rewrite E, IH.
  - exact IH.
Qed.

(** ** The store: users that clearUserData cannot confuse *)

(** ** Guest sign-in *)

(** One save into an empty storage, read back by [getAllUserConversations]:
    the log is filed under the last underscore-separated piece of its key. *)
Lemma getAll_single_save parse stringify (u r : string) (messages : list Message)
      (now : string) :
  stringify (conversationData u r messages now) <> EmptyString ->
  parse (stringify (conversationData u r messages now))
  = Some (conversationData u r messages now) ->
  getAllUserConversations parse u
    (saveConversationToLocal stringify u r messages now (Some []))
  = {[ JsString.propertyKey (JsString.pop (JsString.split "_" (conversationKey u r)))
       := JArr (map Message_json messages) ]}.
Proof.
  intros Hne Hrt. unfold getAllUserConversations, saveConversationToLocal.
  cbn [LocalStorage.setItem]. rewrite getAll_try_single.
  rewrite (getAll_body_hit parse u _ 0 (conversationKey u r)
                           (stringify (conversationData u r messages now))
                           (conversationData u r messages now)
                           (JArr (map Message_json messages))).
  - reflexivity.
  - reflexivity.
  - rewrite conversationKey_startsWith.
    now rewrite (prefix_nonempty _ _ (conversationKeyPrefix_nonempty u)
                                 (conversationKey_startsWith u r)).
  - cbn [LocalStorage.getItem]. now rewrite String.eqb_refl.
  - now apply truthy_true.
  - exact Hrt.
  - apply messages_of_conversationData.
Qed.

(** C8: whatever name is entered, and whenever, [signInAsGuest] yields the
    email ['guest@agenticone.com'], so two guest sessions share one set of
    storage keys. What one guest session writes, the other reads: the log
    through [loadConversationFromLocal] and [getAllUserConversations], the
    snapshot (with the first guest's name in it) through
    [loadUserSession]. What one writes is stored under the keys of the
    other, and the clearing of one removes the log and the snapshot the
    other has written. *)
Theorem guest_sessions_share_storage (toUpperCase : string -> string)
        (parse : string -> option JSON) (stringify : JSON -> string)
        (name1 name2 : option string) (t1 t1' t2 t2' : Z)
        (agentRole : string) (messages : list Message) (selected rag files : JSON)
        (now : string) (ls : LocalStorage.t) :
  let g1 := signInAsGuest toUpperCase name1 t1 t1' in
  let g2 := signInAsGuest toUpperCase name2 t2 t2' in
  let log := conversationData (email g1) agentRole messages now in
  let snapshot := sessionData (email g1) (name g1) selected rag files now in
  let saved := saveConversationToLocal stringify (email g1) agentRole messages now
                                       (Some ls) in
  let snapped := saveUserSession stringify (email g1) (name g1) selected rag files now
                                 (Some ls) in
  stringify log <> EmptyString ->
  parse (stringify log) = Some log ->
  stringify snapshot <> EmptyString ->
  parse (stringify snapshot) = Some snapshot ->
  email g1 = "guest@agenticone.com"
  /\ email g2 = "guest@agenticone.com"
  /\ (forall r, conversationKey (email g1) r = conversationKey (email g2) r)
  /\ sessionKey (email g1) = sessionKey (email g2)
  /\ loadConversationFromLocal parse (email g2) agentRole saved
     = Some (JArr (map Message_json messages))
  /\ getAllUserConversations parse (email g2)
       (saveConversationToLocal stringify (email g1) agentRole messages now (Some []))
     = {[ JsString.propertyKey
            (JsString.pop (JsString.split "_" (conversationKey (email g1) agentRole)))
          := JArr (map Message_json messages) ]}
  /\ loadUserSession parse (email g2) snapped = Some snapshot
  /\ loadConversationFromLocal parse (email g1) agentRole
       (clearUserData (email g2) saved) = None
  /\ getAllUserConversations parse (email g1) (clearUserData (email g2) saved) = ∅
  /\ loadUserSession parse (email g1) (clearUserData (email g2) snapped) = None
  /\ (forall ls' r messages' now',
         getItemOf (saveConversationToLocal stringify (email g1) r messages' now'
                                            (Some ls'))
                   (conversationKey (email g2) r)
         = Some (stringify (conversationData (email g1) r messages' now')))
  /\ (forall ls' selected' rag' files' now',
         getItemOf (saveUserSession stringify (email g1) (name g1) selected' rag' files'
                                    now' (Some ls'))
                   (sessionKey (email g2))
         = Some (stringify (sessionData (email g1) (name g1) selected' rag' files' now')))
  /\ (forall ls' r,
         getItemOf (clearUserData (email g2) (Some ls')) (conversationKey (email g1) r)
         = None)
  /\ (forall ls', getItemOf (clearUserData (email g2) (Some ls')) (sessionKey (email g1))
                  = None).
Proof.
  intros g1 g2 log snapshot saved snapped Hne Hrt Hne' Hrt'.
  subst log snapshot saved snapped.
  assert (email g1 = "guest@agenticone.com") as E1 by reflexivity.
  assert (email g2 = email g1) as E2 by reflexivity.
  rewrite E2.
  split; [exact E1|]. split; [exact E1|]. split; [reflexivity|]. split; [reflexivity|].
  split; [now apply save_then_load|].
  split; [now apply getAll_single_save|].
  split.
  { unfold loadUserSession, saveUserSession.
    rewrite getItem_setItem_eq, (truthy_true _ Hne'). exact Hrt'. }
  split.
  { unfold saveConversationToLocal.
    pose proof (clearUserData_removes (email g1)
                  (LocalStorage.setItem ls (conversationKey (email g1) agentRole)
                     (stringify (conversationData (email g1) agentRole messages now)))
                  (conversationKey (email g1) agentRole)
                  (isUserKey_conversationKey (email g1) agentRole)) as H.
    unfold loadConversationFromLocal.
    destruct (clearUserData (email g1) _); [|reflexivity].
    cbn [getItemOf] in H. now rewrite H. }
  split.
  { unfold saveConversationToLocal. rewrite clearUserData_filter.
    unfold getAllUserConversations, getAll_try.
    rewrite for_loop_idle; [reflexivity|].
    intros j. unfold getAll_body.
    destruct (LocalStorage.key _ j) as [k|] eqn:Hk; [|reflexivity].
    apply key_in_keys, in_keys_filter in Hk as (v & _ & Hq). cbn [fst] in Hq.
    apply negb_true_iff, isUserKey_false_prefix in Hq. now rewrite Hq. }
  split.
  { unfold saveUserSession.
    pose proof (clearUserData_removes (email g1)
                  (LocalStorage.setItem ls (sessionKey (email g1))
                     (stringify (sessionData (email g1) (name g1) selected rag files
                                             now)))
                  (sessionKey (email g1)) (isUserKey_sessionKey (email g1))) as H.
    unfold loadUserSession.
    destruct (clearUserData (email g1) _); [|reflexivity].
    cbn [getItemOf] in H. now rewrite H. }
  split; [intros; simpl; apply getItem_setItem_eq|].
  split; [intros; simpl; apply getItem_setItem_eq|].
  split.
  - intros ls' r. apply clearUserData_removes, isUserKey_conversationKey.
  - intros ls'. apply clearUserData_removes, isUserKey_sessionKey.
Qed.

Lemma guest_sessions_share_storage_witness :
  let g1 := signInAsGuest (fun c => c) (Some "Ada") 1 2 in
  let g2 := signInAsGuest (fun c => c) None 3 4 in
  let messages := [mkMessage user "hello" None] in
  let now := "2025-01-01T00:00:00.000Z" in
  let saved := saveConversationToLocal MiniJSON.stringify (email g1) "METHODS_SPECIALIST"
                                       messages now (Some two_users_store) in
  let snapped := saveUserSession MiniJSON.stringify (email g1) (name g1)
                                 (JStr "METHODS_SPECIALIST") sample_rag (JArr []) now
                                 (Some two_users_store) in
  name g1 = "Ada"
  /\ name g2 = "Guest User"
  /\ loadConversationFromLocal MiniJSON.parse (email g2) "METHODS_SPECIALIST" saved
     = Some (JArr (map Message_json messages))
  /\ loadUserSession MiniJSON.parse (email g2) snapped
     = Some (sessionData "guest@agenticone.com" "Ada" (JStr "METHODS_SPECIALIST")
                         sample_rag (JArr []) now)
  /\ loadConversationFromLocal MiniJSON.parse (email g1) "METHODS_SPECIALIST"
       (clearUserData (email g2) saved) = None.
Proof.
  intros g1 g2 messages now saved snapped.
  pose proof (guest_sessions_share_storage
                (fun c => c) MiniJSON.parse MiniJSON.stringify (Some "Ada") None 1 2 3 4
                "METHODS_SPECIALIST" messages (JStr "METHODS_SPECIALIST") sample_rag
                (JArr []) now two_users_store) as H.
  cbv zeta in H.
  destruct H as (_ & _ & _ & _ & Hload & _ & Hsession & Hclear & _).
  - vm_compute. discriminate.
  - vm_compute. reflexivity.
  - vm_compute. discriminate.
  - vm_compute. reflexivity.
  - split; [reflexivity|]. split; [reflexivity|].
    split; [exact Hload|]. split; [exact Hsession | exact Hclear].
Defined.

Lemma prefix_nil (s : string) : String.prefix EmptyString s = true.
Proof. now destruct s. Qed.

Lemma prefix_cons (a b : ascii) (p s : string) :
  String.prefix (String a p) (String b s) = Ascii.eqb a b && String.prefix p s.
Proof.
  simpl. destruct (ascii_dec a b) as [->|Hne].
  - now rewrite Ascii.eqb_refl.
  - destruct (Ascii.eqb_spec a b); [contradiction | reflexivity].
Qed.

Lemma prefix_app_cancel (p a b : string) :
  String.prefix (p +:+ a) (p +:+ b) = String.prefix a b.
Proof.
  induction p as [|x p IH]; [reflexivity|].
  now rewrite !string_app_cons, prefix_cons, Ascii.eqb_refl, IH.
Qed.

(** Two prefixes of one string: one is a prefix of the other. *)
Lemma prefix_both (a b k : string) :
  String.prefix a k = true -> String.prefix b k = true ->
  String.prefix a b = true \/ String.prefix b a = true.
Proof.
  revert a b. induction k as [|c k IH]; intros a b Ha Hb.
  - destruct a; [|discriminate]. left. apply prefix_nil.
  - destruct a as [|x a]; [left; apply prefix_nil|].
    destruct b as [|y b]; [right; apply prefix_nil|].
    rewrite prefix_cons in Ha, Hb.
    apply andb_true_iff in Ha as [Hx Ha]. apply andb_true_iff in Hb as [Hy Hb].
    apply Ascii.eqb_eq in Hx, Hy. subst x y.
    rewrite !prefix_cons, Ascii.eqb_refl. simpl. now apply IH.
Qed.

Lemma plain_prefix_eq (u v x y : string) :
  contains "_" u = false -> contains "_" v = false ->
  String.prefix (u +:+ String "_" x) (v +:+ String "_" y) = true -> u = v.
Proof.
  revert v. induction u as [|a u IH]; intros v Hu Hv H.
  - destruct v as [|b v]; [reflexivity|].
    rewrite string_app_nil_l, string_app_cons, prefix_cons in H.
    apply andb_true_iff in H as [H _]. apply Ascii.eqb_eq in H. subst b.
    simpl in Hv. discriminate.
  - simpl in Hu. apply orb_false_iff in Hu as [Ha Hu].
    destruct v as [|b v].
    + rewrite string_app_nil_l, string_app_cons, prefix_cons in H.
      apply andb_true_iff in H as [H _]. congruence.
    + rewrite !string_app_cons, prefix_cons in H.
      apply andb_true_iff in H as [Hab H]. apply Ascii.eqb_eq in Hab. subst b.
      simpl in Hv. apply orb_false_iff in Hv as [_ Hv].
      f_equal. now apply IH.
Qed.

Lemma email_prefix_eq (u v x y : string) :
  emailShaped u = true -> emailShaped v = true ->
  String.prefix (u +:+ String "_" x) (v +:+ String "_" y) = true -> u = v.
Proof.
  revert v. induction u as [|a u IH]; intros v Hu Hv H; [discriminate|].
  destruct v as [|b v]; [discriminate|].
  rewrite !string_app_cons, prefix_cons in H.
  apply andb_true_iff in H as [Hab H]. apply Ascii.eqb_eq in Hab. subst b.
  f_equal. simpl in Hu, Hv. destruct (Ascii.eqb a "@").
  - apply negb_true_iff in Hu, Hv. now apply (plain_prefix_eq u v x y).
  - now apply IH.
Qed.

Lemma conversationKeyPrefix_shape (u : string) :
  conversationKeyPrefix u = storageKeyPrefix +:+ (u +:+ String "_" EmptyString).
Proof. reflexivity. Qed.

(** A key under the conversation prefix of one email-shaped user is not
    under that of another, nor the other's session key. *)
Lemma other_user_key (u v k : string) :
  emailShaped u = true -> emailShaped v = true -> u <> v ->
  JsString.startsWith k (conversationKeyPrefix v) = true ->
  isUserKey u (Some k) = false.
Proof.
  intros Hu Hv Hne Hk. unfold isUserKey.
  destruct (JsString.startsWith k (conversationKeyPrefix u)) eqn:Hku.
  - exfalso. apply Hne. unfold JsString.startsWith in *.
    destruct (prefix_both _ _ _ Hku Hk) as [H|H];
      rewrite !conversationKeyPrefix_shape, prefix_app_cancel in H.
    + now apply (email_prefix_eq u v EmptyString EmptyString).
    + symmetry. now apply (email_prefix_eq v u EmptyString EmptyString).
  - destruct (String.eqb_spec k (sessionKey u)) as [->|_].
    + now rewrite sessionKey_not_conversation in Hk.
    + apply andb_false_r.
Qed.

Lemma other_user_sessionKey (u v : string) :
  u <> v -> isUserKey u (Some (sessionKey v)) = false.
Proof.
  intros Hne. unfold isUserKey. rewrite sessionKey_not_conversation.
  destruct (String.eqb_spec (sessionKey v) (sessionKey u)) as [E|_].
  - apply sessionKey_inj in E. congruence.
  - apply andb_false_r.
Qed.

Lemma keys_filter_fst (Q : string -> bool) (ls : LocalStorage.t) :
  LocalStorage.keys (List.filter (fun kv => Q (fst kv)) ls)
  = List.filter Q (LocalStorage.keys ls).
Proof.
  induction ls as [|[k v] ls IH]; [reflexivity|].
  cbn [List.filter LocalStorage.keys map fst]. destruct (Q k); cbn [map fst];
    unfold LocalStorage.keys in IH; now rewrite IH.
Qed.

Lemma wf_filter_fst (Q : string -> bool) (ls : LocalStorage.t) :
  LocalStorage.wf ls -> LocalStorage.wf (List.filter (fun kv => Q (fst kv)) ls).
Proof.
  unfold LocalStorage.wf. rewrite keys_filter_fst, !NoDup_ListNoDup.
  apply List.NoDup_filter.
Qed.

(** Entries that the loop would pass over may be dropped beforehand. *)
Lemma getAll_entries_filter parse (v : string) (Q : string * string -> bool)
      (ls : LocalStorage.t) (acc : gmap string JSON) :
  (forall kv, Q kv = false ->
              JsString.startsWith (fst kv) (conversationKeyPrefix v) = false) ->
  getAll_entries parse v (List.filter Q ls) acc = getAll_entries parse v ls acc.
Proof.
  intros HQ. revert acc. induction ls as [|kv ls IH]; intros acc; [reflexivity|].
  cbn [List.filter getAll_entries]. destruct (Q kv) eqn:E.
  - cbn [getAll_entries]. destruct (getAll_entry parse v kv acc); [apply IH | reflexivity].
  - unfold getAll_entry. rewrite (HQ kv E), andb_false_r. apply IH.
Qed.

(** X6: for two distinct users whose identifiers are shaped like email
    addresses (an [@] with no underscore after it), [clearUserData] of one
    leaves everything of the other readable as before: the mapping of
    [getAllUserConversations], every conversation log and the session
    snapshot. *)
Theorem clearUserData_keeps_other_email parse (u v : string) (ls : LocalStorage.t) :
  LocalStorage.wf ls ->
  emailShaped u = true ->
  emailShaped v = true ->
  u <> v ->
  getAllUserConversations parse v (clearUserData u (Some ls))
  = getAllUserConversations parse v (Some ls)
  /\ (forall r, loadConversationFromLocal parse v r (clearUserData u (Some ls))
                = loadConversationFromLocal parse v r (Some ls))
  /\ loadUserSession parse v (clearUserData u (Some ls))
     = loadUserSession parse v (Some ls).
Proof.
  intros Hwf Hu Hv Hne. split; [|split].
  - rewrite clearUserData_filter. unfold getAllUserConversations.
    rewrite (getAll_try_entries parse v ls Hwf).
    rewrite getAll_try_entries
      by (apply (wf_filter_fst (fun k => negb (isUserKey u (Some k)))); exact Hwf).
    rewrite getAll_entries_filter; [reflexivity|].
    intros kv Hq. apply negb_false_iff in Hq.
    destruct (JsString.startsWith (fst kv) (conversationKeyPrefix v)) eqn:E;
      [|reflexivity].
    rewrite (other_user_key u v (fst kv) Hu Hv Hne E) in Hq. discriminate.
  - intros r.
    pose proof (clearUserData_keeps u ls (conversationKey v r)
                  (other_user_key u v _ Hu Hv Hne (conversationKey_startsWith v r))) as H.
    unfold loadConversationFromLocal.
    destruct (clearUserData u (Some ls)); simpl in H; [now rewrite H|].
    now rewrite <- H.
  - pose proof (clearUserData_keeps u ls (sessionKey v)
                                    (other_user_sessionKey u v Hne)) as H.
    unfold loadUserSession.
    destruct (clearUserData u (Some ls)); simpl in H; [now rewrite H|].
    now rewrite <- H.
Qed.

Lemma clearUserData_keeps_other_email_witness :
  getAllUserConversations MiniJSON.parse "bob_k@corp.com"
    (clearUserData "bob@corp.com" (Some two_users_store))
  = getAllUserConversations MiniJSON.parse "bob_k@corp.com" (Some two_users_store)
  /\ (forall r, loadConversationFromLocal MiniJSON.parse "bob_k@corp.com" r
                  (clearUserData "bob@corp.com" (Some two_users_store))
                = loadConversationFromLocal MiniJSON.parse "bob_k@corp.com" r
                    (Some two_users_store))
  /\ loadUserSession MiniJSON.parse "bob_k@corp.com"
       (clearUserData "bob@corp.com" (Some two_users_store))
     = loadUserSession MiniJSON.parse "bob_k@corp.com" (Some two_users_store).
Proof.
  apply (clearUserData_keeps_other_email MiniJSON.parse "bob@corp.com" "bob_k@corp.com").
  - apply (bool_decide_unpack _). vm_compute. reflexivity.
  - reflexivity.
  - reflexivity.
  - discriminate.
Defined.



(** ** The authentication provider *)


Lemma storeTokens_cases (p : Faults) (tokenData : TokenData) (ss : LocalStorage.t) :
  let refreshFault := match td_refresh_token tokenData with
                      | Some rt => JsString.truthy rt && setItem_throws p "refresh_token"
                      | None => false
                      end in
  (setItem_throws p "access_token" || refreshFault = false
   /\ exists ss', storeTokens p tokenData ss = Normal ss'
                  /\ LocalStorage.getItem ss' "access_token"
                     = Some (td_access_token tokenData))
  \/ (setItem_throws p "access_token" || refreshFault = true
      /\ exists ss', storeTokens p tokenData ss = Thrown ss'
                     /\ (setItem_throws p "access_token" = false ->
                         LocalStorage.getItem ss' "access_token"
                         = Some (td_access_token tokenData))).
Proof.
  unfold storeTokens.
  destruct (setItem_throws p "access_token"); cbn [orb].
  { right. split; [reflexivity|]. eexists. split; [reflexivity | discriminate]. }
  destruct (td_refresh_token tokenData) as [rt|];
    [destruct (JsString.truthy rt); [destruct (setItem_throws p "refresh_token")|]|];
    cbn [andb].
  - right. split; [reflexivity|]. eexists. split; [reflexivity|].
    intros _. apply getItem_setItem_eq.
  - left. split; [reflexivity|]. eexists. split; [reflexivity|].
    rewrite getItem_setItem_ne by discriminate. apply getItem_setItem_eq.
  - left. split; [reflexivity|]. eexists. split; [reflexivity|]. apply getItem_setItem_eq.
  - left. split; [reflexivity|]. eexists. split; [reflexivity|]. apply getItem_setItem_eq.
Qed.


(** The alert with the user signed in: every check passes and the first
    listener throws. *)
Lemma exchange_alert_with_user :
  let a' := exchangeCodeForTokens "client" "https://app.example.com"
                                  "https://api.example.com" first_listener_throws
                                  "code-1" "state-xyz"
                                  (Ok sample_tokens) (Ok sample_userinfo)
                                  auth_awaiting_callback in
  isAuthenticated a' = true
  /\ alerts a' = [authFailed]
  /\ listener_calls a' = [(1%nat, auth_user a')].
Proof. repeat split. Qed.

(** X9: a callback whose state is not the stored one, or that finds no
    stored state, is refused before any request is made: nothing changes
    but the alert. *)
Theorem exchange_refuses_foreign_state (clientId redirectUri apiBaseUrl : string)
        (p : Faults) (code state : string)
        (tokenResponse : Response TokenData) (userInfoResponse : Response UserInfo)
        (a : Auth) :
  LocalStorage.getItem (sessionStorage a) "oauth_state" <> Some state ->
  exchangeCodeForTokens clientId redirectUri apiBaseUrl p code state
                        tokenResponse userInfoResponse a
  = showError authFailed a
  /\ fetches (exchangeCodeForTokens clientId redirectUri apiBaseUrl p code state
                                    tokenResponse userInfoResponse a) = fetches a.
Proof.
  intros H. unfold exchangeCodeForTokens.
  destruct (LocalStorage.getItem (sessionStorage a) "oauth_state") as [stored|];
    [|split; reflexivity].
  destruct (String.eqb_spec state stored) as [<-|_]; [now destruct H | split; reflexivity].
Qed.

Lemma exchange_refuses_foreign_state_witness :
  exchangeCodeForTokens "client" "https://app.example.com" "https://api.example.com"
                        noFaults "code-1" "state-forged"
                        (Ok sample_tokens) (Ok sample_userinfo)
                        auth_awaiting_callback
  = showError authFailed auth_awaiting_callback
  /\ fetches (exchangeCodeForTokens "client" "https://app.example.com"
                                    "https://api.example.com" noFaults "code-1"
                                    "state-forged"
                                    (Ok sample_tokens) (Ok sample_userinfo)
                                    auth_awaiting_callback)
     = fetches auth_awaiting_callback.
Proof.
  apply (exchange_refuses_foreign_state "client" "https://app.example.com"
                                        "https://api.example.com" noFaults "code-1"
                                        "state-forged").
  vm_compute. discriminate.
Defined.

Lemma getItem_token_keys_removed (ss : LocalStorage.t) (k : string) :
  LocalStorage.getItem
    (fold_left LocalStorage.removeItem
               ["access_token"; "refresh_token"; "code_verifier"; "oauth_state"] ss) k
  = if isTokenKey k then None else LocalStorage.getItem ss k.
Proof. apply getItem_fold_removeItem. Qed.

(** X10: after [signOut], whatever state the provider was in, there is no
    user and no authorization header, none of the four token keys is left
    in the session storage while every other key keeps its value, and each
    registered listener has been called once more, with no user. *)
Theorem signOut_clears (a : Auth) (k : string) :
  auth_user (signOut a) = None
  /\ getAuthHeader (signOut a) = None
  /\ isAuthenticated (signOut a) = false
  /\ LocalStorage.getItem (sessionStorage (signOut a)) k
     = (if isTokenKey k then None else LocalStorage.getItem (sessionStorage a) k)
  /\ listeners (signOut a) = listeners a
  /\ listener_calls (signOut a)
     = listener_calls a ++ map (fun l => (l, None)) (listeners a).
Proof.
  unfold signOut.
  destruct (LocalStorage.getItem (sessionStorage a) "access_token") as [t|];
    [destruct (JsString.truthy t)|];
    repeat split; apply getItem_token_keys_removed.
Qed.

Lemma signOut_fetches (a : Auth) :
  fetches (signOut a)
  = fetches a
    ++ match LocalStorage.getItem (sessionStorage a) "access_token" with
       | Some accessToken =>
           if JsString.truthy accessToken
           then [RevokeRequest ("token=" +:+ accessToken)] else []
       | None => []
       end.
Proof.
  unfold signOut.
  destruct (LocalStorage.getItem (sessionStorage a) "access_token") as [t|];
    [destruct (JsString.truthy t)|]; cbn; now rewrite ?app_nil_r.
Qed.

(** After an exchange whose checks pass and whose access token is stored,
    whatever throws later: the token is in the session storage and the
    two requests have been made. *)
Lemma exchange_passed (clientId redirectUri apiBaseUrl : string) (p : Faults)
      (code state codeVerifier : string) (tokenData : TokenData) (userInfo : UserInfo)
      (a : Auth) :
  LocalStorage.getItem (sessionStorage a) "oauth_state" = Some state ->
  LocalStorage.getItem (sessionStorage a) "code_verifier" = Some codeVerifier ->
  codeVerifier <> EmptyString ->
  setItem_throws p "access_token" = false ->
  let a' := exchangeCodeForTokens clientId redirectUri apiBaseUrl p code state
                                  (Ok tokenData) (Ok userInfo) a in
  LocalStorage.getItem (sessionStorage a') "access_token"
  = Some (td_access_token tokenData)
  /\ fetches a'
     = fetches a ++ [TokenExchange (apiBaseUrl +:+ "/api/auth/token") code redirectUri
                                   clientId codeVerifier;
                     UserInfoRequest ("Bearer " +:+ td_access_token tokenData)].
Proof.
  intros Hs Hv Hcv Hset a'. subst a'. unfold exchangeCodeForTokens.
  rewrite Hs, String.eqb_refl, Hv, (truthy_true _ Hcv).
  cbn [sessionStorage set_auth_user fetch].
  assert (forall ss,
             LocalStorage.getItem ss "access_token" = Some (td_access_token tokenData) ->
             forall x : Auth,
               sessionStorage x = ss ->
               fetches x
               = (fetches a ++ [TokenExchange (apiBaseUrl +:+ "/api/auth/token") code
                                              redirectUri clientId codeVerifier])
                 ++ [UserInfoRequest ("Bearer " +:+ td_access_token tokenData)] ->
               LocalStorage.getItem (sessionStorage x) "access_token"
               = Some (td_access_token tokenData)
               /\ fetches x
                  = fetches a ++ [TokenExchange (apiBaseUrl +:+ "/api/auth/token") code
                                                redirectUri clientId codeVerifier;
                                  UserInfoRequest
                                    ("Bearer " +:+ td_access_token tokenData)]) as Hshape.
  { intros ss Hss x -> ->. split; [exact Hss | now rewrite <- app_assoc]. }
  destruct (storeTokens_cases p tokenData (sessionStorage a))
    as [(_ & ss & -> & Hss)|(_ & ss & -> & Hss)];
    [|apply (Hshape ss (Hss Hset)); reflexivity].
  destruct (replaceState_throws p); [apply (Hshape ss Hss); reflexivity|].
  destruct (callListeners _ _ _ _); apply (Hshape ss Hss); reflexivity.
Qed.

(** X11: the token revoked at sign-out is the one obtained at sign-in:
    after a code exchange whose checks passed and that stored its access
    token, whatever a later platform call did, [signOut] makes exactly one
    more request, the revocation of the access token the exchange
    stored. *)
Theorem signOut_revokes_exchanged_token (clientId redirectUri apiBaseUrl : string)
        (p : Faults) (code state : string)
        (codeVerifier : string) (tokenData : TokenData) (userInfo : UserInfo) (a : Auth) :
  LocalStorage.getItem (sessionStorage a) "oauth_state" = Some state ->
  LocalStorage.getItem (sessionStorage a) "code_verifier" = Some codeVerifier ->
  codeVerifier <> EmptyString ->
  td_access_token tokenData <> EmptyString ->
  setItem_throws p "access_token" = false ->
  let a' := exchangeCodeForTokens clientId redirectUri apiBaseUrl p code state
                                  (Ok tokenData) (Ok userInfo) a in
  fetches (signOut a')
  = fetches a' ++ [RevokeRequest ("token=" +:+ td_access_token tokenData)]
  /\ fetches a'
     = fetches a ++ [TokenExchange (apiBaseUrl +:+ "/api/auth/token") code redirectUri
                                   clientId codeVerifier;
                     UserInfoRequest ("Bearer " +:+ td_access_token tokenData)].
Proof.
  intros Hs Hv Hcv Hat Hset a'.
  destruct (exchange_passed clientId redirectUri apiBaseUrl p code state codeVerifier
                            tokenData userInfo a Hs Hv Hcv Hset) as [Htoken Hfetches].
  fold a' in Htoken, Hfetches. split; [|exact Hfetches].
  now rewrite signOut_fetches, Htoken, (truthy_true _ Hat).
Qed.

Lemma signOut_revokes_exchanged_token_witness :
  let a' := exchangeCodeForTokens "client" "https://app.example.com"
                                  "https://api.example.com" noFaults
                                  "code-1" "state-xyz"
                                  (Ok sample_tokens) (Ok sample_userinfo)
                                  auth_awaiting_callback in
  fetches (signOut a')
  = fetches a' ++ [RevokeRequest ("token=" +:+ td_access_token sample_tokens)]
  /\ fetches a'
     = fetches auth_awaiting_callback
       ++ [TokenExchange ("https://api.example.com" +:+ "/api/auth/token") "code-1"
                         "https://app.example.com" "client" "verifier-abc";
           UserInfoRequest ("Bearer " +:+ td_access_token sample_tokens)].
Proof.
  apply (signOut_revokes_exchanged_token "client" "https://app.example.com"
           "https://api.example.com" noFaults "code-1" "state-xyz"
           "verifier-abc" sample_tokens sample_userinfo auth_awaiting_callback).
  - reflexivity.
  - reflexivity.
  - discriminate.
  - discriminate.
  - reflexivity.
Defined.

Lemma remove_first_snoc (x : nat) (l : list nat) :
  ~ In x l -> remove_first x (l ++ [x]) = l.
Proof.
  induction l as [|y l IH]; simpl; intros H.
  - now rewrite Nat.eqb_refl.
  - destruct (Nat.eqb_spec y x) as [->|_]; [tauto|]. f_equal. apply IH. tauto.
Qed.

Lemma remove_first_absent (x : nat) (l : list nat) :
  ~ In x l -> remove_first x l = l.
Proof.
  induction l as [|y l IH]; simpl; intros H; [reflexivity|].
  destruct (Nat.eqb_spec y x) as [->|_]; [tauto|]. f_equal. apply IH. tauto.
Qed.

(** X12: for a callback that is not registered yet, subscribing and then
    calling the returned function leaves the provider as it was, and
    calling that function without a registration changes nothing; while
    subscribed, the callback is called at the next guest sign-in with the
    user that signed in. *)
Theorem unsubscribe_undoes_subscribe (toUpperCase : string -> string) (a : Auth)
        (callback : nat) (customName : option string) (now1 now2 : Z) :
  ~ In callback (listeners a) ->
  unsubscribe callback (onAuthStateChanged callback a) = a
  /\ unsubscribe callback a = a
  /\ In (callback,
         Some {| profile := signInAsGuest toUpperCase customName now1 now2;
                 refresh_token := None |})
        (listener_calls
           (signInAsGuest_on toUpperCase customName now1 now2
                             (onAuthStateChanged callback a))).
Proof.
  intros H. split; [|split].
  - unfold unsubscribe, onAuthStateChanged. cbn [listeners set_listeners].
    rewrite (remove_first_snoc _ _ H). now destruct a.
  - unfold unsubscribe. rewrite (remove_first_absent _ _ H). now destruct a.
  - cbn. apply in_or_app. right. rewrite map_app. apply in_or_app. right. now left.
Qed.

Lemma unsubscribe_undoes_subscribe_witness :
  unsubscribe 3 (onAuthStateChanged 3 auth_awaiting_callback) = auth_awaiting_callback
  /\ unsubscribe 3 auth_awaiting_callback = auth_awaiting_callback
  /\ In (3%nat,
         Some {| profile := signInAsGuest (fun s => s) (Some "ada") 1 2;
                 refresh_token := None |})
        (listener_calls
           (signInAsGuest_on (fun s => s) (Some "ada") 1 2
                             (onAuthStateChanged 3 auth_awaiting_callback))).
Proof.
  apply (unsubscribe_undoes_subscribe (fun s => s) auth_awaiting_callback 3 (Some "ada") 1 2).
  simpl. lia.
Defined.

(** ** The PKCE strings *)

Lemma string_length_app (a b : string) :
  String.length (a +:+ b) = (String.length a + String.length b)%nat.
Proof.
  induction a as [|x a IH]; [reflexivity|].
  rewrite string_app_cons. simpl. now rewrite IH.
Qed.

Lemma contains_app (c : ascii) (a b : string) :
  contains c (a +:+ b) = contains c a || contains c b.
Proof.
  induction a as [|x a IH]; [reflexivity|].
  rewrite string_app_cons. simpl. now rewrite IH, orb_assoc.
Qed.

Lemma all_from_app (cs a b : string) :
  all_from cs (a +:+ b) = all_from cs a && all_from cs b.
Proof.
  induction a as [|x a IH]; [reflexivity|].
  rewrite string_app_cons. simpl. now rewrite IH, andb_assoc.
Qed.

Lemma charAt_in_range (i : nat) (s : string) :
  (i < String.length s)%nat ->
  exists c, charAt i s = String c EmptyString /\ contains c s = true.
Proof.
  unfold charAt. revert i. induction s as [|a s IH]; intros i Hi; simpl in Hi; [lia|].
  destruct i as [|i]; simpl.
  - exists a. now rewrite Ascii.eqb_refl.
  - destruct (IH i ltac:(lia)) as (c & Hc & Hin).
    exists c. split; [exact Hc|]. rewrite Hin. apply orb_true_r.
Qed.

Lemma randomLoop_spec (draw : nat -> nat) (n i : nat) (result : string) :
  (forall j, (draw j < String.length charset)%nat) ->
  String.length (randomLoop draw n i result) = (String.length result + n)%nat
  /\ all_from charset (randomLoop draw n i result) = all_from charset result.
Proof.
  intros Hd. revert i result. induction n as [|n IH]; intros i result; simpl.
  - split; [lia | reflexivity].
  - destruct (charAt_in_range (draw i) charset (Hd i)) as (c & Hc & Hin).
    destruct (IH (S i) (result +:+ charAt (draw i) charset)) as [Hl Ha].
    rewrite Hl, Ha, string_length_app, all_from_app, Hc.
    change (all_from charset (String c EmptyString)) with (contains c charset && true).
    change (String.length (String c EmptyString)) with 1%nat.
    rewrite Hin. split; [lia | now rewrite !andb_true_r].
Qed.

(** X13: with every draw inside the character set (as the floor of
    [Math.random()] times its length is), [generateRandomString(n)] has
    exactly [n] characters, all of them letters, digits or one of
    [-._~]. *)
Theorem generateRandomString_spec (draw : nat -> nat) (n : nat) :
  (forall j, (draw j < 66)%nat) ->
  String.length (generateRandomString draw n) = n
  /\ all_from charset (generateRandomString draw n) = true.
Proof.
  intros Hd. unfold generateRandomString.
  destruct (randomLoop_spec draw n 0 EmptyString Hd) as [Hl Ha].
  rewrite Hl, Ha. split; reflexivity.
Qed.

Lemma generateRandomString_spec_witness :
  String.length (generateRandomString walking_draw 128) = 128%nat
  /\ all_from charset (generateRandomString walking_draw 128) = true.
Proof.
  apply (generateRandomString_spec walking_draw 128).
  intros j. unfold walking_draw. apply Nat.mod_upper_bound. lia.
Defined.

Lemma contains_replaceAll_same (c : ascii) (d s : string) :
  contains c d = false -> contains c (replaceAll c d s) = false.
Proof.
  intros Hd. induction s as [|a s IH]; [reflexivity|].
  simpl. rewrite contains_app, IH, orb_false_r.
  destruct (Ascii.eqb a c) eqn:E; [exact Hd|]. simpl. now rewrite E.
Qed.

Lemma contains_replaceAll_other (x c : ascii) (d s : string) :
  contains x d = false -> contains x s = false ->
  contains x (replaceAll c d s) = false.
Proof.
  intros Hd. induction s as [|a s IH]; [reflexivity|].
  simpl. intros H. apply orb_false_iff in H as [Ha Hs].
  rewrite contains_app, (IH Hs), orb_false_r.
  destruct (Ascii.eqb a c); [exact Hd|]. simpl. now rewrite Ha.
Qed.

(** X14: the code challenge is safe in a URL: whatever the base-64 text of
    the hash, the text made from it holds no [+], no [/] and no [=]. *)
Theorem base64url_safe (b64 : string) :
  contains "+" (base64url b64) = false
  /\ contains "/" (base64url b64) = false
  /\ contains "=" (base64url b64) = false.
Proof.
  unfold base64url. split; [|split].
  - apply contains_replaceAll_other; [reflexivity|].
    apply contains_replaceAll_other; [reflexivity|].
    now apply contains_replaceAll_same.
  - apply contains_replaceAll_other; [reflexivity|].
    now apply contains_replaceAll_same.
  - now apply contains_replaceAll_same.
Qed.

(** ** The login screen *)

(** X15: the login screen calls [signInAsGuest] only once the name form
    is shown and the entered name is not blank (white space of any kind
    that [trim] strips does not count); the name passed, and so the name of
    the user, is the entered name without its surrounding white space,
    never the default ['Guest User']. Afterwards the loading flag is off,
    and the error message is cleared when the call returned, or names the
    failure when it threw. A blank name makes no call and asks for the
    name. *)
Theorem guest_signin_needs_name (toUpperCase : string -> string)
        (signIn : string -> CallOutcome) (st st' : LoginState)
        (n : string) (now1 now2 : Z) :
  handleGuestSignIn signIn st = (st', Some n) ->
  showGuestForm st = true
  /\ n = JsString.trim (guestName st)
  /\ n <> EmptyString
  /\ name (signInAsGuest toUpperCase (Some n) now1 now2) = n
  /\ login_error st' = match signIn n with
                       | Returned => None
                       | Threw message => Some (guestSignInFailed message)
                       end
  /\ login_isLoading st' = false
  /\ (forall blank, showGuestForm blank = true ->
                    JsString.trim (guestName blank) = EmptyString ->
                    handleGuestSignIn signIn blank
                    = (mkLoginState (login_isLoading blank) (Some "Please enter your name")
                                    true (guestName blank), None)).
Proof.
  unfold handleGuestSignIn. intros H.
  destruct (showGuestForm st) eqn:Hform; [|discriminate]. cbn [negb] in H.
  destruct (JsString.truthy (JsString.trim (guestName st))) eqn:Ht; [|discriminate].
  cbn [negb] in H.
  assert (n = JsString.trim (guestName st)) as ->
      by (destruct (signIn (JsString.trim (guestName st))); now injection H as _ <-).
  split; [reflexivity|]. split; [reflexivity|].
  split; [intros E; rewrite E in Ht; discriminate|].
  split; [simpl; unfold guestNameOf; now rewrite Ht|].
  split; [destruct (signIn (JsString.trim (guestName st))); now injection H as <-|].
  split; [destruct (signIn (JsString.trim (guestName st))); now injection H as <-|].
  intros blank Hb Hblank. now rewrite Hb, Hblank.
Qed.

Lemma guest_signin_needs_name_witness :
  let signIn := fun _ : string => Threw (Some "listener failed") in
  showGuestForm login_with_name = true
  /\ "Ada Lovelace" = JsString.trim (guestName login_with_name)
  /\ "Ada Lovelace" <> EmptyString
  /\ name (signInAsGuest (fun s => s) (Some "Ada Lovelace") 1 2) = "Ada Lovelace"
  /\ login_error (fst (handleGuestSignIn signIn login_with_name))
     = Some "Guest sign-in failed: listener failed"
  /\ login_isLoading (fst (handleGuestSignIn signIn login_with_name)) = false
  /\ handleGuestSignIn signIn login_with_blank_name
     = (mkLoginState false (Some "Please enter your name") true
                     (guestName login_with_blank_name), None).
Proof.
  intros signIn.
  destruct (guest_signin_needs_name (fun s => s) signIn login_with_name
              (fst (handleGuestSignIn signIn login_with_name)) "Ada Lovelace" 1 2)
    as (H1 & H2 & H3 & H4 & H5 & H6 & H7).
  - reflexivity.
  - split; [exact H1|]. split; [exact H2|]. split; [exact H3|]. split; [exact H4|].
    split; [exact H5|]. split; [exact H6|].
    apply (H7 login_with_blank_name); reflexivity.
Defined.

(** ** The send state machine: invariants of every run *)

Lemma prefix_refl (s : string) : String.prefix s s = true.
Proof. induction s as [|a s IH]; [reflexivity|]. now rewrite prefix_cons, Ascii.eqb_refl. Qed.

Lemma prefix_trans (a b c : string) :
  String.prefix a b = true -> String.prefix b c = true -> String.prefix a c = true.
Proof.
  revert b c. induction a as [|x a IH]; intros b c Hab Hbc; [apply prefix_nil|].
  destruct b as [|y b]; [discriminate|]. destruct c as [|z c]; [discriminate|].
  rewrite prefix_cons in *.
  apply andb_true_iff in Hab as [Hxy Hab]. apply andb_true_iff in Hbc as [Hyz Hbc].
  apply Ascii.eqb_eq in Hxy, Hyz. subst y z.
  now rewrite Ascii.eqb_refl, (IH b c Hab Hbc).
Qed.

Lemma grows_refl (h : list Message) : grows h h.
Proof. intros i m H. exists m. repeat split; [exact H | apply prefix_refl]. Qed.

Lemma grows_trans (h1 h2 h3 : list Message) : grows h1 h2 -> grows h2 h3 -> grows h1 h3.
Proof.
  intros H12 H23 i m H.
  destruct (H12 i m H) as (m2 & H2 & Hr2 & Ha2 & Hp2).
  destruct (H23 i m2 H2) as (m3 & H3 & Hr3 & Ha3 & Hp3).
  exists m3. repeat split; [exact H3 | congruence | congruence |].
  exact (prefix_trans _ _ _ Hp2 Hp3).
Qed.

Lemma grows_app (h extra : list Message) : grows h (h ++ extra).
Proof.
  intros i m H. exists m. repeat split; [|apply prefix_refl].
  now apply lookup_app_l_Some.
Qed.

Lemma grows_extend_last (h : list Message) (m : Message) (t : string) :
  last h = Some m ->
  grows h (take (List.length h - 1) h ++ [extendContent m t]).
Proof.
  intros Hlast. apply last_Some in Hlast as [l ->].
  rewrite take_all_but_last. intros i x Hx.
  destruct (decide (i < List.length l)%nat) as [Hi|Hi].
  - rewrite lookup_app_l in Hx by exact Hi. exists x.
    repeat split; [|apply prefix_refl]. now apply lookup_app_l_Some.
  - assert (i = List.length l) as ->.
    { apply lookup_lt_Some in Hx. rewrite length_app in Hx. simpl in Hx. lia. }
    rewrite list_lookup_middle in Hx by reflexivity. injection Hx as <-.
    exists (extendContent m t). rewrite list_lookup_middle by reflexivity.
    repeat split. simpl. apply prefix_app.
Qed.

Lemma historyOf_insert (h : gmap string (list Message)) (A B : string) (x : list Message) :
  historyOf (<[A := x]> h) B = if decide (A = B) then x else historyOf h B.
Proof.
  unfold historyOf. rewrite lookup_insert. now destruct (decide (A = B)).
Qed.

(** Writing a grown log at one specialist grows every log. *)
Lemma insert_grows (h : gmap string (list Message)) (A B : string) (x : list Message) :
  grows (historyOf h A) x ->
  grows (historyOf h B) (historyOf (<[A := x]> h) B).
Proof.
  intros H. rewrite historyOf_insert. destruct (decide (A = B)) as [<-|_];
    [exact H | apply grows_refl].
Qed.

Lemma onChunk_grows (chunk : option string) (s s' : Send) (st st' : AppState) (B : string) :
  onChunk chunk s st = Some (s', st') ->
  grows (historyOf (chatHistories st) B) (historyOf (chatHistories st') B).
Proof.
  unfold onChunk. intros H.
  destruct chunk as [t|]; [|injection H as <- <-; apply grows_refl].
  destruct (JsString.truthy t); [|injection H as <- <-; apply grows_refl].
  destruct (firstChunk s).
  - injection H as <- <-. apply insert_grows, grows_app.
  - unfold extendLast in H.
    destruct (last (historyOf (chatHistories st) (send_agent s))) as [m|] eqn:Hl;
      [|discriminate].
    injection H as <- <-. apply insert_grows. now apply grows_extend_last.
Qed.

Lemma resume_grows (r : Reply) (s s' : Send) (st st' : AppState) (reqs : list Request)
      (B : string) :
  resume r s st = Some (s', st', reqs) ->
  grows (historyOf (chatHistories st) B) (historyOf (chatHistories st') B).
Proof.
  unfold resume. intros H.
  destruct (phase s), r as [n| |chunk| |]; try discriminate;
    try (injection H as <- <- <-; first [apply grows_refl | apply insert_grows, grows_app]).
  destruct (onChunk chunk s st) as [[s1 st1]|] eqn:Hc; [|discriminate].
  injection H as <- <- <-. exact (onChunk_grows _ _ _ _ _ B Hc).
Qed.

Lemma step_grows (roles : string -> Agent) (w w' : World) (e : Event) (B : string) :
  step roles w e = Some w' ->
  grows (historyOf (chatHistories (app w)) B) (historyOf (chatHistories (app w')) B).
Proof.
  destruct e as [now|a|text|i r]; simpl; intros H.
  - unfold handleSendMessage_start in H.
    destruct (submitRejected (app w)); injection H as <-; [apply grows_refl|].
    apply insert_grows, grows_app.
  - injection H as <-. apply grows_refl.
  - injection H as <-. apply grows_refl.
  - destruct (sends w !! i) as [s|]; [|discriminate].
    destruct (resume r s (app w)) as [[[s1 st1] reqs]|] eqn:Hr; [|discriminate].
    injection H as <-. exact (resume_grows _ _ _ _ _ _ B Hr).
Qed.

(** X16: over any run of the component (submits, selections, typing, and
    replies to any of its sends, in any order) no message of any log is
    removed, moved or given another role or specialist, and the content a
    message had stays the beginning of its content: logs only grow. *)
Theorem logs_only_grow (roles : string -> Agent) (events : list Event) (w w' : World)
        (B : string) :
  run roles w events = Some w' ->
  grows (historyOf (chatHistories (app w)) B) (historyOf (chatHistories (app w')) B).
Proof.
  revert w. induction events as [|e events IH]; intros w H; simpl in H.
  - injection H as <-. apply grows_refl.
  - destruct (step roles w e) as [w1|] eqn:Hs; [|discriminate].
    exact (grows_trans _ _ _ (step_grows roles w w1 e B Hs) (IH w1 H)).
Qed.

Lemma logs_only_grow_witness :
  grows (historyOf (chatHistories (app (world_after busy_events_1))) "METHODS_SPECIALIST")
        (historyOf (chatHistories (app (world_after (busy_events_1 ++ busy_events_2))))
                   "METHODS_SPECIALIST").
Proof.
  apply (logs_only_grow roles_by_id busy_events_2).
  vm_compute. reflexivity.
Defined.

Lemma resume_tokenCount (r : Reply) (s s' : Send) (st st' : AppState) (reqs : list Request) :
  match r with TokensCounted n => 0 <= n | _ => True end ->
  resume r s st = Some (s', st', reqs) ->
  tokenCount st <= tokenCount st'.
Proof.
  unfold resume. intros Hn H.
  destruct (phase s), r as [n| |chunk| |]; try discriminate;
    try (injection H as <- <- <-; simpl; lia).
  unfold onChunk in H.
  destruct chunk as [t|]; [destruct (JsString.truthy t); [destruct (firstChunk s)|]|];
    try (injection H as <- <- <-; simpl; lia).
  destruct (extendLast (send_agent s) t (chatHistories st)); [|discriminate].
  injection H as <- <- <-. simpl. lia.
Qed.

(** X17: the token count never decreases over a run in which no estimate
    is negative. *)
Theorem tokenCount_monotone (roles : string -> Agent) (events : list Event) (w w' : World) :
  Forall estimate_nonneg events ->
  run roles w events = Some w' ->
  tokenCount (app w) <= tokenCount (app w').
Proof.
  intros Hall. revert w. induction Hall as [|e events He _ IH]; intros w H; simpl in H.
  - injection H as <-. lia.
  - destruct (step roles w e) as [w1|] eqn:Hs; [|discriminate].
    specialize (IH w1 H). enough (tokenCount (app w) <= tokenCount (app w1)) by lia.
    clear IH H. destruct e as [now|a|text|i r]; simpl in Hs.
    + unfold handleSendMessage_start in Hs.
      destruct (submitRejected (app w)); injection Hs as <-; simpl; lia.
    + injection Hs as <-. simpl. lia.
    + injection Hs as <-. simpl. lia.
    + destruct (sends w !! i) as [s|]; [|discriminate].
      destruct (resume r s (app w)) as [[[s1 st1] reqs]|] eqn:Hr; [|discriminate].
      injection Hs as <-. simpl. exact (resume_tokenCount r s s1 _ _ reqs He Hr).
Qed.

Lemma tokenCount_monotone_witness :
  tokenCount (app (world_after busy_events_1))
  <= tokenCount (app (world_after (busy_events_1 ++ busy_events_2))).
Proof.
  apply (tokenCount_monotone roles_by_id busy_events_2).
  - unfold busy_events_2. repeat constructor; simpl; lia.
  - vm_compute. reflexivity.
Defined.

Lemma resume_queryHistory (r : Reply) (s s' : Send) (st st' : AppState)
      (reqs : list Request) :
  resume r s st = Some (s', st', reqs) -> queryHistory st' = queryHistory st.
Proof.
  unfold resume. intros H.
  destruct (phase s), r as [n| |chunk| |]; try discriminate;
    try (injection H as <- <- <-; reflexivity).
  unfold onChunk in H.
  destruct chunk as [t|]; [destruct (JsString.truthy t); [destruct (firstChunk s)|]|];
    try (injection H as <- <- <-; reflexivity).
  destruct (extendLast (send_agent s) t (chatHistories st)); [|discriminate].
  injection H as <- <- <-. reflexivity.
Qed.

(** X18: the side list of queries never holds more than fifty entries,
    however many messages are sent. *)
Theorem queryHistory_capped (roles : string -> Agent) (events : list Event) (w w' : World) :
  (List.length (queryHistory (app w)) <= 50)%nat ->
  run roles w events = Some w' ->
  (List.length (queryHistory (app w')) <= 50)%nat.
Proof.
  revert w. induction events as [|e events IH]; intros w Hw H; simpl in H.
  - now injection H as <-.
  - destruct (step roles w e) as [w1|] eqn:Hs; [|discriminate].
    apply (IH w1); [|exact H]. clear IH H.
    destruct e as [now|a|text|i r]; simpl in Hs.
    + unfold handleSendMessage_start in Hs.
      destruct (submitRejected (app w)); injection Hs as <-; [exact Hw|].
      simpl. rewrite length_take. lia.
    + now injection Hs as <-.
    + now injection Hs as <-.
    + destruct (sends w !! i) as [s|]; [|discriminate].
      destruct (resume r s (app w)) as [[[s1 st1] reqs]|] eqn:Hr; [|discriminate].
      injection Hs as <-. simpl. now rewrite (resume_queryHistory _ _ _ _ _ _ Hr).
Qed.

Lemma queryHistory_capped_witness :
  (List.length (queryHistory (app (world_after (busy_events_1 ++ busy_events_2)))) <= 50)%nat.
Proof.
  apply (queryHistory_capped roles_by_id (busy_events_1 ++ busy_events_2) world_hello).
  - simpl. lia.
  - vm_compute. reflexivity.
Defined.

(** *** The flags and the sends that back them *)

Lemma flags_backed_step (roles : string -> Agent) (w w' : World) (e : Event) :
  flags_backed w -> step roles w e = Some w' -> flags_backed w'.
Proof.
  intros [HL HS] H. destruct e as [now|a|text|i r]; simpl in H.
  - unfold handleSendMessage_start in H.
    destruct (submitRejected (app w)) eqn:Hrej; injection H as <-; [split; assumption|].
    split; simpl.
    + intros _. eexists (List.length (sends w)), _. split.
      * now apply list_lookup_middle.
      * now left.
    + intros Hst. destruct (HS Hst) as (j & sj & Hj & Hp).
      exists j, sj. split; [now apply lookup_app_l_Some | exact Hp].
  - injection H as <-. split; assumption.
  - injection H as <-. split; assumption.
  - destruct (sends w !! i) as [s|] eqn:Hi; [|discriminate].
    destruct (resume r s (app w)) as [[[s1 st1] reqs]|] eqn:Hr; [|discriminate].
    injection H as <-.
    assert (i < List.length (sends w))%nat as Hlt by (now apply lookup_lt_Some in Hi).
    assert (forall j sj, sends w !! j = Some sj -> j <> i ->
                         <[i := s1]> (sends w) !! j = Some sj) as Hother.
    { intros j sj Hj Hne. now rewrite list_lookup_insert_ne. }
    assert (<[i := s1]> (sends w) !! i = Some s1) as Hself
        by (now apply list_lookup_insert_eq).
    unfold resume in Hr.
    destruct (phase s) eqn:Hp, r as [n| |chunk| |]; try discriminate;
      try (injection Hr as <- <- <-; split; simpl; intros; discriminate).
    + (* the input estimate arrives *)
      injection Hr as <- <- <-. split; simpl.
      * intros _. exists i, (set_phase AwaitStream s). split; [exact Hself | now right].
      * intros Hst. destruct (HS Hst) as (j & sj & Hj & Hpj).
        exists j, sj. split; [|exact Hpj]. apply Hother; [exact Hj|].
        intros ->. congruence.
    + (* the stream opens *)
      injection Hr as <- <- <-. split; simpl; [discriminate|].
      intros _. exists i, (set_phase Streaming s). split; [exact Hself | reflexivity].
    + (* a chunk *)
      destruct (onChunk chunk s (app w)) as [[s2 st2]|] eqn:Hc; [|discriminate].
      injection Hr as <- <- <-.
      assert (isLoading st2 = isLoading (app w) /\ isStreaming st2 = isStreaming (app w)
              /\ phase s2 = Streaming) as (EL & ES & EP).
      { unfold onChunk in Hc.
        destruct chunk as [t|]; [destruct (JsString.truthy t); [destruct (firstChunk s)|]|];
          try (injection Hc as <- <-; auto).
        destruct (extendLast (send_agent s) t (chatHistories (app w))); [|discriminate].
        injection Hc as <- <-. auto. }
      split; simpl.
      * rewrite EL. intros Hl. destruct (HL Hl) as (j & sj & Hj & Hpj).
        exists j, sj. split; [|exact Hpj]. apply Hother; [exact Hj|].
        intros ->. destruct Hpj; congruence.
      * intros _. exists i, s2. split; [exact Hself | exact EP].
    + (* the stream ends *)
      injection Hr as <- <- <-. split; simpl; [|discriminate].
      intros Hl. destruct (HL Hl) as (j & sj & Hj & Hpj).
      exists j, sj. split; [|exact Hpj]. apply Hother; [exact Hj|].
      intros ->. destruct Hpj; congruence.
Qed.

(** X19: the component is never left busy with nothing in flight. Starting
    with both flags clear, after any run in which every send that was
    started has finished, [isLoading] and [isStreaming] are both clear. *)
Theorem idle_when_all_finished (roles : string -> Agent) (events : list Event)
        (w w' : World) :
  isLoading (app w) = false ->
  isStreaming (app w) = false ->
  run roles w events = Some w' ->
  Forall (fun s => phase s = Finished) (sends w') ->
  isLoading (app w') = false /\ isStreaming (app w') = false.
Proof.
  intros HL HS Hrun Hfin.
  assert (flags_backed w') as [HL' HS'].
  { assert (flags_backed w) as Hw by (split; intros; congruence).
    clear HL HS Hfin. revert w Hw Hrun.
    induction events as [|e events IH]; intros w Hw Hrun; simpl in Hrun.
    - now injection Hrun as <-.
    - destruct (step roles w e) as [w1|] eqn:Hs; [|discriminate].
      exact (IH w1 (flags_backed_step roles w w1 e Hw Hs) Hrun). }
  rewrite Forall_forall in Hfin.
  split.
  - destruct (isLoading (app w')); [|reflexivity].
    destruct (HL' eq_refl) as (j & sj & Hj & Hp).
    apply list_elem_of_lookup_2, Hfin in Hj. destruct Hp; congruence.
  - destruct (isStreaming (app w')); [|reflexivity].
    destruct (HS' eq_refl) as (j & sj & Hj & Hp).
    apply list_elem_of_lookup_2, Hfin in Hj. congruence.
Qed.

Lemma idle_when_all_finished_witness :
  isLoading (app (world_after (busy_events_1 ++ busy_events_2))) = false
  /\ isStreaming (app (world_after (busy_events_1 ++ busy_events_2))) = false.
Proof.
  apply (idle_when_all_finished roles_by_id (busy_events_1 ++ busy_events_2) world_hello).
  - reflexivity.
  - reflexivity.
  - vm_compute. reflexivity.
  - vm_compute. repeat constructor.
Defined.

(** ** Attachments *)

Lemma processFile_Some (f : File) (u : UploadedFileState) :
  processFile f = Some u ->
  acceptable f
  /\ file_name (file u) = f_name f
  /\ mimeType (file u) <> EmptyString
  /\ status u = uploading
  /\ progress u = 0.
Proof.
  unfold processFile, acceptable, MAX_FILE_SIZE_BYTES, MAX_FILE_SIZE_MB. intros H.
  destruct (Z.gtb_spec (f_size f) (10 * 1024 * 1024)); [discriminate|].
  destruct (f_result f) as [res|]; [|discriminate].
  destruct (JsString.truthy (f_type f)) eqn:E; injection H as <-;
    cbn [file file_name mimeType status progress];
    repeat split; try lia; eauto; try discriminate.
  intros Heq. rewrite Heq in E. discriminate.
Qed.

Lemma omap_cons_eq {A B} (f : A -> option B) (x : A) (l : list A) :
  omap f (x :: l) = match f x with Some y => y :: omap f l | None => omap f l end.
Proof. reflexivity. Qed.

Lemma omap_processFile (batch : list File) :
  Forall (fun u => exists f, In f batch /\ acceptable f
                             /\ file_name (file u) = f_name f
                             /\ status u = uploading /\ progress u = 0)
         (omap processFile batch)
  /\ (List.length (omap processFile batch) <= List.length batch)%nat.
Proof.
  induction batch as [|f batch [IH1 IH2]]; [split; [constructor | reflexivity]|].
  rewrite omap_cons_eq. destruct (processFile f) as [u|] eqn:E.
  - apply processFile_Some in E as (Ha & Hn & _ & Hs & Hp).
    split; [|cbn [List.length]; lia].
    constructor.
    + exists f. split; [now left | auto].
    + eapply Forall_impl; [exact IH1|].
      intros u' (f' & ? & ?). exists f'. split; [now right | assumption].
  - split; [|cbn [List.length]; lia].
    eapply Forall_impl; [exact IH1|].
    intros u' (f' & ? & ?). exists f'. split; [now right | assumption].
Qed.

(** X20: [handleFileChange] only appends, and it appends to the list as
    it stands when the file readers have finished: whatever that list is,
    it stays in front, in its order and unchanged. Each file added comes
    from the batch, is at most 10 MB and was read, and starts as
    [uploading] with progress nought. The synchronous part adds nothing,
    and the files added later together with those attached when the
    handler was called are at most five; the list itself is bounded only
    if nothing else was attached while the readers ran. *)
Theorem handleFileChange_appends (files : option (list File)) (st st1 later : AppState)
        (batch : list File) :
  handleFileChange_start files st = (st1, Some batch) ->
  uploadedFiles st1 = uploadedFiles st
  /\ exists added,
       uploadedFiles (handleFileChange_resume batch later) = uploadedFiles later ++ added
       /\ Forall (fun u => exists f, In f (default [] files) /\ acceptable f
                                     /\ file_name (file u) = f_name f
                                     /\ status u = uploading /\ progress u = 0) added
       /\ (List.length (uploadedFiles st) + List.length added <= 5)%nat.
Proof.
  unfold handleFileChange_start, MAX_FILES. intros H.
  destruct files as [filesToUpload|]; [|discriminate].
  destruct (Z.gtb_spec (Z.of_nat (List.length (uploadedFiles st))
                        + Z.of_nat (List.length filesToUpload)) 5) as [Hgt|Hle];
    [discriminate|].
  injection H as <- <-.
  split; [now destruct (last (sizeErrors filesToUpload))|].
  destruct (omap_processFile filesToUpload) as [Hall Hlen].
  exists (omap processFile filesToUpload). unfold handleFileChange_resume.
  split; [now destruct (last (readErrors filesToUpload))|].
  split; [exact Hall | lia].
Qed.

Lemma handleFileChange_appends_witness :
  let files := Some [small_file "e.txt"; huge_file "big.pdf"] in
  let st := set_uploadedFiles [sample_attachment "a.txt"] initialState in
  let st1 := fst (handleFileChange_start files st) in
  fileError st1 = Some (tooLarge (huge_file "big.pdf"))
  /\ uploadedFiles st1 = uploadedFiles st
  /\ exists added,
       uploadedFiles (handleFileChange_resume [small_file "e.txt"; huge_file "big.pdf"]
                                              four_attached)
       = uploadedFiles four_attached ++ added
       /\ Forall (fun u => exists f,
                      In f (default [] files)
                      /\ acceptable f /\ file_name (file u) = f_name f
                      /\ status u = uploading /\ progress u = 0) added
       /\ (List.length (uploadedFiles st) + List.length added <= 5)%nat.
Proof.
  intros files st st1. split; [reflexivity|].
  apply (handleFileChange_appends files st st1 four_attached
                                  [small_file "e.txt"; huge_file "big.pdf"]).
  reflexivity.
Defined.

(** Two calls that overlap: each passes the count test on the three files
    it was rendered with, and once both sets of readers have finished the
    list holds seven files. *)
Lemma overlapping_uploads_exceed_cap :
  let st := set_uploadedFiles [sample_attachment "a.txt"; sample_attachment "b.txt";
                               sample_attachment "c.txt"] initialState in
  let first := [small_file "d.txt"; small_file "e.txt"] in
  let second := [small_file "f.txt"; small_file "g.txt"] in
  exists st1 st2,
    handleFileChange_start (Some first) st = (st1, Some first)
    /\ handleFileChange_start (Some second) st1 = (st2, Some second)
    /\ List.length (uploadedFiles
                      (handleFileChange_resume second (handleFileChange_resume first st2)))
       = 7%nat.
Proof.
  eexists. eexists. split; [reflexivity|]. split; reflexivity.
Qed.

Lemma Forall_imap_keep {A} (P : A -> Prop) (g : nat -> A -> A) (l : list A) :
  (forall i x, P x -> P (g i x)) -> Forall P l -> Forall P (imap g l).
Proof.
  intros Hg H. revert g Hg. induction H as [|x l Hx _ IH]; intros g Hg; simpl.
  - constructor.
  - constructor; [now apply Hg|]. apply IH. intros i y. apply Hg.
Qed.

Lemma Forall_removeAt_from (P : UploadedFileState -> Prop) (index i : nat)
      (l : list UploadedFileState) :
  Forall P l -> Forall P (removeAt_from index i l).
Proof.
  intros H. revert i. induction H as [|x l Hx _ IH]; intros i; simpl; [constructor|].
  destruct (Nat.eqb i index); [apply IH | constructor; [exact Hx | apply IH]].
Qed.

Lemma applyFileUpdate_progress (prev : list UploadedFileState) (u : FileUpdate) :
  Forall progress_ok prev -> Forall progress_ok (applyFileUpdate prev u).
Proof.
  intros H. destruct u as [batch|i|i|i|i]; simpl.
  - unfold appendFiles. apply Forall_app. split; [exact H|].
    destruct (omap_processFile batch) as [Hall _].
    eapply Forall_impl; [exact Hall|].
    intros x (f & _ & _ & _ & _ & Hp). unfold progress_ok. rewrite Hp.
    split; [lia | reflexivity].
  - apply Forall_imap_keep; [|exact H]. intros j x [Hr Hm].
    destruct (Nat.eqb j i && (progress x <? 100)) eqn:E; [|now split].
    apply andb_true_iff in E as [_ E]. apply Z.ltb_lt in E.
    unfold progress_ok. cbn [progress].
    pose proof (Z.div_mod (progress x) 10 ltac:(lia)) as D. rewrite Hm in D.
    split; [lia|]. rewrite Z.add_mod, Hm by lia. reflexivity.
  - apply Forall_imap_keep; [|exact H]. intros j x Hx.
    destruct (Nat.eqb j i); [|exact Hx]. unfold progress_ok. simpl.
    split; [lia | reflexivity].
  - apply Forall_imap_keep; [|exact H]. intros j x Hx.
    destruct (Nat.eqb j i); [|exact Hx]. exact Hx.
  - now apply Forall_removeAt_from.
Qed.

(** X21: the progress of every attachment stays a multiple of ten between
    0 and 100 under every updater of the list (the append of a batch, the
    ticks and the two status changes of the timers at any index, the
    removal of any file), in any order and number. *)
Theorem progress_stays_in_range (updates : list FileUpdate) (prev : list UploadedFileState) :
  Forall progress_ok prev ->
  Forall progress_ok (fold_left applyFileUpdate updates prev).
Proof.
  revert prev. induction updates as [|u updates IH]; intros prev H; simpl; [exact H|].
  apply IH. now apply applyFileUpdate_progress.
Qed.

Lemma progress_stays_in_range_witness :
  Forall progress_ok
         (fold_left applyFileUpdate
                    [AppendFiles [small_file "a.txt"; small_file "b.txt"];
                     Tick 0; Tick 0; Remove 0; Tick 1; Processing 1; Tick 0; Ready 1;
                     Processing 0; Tick 0]
                    []).
Proof.
  apply (progress_stays_in_range _ []). constructor.
Defined.

(** ** The request of a send is fixed at submit time *)

Lemma step_keeps_send (roles : string -> Agent) (idx : nat) (s : Send) (w w' : World)
      (e : Event) :
  not_reply_to idx e ->
  sends w !! idx = Some s ->
  step roles w e = Some w' ->
  sends w' !! idx = Some s.
Proof.
  intros Hn Hs H. destruct e as [now|a|text|i r]; simpl in *.
  - destruct (handleSendMessage_start roles now (app w)) as [[[st' s'] req]|];
      injection H as <-; [|exact Hs].
    simpl. now apply lookup_app_l_Some.
  - now injection H as <-.
  - now injection H as <-.
  - destruct (sends w !! i) as [si|]; [|discriminate].
    destruct (resume r si (app w)) as [[[s1 st1] reqs]|]; [|discriminate].
    injection H as <-. simpl. now rewrite list_lookup_insert_ne.
Qed.

Lemma run_keeps_send (roles : string -> Agent) (idx : nat) (s : Send)
      (events : list Event) (w w' : World) :
  Forall (not_reply_to idx) events ->
  sends w !! idx = Some s ->
  run roles w events = Some w' ->
  sends w' !! idx = Some s.
Proof.
  intros Hall. revert w. induction Hall as [|e events He _ IH]; intros w Hs H; simpl in H.
  - now injection H as <-.
  - destruct (step roles w e) as [w1|] eqn:Hstep; [|discriminate].
    exact (IH w1 (step_keeps_send roles idx s w w1 e He Hs Hstep) H).
Qed.

(** X22: the request that opens the stream of a send is fixed when the
    message is submitted. Whatever happens between the submit and the
    arrival of the estimate (other specialists selected, text typed, other
    sends started or answered), the generation request carries the very
    contents that were sent for the estimate and the system instruction of
    the specialist that was selected at submit time. *)
Theorem stream_request_fixed_at_submit (roles : string -> Agent) (w0 w1 w2 : World)
        (now n : Z) (events : list Event) :
  submitRejected (app w0) = false ->
  step roles w0 (Submit now) = Some w1 ->
  Forall (not_reply_to (List.length (sends w0))) events ->
  run roles w1 events = Some w2 ->
  exists w3 contents,
    step roles w2 (Deliver (List.length (sends w0)) (TokensCounted n)) = Some w3
    /\ requests w1 = requests w0 ++ [CountTokens contents]
    /\ requests w3
       = requests w2
         ++ [GenerateContentStream
               contents (agent_systemPrompt (roles (selectedAgent (app w0))))]
    /\ contents = buildContents (app w0)
                                (historyOf (chatHistories (app w0)) (selectedAgent (app w0)))
                                (input (app w0)).
Proof.
  intros Hacc Hsub Hall Hrun.
  simpl in Hsub. unfold handleSendMessage_start in Hsub. rewrite Hacc in Hsub.
  injection Hsub as <-.
  match type of Hrun with run _ ?w _ = _ => set (W1 := w) in * end.
  match goal with
  | _ := {| sends := _ ++ [?s] |} |- _ =>
      assert (sends W1 !! List.length (sends w0) = Some s) as Hs
          by (unfold W1; simpl; now apply list_lookup_middle)
  end.
  pose proof (run_keeps_send roles _ _ events W1 w2 Hall Hs Hrun) as Hs2.
  eexists _, _. simpl. rewrite Hs2. unfold resume. cbn [phase].
  split; [reflexivity|]. split; [reflexivity|]. split; reflexivity.
Qed.

Lemma stream_request_fixed_at_submit_witness :
  let w0 := world_after (busy_events_1 ++ [TypeInput "again"]) in
  let w1 := world_after (busy_events_1 ++ [TypeInput "again"; Submit 2]) in
  let events := [Deliver 0%nat (Chunk (Some " there")); SelectAgent "SUBSEA_ENGINEER";
                 TypeInput "next"; Deliver 0%nat StreamDone] in
  let w2 := world_after (busy_events_1 ++ [TypeInput "again"; Submit 2] ++ events) in
  exists w3 contents,
    step roles_by_id w2 (Deliver (List.length (sends w0)) (TokensCounted 3)) = Some w3
    /\ requests w1 = requests w0 ++ [CountTokens contents]
    /\ requests w3
       = requests w2
         ++ [GenerateContentStream
               contents (agent_systemPrompt (roles_by_id (selectedAgent (app w0))))]
    /\ contents = buildContents (app w0)
                                (historyOf (chatHistories (app w0)) (selectedAgent (app w0)))
                                (input (app w0)).
Proof.
  intros w0 w1 events w2.
  apply (stream_request_fixed_at_submit roles_by_id w0 w1 w2 2 3 events).
  - vm_compute. reflexivity.
  - vm_compute. reflexivity.
  - repeat constructor; simpl; lia.
  - vm_compute. reflexivity.
Defined.

(** ** The data-source toggles *)

Lemma toggleSource_keys (key : string) (rag : list (string * bool)) :
  In key (map fst rag) -> map fst (toggleSource key rag) = map fst rag.
Proof.
  induction rag as [|[k v] rag IH]; simpl; [tauto|].
  destruct (String.eqb_spec k key) as [->|Hne]; [reflexivity|].
  intros [?|H]; [contradiction|]. simpl. now rewrite IH.
Qed.

Lemma toggleSource_twice (key : string) (rag : list (string * bool)) :
  In key (map fst rag) -> toggleSource key (toggleSource key rag) = rag.
Proof.
  induction rag as [|[k v] rag IH]; simpl; [tauto|].
  destruct (String.eqb_spec k key) as [->|Hne]; simpl.
  - rewrite String.eqb_refl, negb_involutive. reflexivity.
  - destruct (String.eqb_spec k key); [contradiction|].
    intros [?|H]; [contradiction|]. now rewrite IH.
Qed.

(** X23: toggling a data source that is listed keeps the labels and their
    order, and toggling it a second time restores the flags, and with them
    the context line of the prompt. *)
Theorem toggleSource_involutive (sourceKey : string) (rag : list (string * bool))
        (currentInput : string) :
  In sourceKey (map fst rag) ->
  map fst (toggleSource sourceKey rag) = map fst rag
  /\ toggleSource sourceKey (toggleSource sourceKey rag) = rag
  /\ promptWithContext (toggleSource sourceKey (toggleSource sourceKey rag)) currentInput
     = promptWithContext rag currentInput.
Proof.
  intros H. split; [now apply toggleSource_keys|].
  rewrite (toggleSource_twice _ _ H). split; reflexivity.
Qed.

Lemma toggleSource_involutive_witness :
  map fst (toggleSource "sensors" (ragSources initialState))
  = map fst (ragSources initialState)
  /\ toggleSource "sensors" (toggleSource "sensors" (ragSources initialState))
     = ragSources initialState
  /\ promptWithContext
       (toggleSource "sensors" (toggleSource "sensors" (ragSources initialState))) "hello"
     = promptWithContext (ragSources initialState) "hello".
Proof.
  apply (toggleSource_involutive "sensors" (ragSources initialState) "hello").
  simpl. tauto.
Defined.

(** ** Hydration and persistence of the logs *)

(** A key that holds an underscore is never a key of the mapping. *)
Lemma getAll_misses_key parse (u : string) (w : option LocalStorage.t) (key : string) :
  contains "_" key = true ->
  getAllUserConversations parse u w !! key = None.
Proof.
  intros H. destruct (getAllUserConversations parse u w !! key) eqn:E; [|reflexivity].
  apply getAll_keys_no_underscore in E. congruence.
Qed.

(** X24: when every specialist identifier holds an underscore, as the four
    of the application do, signing in never restores a stored log:
    whatever the storage holds, each specialist gets exactly one welcome
    message, spoken by that specialist. *)
Theorem hydration_seeds_welcome parse (roleKeys : list string)
        (getWelcomeMessage : string -> string -> string)
        (lengthOfObjectPositive : list (string * JSON) -> bool)
        (u : GoogleUser) (w : option LocalStorage.t) :
  Forall (fun key => contains "_" key = true) roleKeys ->
  h_histories (onAuthChange parse roleKeys getWelcomeMessage lengthOfObjectPositive
                            (Some u) true w)
  = Some (map (fun key =>
                 (key, Seeded {| role := assistant;
                                 content := getWelcomeMessage key (nameOrThere u);
                                 agentId := Some key |}))
              roleKeys).
Proof.
  intros Hkeys.
  assert (map (fun key =>
                 (key, initialHistory getWelcomeMessage lengthOfObjectPositive u
                                      (getAllUserConversations parse (email u) w) key))
              roleKeys
          = map (fun key =>
                   (key, Seeded {| role := assistant;
                                   content := getWelcomeMessage key (nameOrThere u);
                                   agentId := Some key |}))
                roleKeys) as E.
  { apply map_ext_in. intros key Hin. rewrite Forall_forall in Hkeys.
    apply list_elem_of_In in Hin. unfold initialHistory.
    now rewrite (getAll_misses_key parse (email u) w key (Hkeys key Hin)). }
  unfold onAuthChange.
  destruct (loadUserSession parse (email u) w) as [sd|];
    [destruct (Json.truthy sd)|]; simpl; now rewrite E.
Qed.

Lemma hydration_seeds_welcome_witness :
  h_histories
    (onAuthChange MiniJSON.parse app_role_keys (fun key n => "Welcome " +:+ n)
                  (fun _ => false) (Some ada) true
                  (apply_saves MiniJSON.stringify "ada@example.com" sample_calls (Some [])))
  = Some (map (fun key =>
                 (key, Seeded {| role := assistant;
                                 content := "Welcome " +:+ nameOrThere ada;
                                 agentId := Some key |}))
              app_role_keys).
Proof.
  apply (hydration_seeds_welcome MiniJSON.parse app_role_keys
                                 (fun key n => "Welcome " +:+ n) (fun _ => false) ada).
  repeat constructor.
Defined.

Lemma last_saved_absent (r : string) (calls : list SaveCall) :
  ~ In r (map save_role calls) -> last_saved r calls = None.
Proof.
  induction calls as [|c calls IH]; simpl; [reflexivity|].
  intros H. rewrite IH by tauto.
  destruct (String.eqb_spec (save_role c) r); [tauto | reflexivity].
Qed.

Lemma last_saved_unique (c : SaveCall) (calls : list SaveCall) :
  List.NoDup (map save_role calls) ->
  In c calls ->
  last_saved (save_role c) calls = Some (save_messages c).
Proof.
  induction calls as [|c0 calls IH]; simpl; [tauto|].
  intros Hnd [->|Hin].
  - apply List.NoDup_cons_iff in Hnd as [Hn _].
    now rewrite (last_saved_absent _ _ Hn), String.eqb_refl.
  - apply List.NoDup_cons_iff in Hnd as [_ Hnd]. now rewrite (IH Hnd Hin).
Qed.

Lemma NoDup_roles_filter (keep : SaveCall -> bool) (calls : list SaveCall) :
  List.NoDup (map save_role calls) ->
  List.NoDup (map save_role (List.filter keep calls)).
Proof.
  induction calls as [|c calls IH]; simpl; [auto|].
  intros Hnd. apply List.NoDup_cons_iff in Hnd as [Hn Hnd].
  destruct (keep c); [|now apply IH]. simpl. constructor; [|now apply IH].
  intros Hin. apply Hn. apply in_map_iff in Hin as (c' & Hr & Hc').
  apply filter_In in Hc' as [Hc' _]. apply in_map_iff. eauto.
Qed.

(** X25: after the effect that saves the logs has run for a signed-in
    user, every specialist with a non-empty log reads back, through
    [loadConversationFromLocal], exactly that log; a specialist whose log
    is empty is not written, and reads as it did before. *)
Theorem persisted_logs_load parse stringify (u : GoogleUser) (calls : list SaveCall)
        (ls : LocalStorage.t) (c : SaveCall) :
  List.NoDup (map save_role calls) ->
  codec_ok parse stringify (email u)
           (List.filter (fun c => (0 <? List.length (save_messages c))%nat) calls) ->
  In c calls ->
  loadConversationFromLocal parse (email u) (save_role c)
    (persistEffect stringify (Some u) calls (Some ls))
  = if (0 <? List.length (save_messages c))%nat
    then Some (JArr (map Message_json (save_messages c)))
    else loadConversationFromLocal parse (email u) (save_role c) (Some ls).
Proof.
  intros Hnd Hok Hin. unfold persistEffect.
  rewrite (load_apply_saves parse stringify (email u) _ ls (save_role c) Hok).
  destruct (0 <? List.length (save_messages c))%nat eqn:E.
  - rewrite (last_saved_unique c); [reflexivity | now apply NoDup_roles_filter |].
    apply filter_In. now split.
  - rewrite last_saved_absent; [reflexivity|].
    rewrite in_map_iff. intros (c' & Hr & Hc').
    apply filter_In in Hc' as [Hc' Hk].
    assert (c' = c) as ->; [|congruence].
    clear -Hnd Hin Hc' Hr. induction calls as [|c0 calls IH]; [destruct Hin|].
    simpl in Hnd. apply List.NoDup_cons_iff in Hnd as [Hn Hnd].
    destruct Hin as [->|Hin], Hc' as [->|Hc']; auto.
    + exfalso. apply Hn. apply in_map_iff. eauto.
    + exfalso. apply Hn. apply in_map_iff. exists c. split; [now symmetry | exact Hin].
Qed.

Lemma persisted_logs_load_witness :
  loadConversationFromLocal MiniJSON.parse (email ada) "METHODS_SPECIALIST"
    (persistEffect MiniJSON.stringify (Some ada) persisted_entries (Some []))
  = if (0 <? List.length [mkMessage user "hello" None;
                          mkMessage assistant "Hi there" (Some "METHODS_SPECIALIST")])%nat
    then Some (JArr (map Message_json
                         [mkMessage user "hello" None;
                          mkMessage assistant "Hi there" (Some "METHODS_SPECIALIST")]))
    else loadConversationFromLocal MiniJSON.parse (email ada) "METHODS_SPECIALIST" (Some []).
Proof.
  apply (persisted_logs_load MiniJSON.parse MiniJSON.stringify ada persisted_entries []
           {| save_role := "METHODS_SPECIALIST";
              save_messages := [mkMessage user "hello" None;
                                mkMessage assistant "Hi there" (Some "METHODS_SPECIALIST")];
              save_time := "2025-01-01T00:00:02.000Z" |}).
  - repeat constructor; simpl; intuition discriminate.
  - repeat constructor; vm_compute; (discriminate || reflexivity).
  - simpl. tauto.
Defined.

(** ** The report request *)

Lemma verdict_opened (objectText : JSON -> string) (typeErrorMessage : string -> string)
      (outcome : ReportOutcome) (url : string) :
  verdict objectText typeErrorMessage outcome = ReportOpened url ->
  exists fields report_id,
    outcome = ReportAnswered (JObj fields)
    /\ Json.field "status" fields = Some (JStr "success")
    /\ url = previewUrl report_id.
Proof.
  unfold verdict. intros H.
  destruct outcome as [[m|]|statusText|result]; try discriminate.
  destruct result as [| | | | |fields]; try discriminate.
  destruct (Json.field "status" fields) as [[| | |status| |]|] eqn:Hs; try discriminate.
  destruct (String.eqb_spec status "success") as [->|_]; [|discriminate].
  exists fields.
  destruct (Json.field "report" fields) as [[| | | | |reportFields]|]; try discriminate;
    injection H as <-; eauto.
Qed.

(** X26: however the report request ends, the handler appends exactly one
    assistant message to the log of the specialist that was selected when
    the report was asked for, leaves every other log alone, and resets the
    three fields of the report dialog. A report page is opened only when
    the body is an object whose status is the string ['success'], and its
    address is then a preview address ending in [.html]. *)
Theorem report_finish_appends_one (objectText : JSON -> string)
        (typeErrorMessage : string -> string) (agentRole : string)
        (outcome : ReportOutcome) (w : ReportWorld) :
  let w' := report_finish objectText typeErrorMessage agentRole outcome w in
  (exists m,
      chatHistories (r_app w')
      = <[agentRole := historyOf (chatHistories (r_app w)) agentRole ++ [m]]>
          (chatHistories (r_app w))
      /\ role m = assistant
      /\ agentId m = Some agentRole)
  /\ r_ui w' = {| isGeneratingReport := false; reportModalOpen := false;
                  reportRequest := EmptyString |}
  /\ (r_opened w' = r_opened w
      \/ exists fields report_id,
           outcome = ReportAnswered (JObj fields)
           /\ Json.field "status" fields = Some (JStr "success")
           /\ r_opened w'
              = r_opened w
                ++ ["http://localhost:8000/api/reports/preview/" +:+ report_id
                    +:+ ".html"]).
Proof.
  intros w'. subst w'. unfold report_finish. cbn [r_app r_ui r_opened].
  split; [eexists; repeat split|]. split; [reflexivity|].
  destruct (verdict objectText typeErrorMessage outcome) as [url|e] eqn:Hv; [|now left].
  right. apply verdict_opened in Hv as (fields & rid & -> & Hs & ->).
  exists fields, rid. auto.
Qed.

(** X27: when the body of the answer is an object whose status is not
    ['success'] and whose message is a non-empty text, the message
    appended to the log carries that text between the fixed opening and
    closing of the failure notice; nothing is opened and the generating
    flag is cleared. *)
Theorem report_failure_names_message (objectText : JSON -> string)
        (typeErrorMessage : string -> string) (agentRole : string)
        (fields : list (string * JSON)) (m : string) (w : ReportWorld) :
  Json.field "status" fields <> Some (JStr "success") ->
  Json.field "message" fields = Some (JStr m) ->
  m <> EmptyString ->
  let w' := report_finish objectText typeErrorMessage agentRole
                          (ReportAnswered (JObj fields)) w in
  historyOf (chatHistories (r_app w')) agentRole
  = historyOf (chatHistories (r_app w)) agentRole
    ++ [ {| role := assistant;
            content := reportFailedHead +:+ m +:+ reportFailedTail;
            agentId := Some agentRole |} ]
  /\ r_opened w' = r_opened w
  /\ isGeneratingReport (r_ui w') = false.
Proof.
  intros Hs Hm Hne w'. subst w'.
  assert (verdict objectText typeErrorMessage (ReportAnswered (JObj fields))
          = ReportFailed m) as Hv.
  { unfold verdict. rewrite Hm. cbn [Json.truthy textOfValue].
    rewrite (truthy_true _ Hne).
    destruct (Json.field "status" fields) as [[| | |status| |]|]; try reflexivity.
    destruct (String.eqb_spec status "success") as [->|_]; [now destruct Hs | reflexivity]. }
  unfold report_finish. rewrite Hv. cbn [r_app r_ui r_opened isGeneratingReport].
  split; [|split; reflexivity].
  cbn [chatHistories set_chatHistories]. rewrite historyOf_insert.
  destruct (decide (agentRole = agentRole)); [reflexivity | contradiction].
Qed.

Lemma report_failure_names_message_witness :
  let w' := report_finish (fun _ => "[object Object]") (fun p => "Cannot read " +:+ p)
                          "METHODS_SPECIALIST"
                          (ReportAnswered (JObj [("status", JStr "error");
                                                 ("message", JStr "boom")]))
                          report_world in
  historyOf (chatHistories (r_app w')) "METHODS_SPECIALIST"
  = historyOf (chatHistories (r_app report_world)) "METHODS_SPECIALIST"
    ++ [ {| role := assistant;
            content := reportFailedHead +:+ "boom" +:+ reportFailedTail;
            agentId := Some "METHODS_SPECIALIST" |} ]
  /\ r_opened w' = r_opened report_world
  /\ isGeneratingReport (r_ui w') = false.
Proof.
  apply (report_failure_names_message (fun _ => "[object Object]")
           (fun p => "Cannot read " +:+ p) "METHODS_SPECIALIST"
           [("status", JStr "error"); ("message", JStr "boom")] "boom" report_world).
  - discriminate.
  - reflexivity.
  - discriminate.
Defined.

(** X28: a report is requested only for a signed-in user whose selected
    specialist has a non-empty log. The call then holds on to that
    specialist, makes exactly one request, addressed to a non-empty user
    email and with a non-empty customer request, raises the generating
    flag and leaves the component state as it is. *)
Theorem report_start_guard (roles : string -> Agent) (stringify : JSON -> string)
        (today now : string) (w w1 : ReportWorld) (agentRole : string) :
  report_start roles stringify today now w = Some (agentRole, w1) ->
  is_Some (r_user w)
  /\ agentRole = selectedAgent (r_app w)
  /\ historyOf (chatHistories (r_app w)) agentRole <> []
  /\ (exists req, r_requests w1 = r_requests w ++ [req]
                  /\ user_email req <> EmptyString
                  /\ customer_request req <> EmptyString
                  /\ specialist_type req = specialistTypeMap agentRole)
  /\ isGeneratingReport (r_ui w1) = true
  /\ r_app w1 = r_app w.
Proof.
  unfold report_start. intros H.
  destruct (r_user w) as [u|]; [|discriminate].
  destruct (historyOf (chatHistories (r_app w)) (selectedAgent (r_app w)))
    as [|m h] eqn:Hh; [discriminate|].
  injection H as <- <-. cbn [r_requests r_ui r_app isGeneratingReport].
  split; [eauto|]. split; [reflexivity|]. split; [now rewrite Hh|].
  split; [|split; reflexivity].
  eexists. split; [reflexivity|]. cbn [user_email customer_request specialist_type].
  split; [|split; [|reflexivity]].
  - destruct (JsString.truthy (email u)) eqn:E; [|discriminate].
    intros Heq. rewrite Heq in E. discriminate.
  - destruct (JsString.truthy (reportRequest (r_ui w))) eqn:E.
    + intros Heq. rewrite Heq in E. discriminate.
    + intros Heq. apply (f_equal String.length) in Heq.
      rewrite string_length_app in Heq. simpl in Heq. lia.
Qed.

Lemma report_start_guard_witness :
  exists agentRole w1,
    report_start roles_by_id MiniJSON.stringify "1/1/2025" "2025-01-01T00:00:00.000Z"
                 report_ready_world = Some (agentRole, w1)
    /\ is_Some (r_user report_ready_world)
    /\ agentRole = selectedAgent (r_app report_ready_world)
    /\ historyOf (chatHistories (r_app report_ready_world)) agentRole <> []
    /\ (exists req, r_requests w1 = r_requests report_ready_world ++ [req]
                    /\ user_email req <> EmptyString
                    /\ customer_request req <> EmptyString
                    /\ specialist_type req = specialistTypeMap agentRole)
    /\ isGeneratingReport (r_ui w1) = true
    /\ r_app w1 = r_app report_ready_world.
Proof.
  destruct (report_start roles_by_id MiniJSON.stringify "1/1/2025"
                         "2025-01-01T00:00:00.000Z" report_ready_world)
    as [[agentRole w1]|] eqn:E; [|vm_compute in E; discriminate].
  exists agentRole, w1. split; [reflexivity|].
  apply (report_start_guard roles_by_id MiniJSON.stringify "1/1/2025"
                            "2025-01-01T00:00:00.000Z" report_ready_world w1 agentRole).
  exact E.
Defined.
